(** * Switching activity of an AIG network: simSwitch.c

    A shallow embedding of [src/opt/sim/simSwitch.c] (ABC): the template
    writer [Sim_NtkWriteSwitchingTemplate], the loader
    [Sim_NtkLoadSwitching], the simulation driver
    [Sim_NtkComputeSwitching] and the metric [Sim_ComputeSwitching].

    C [int]s are integers of [Z] with the 32-bit wrap-around written out,
    text is a list of characters, the C library calls the file makes
    ([fgets], [sscanf], [fprintf], [malloc], [free]) are functions on an
    explicit system state, and the [float] arithmetic is kept behind an
    interface with two instances: exact rationals and IEEE-754 binary32. *)

From Stdlib Require Import ZArith Zpower List Ascii String Bool Lia QArith Qpower Lqa.
From Stdlib Require Import Floats.SpecFloat.
From stdpp Require Import base list gmap strings.

Local Open Scope Z_scope.

(** ** C integers *)

Module CInt.

Definition INT_MAX : Z := 2147483647.
Definition INT_MIN : Z := -2147483648.
Definition LONG_MAX : Z := 9223372036854775807.
Definition LONG_MIN : Z := -9223372036854775808.

(** Two's-complement reduction of an integer to the range of [int]. *)
Definition wrap (z : Z) : Z := (z + 2147483648) mod 4294967296 - 2147483648.

Definition in_range (z : Z) : Prop := INT_MIN <= z <= INT_MAX.

Definition add (a b : Z) : Z := wrap (a + b).
Definition sub (a b : Z) : Z := wrap (a - b).
Definition mul (a b : Z) : Z := wrap (a * b).

(** [strtol] saturates at the bounds of [long]. *)
Definition clamp_long (z : Z) : Z := Z.max LONG_MIN (Z.min LONG_MAX z).

End CInt.

(** ** Characters and C strings *)

Definition text := list ascii.

Definition NUL : ascii := "000"%char.
Definition TAB : ascii := "009"%char.
Definition LF  : ascii := "010"%char.
Definition VT  : ascii := "011"%char.
Definition FF  : ascii := "012"%char.
Definition CR  : ascii := "013"%char.

(** A C string literal: the characters of the literal, with the escape
    [\n] of the source text turned into a line feed. *)
Definition BACKSLASH : ascii := "092"%char.

Fixpoint unescape (s : text) : text :=
  match s with
  | c :: s' =>
      match s' with
      | d :: s'' =>
          if Ascii.eqb c BACKSLASH && Ascii.eqb d "n" then LF :: unescape s''
          else c :: unescape s'
      | [] => [c]
      end
  | [] => []
  end.

Definition lit (s : string) : text := unescape (list_ascii_of_string s).

(** The contents of a [char] array read as a string: up to the first NUL. *)
Fixpoint c_str (s : text) : text :=
  match s with
  | [] => []
  | c :: s' => if Ascii.eqb c NUL then [] else c :: c_str s'
  end.

(** [isspace] in the C locale. *)
Definition isspace (c : ascii) : bool :=
  Ascii.eqb c " " || Ascii.eqb c TAB || Ascii.eqb c LF
  || Ascii.eqb c VT || Ascii.eqb c FF || Ascii.eqb c CR.

Definition isdigit (c : ascii) : bool :=
  let n := N_of_ascii c in (48 <=? n)%N && (n <=? 57)%N.

Definition digit_val (c : ascii) : Z := Z.of_N (N_of_ascii c) - 48.

Fixpoint skip_ws (s : text) : text :=
  match s with
  | c :: s' => if isspace c then skip_ws s' else s
  | [] => []
  end.

(** ** Printing: the [%d] conversion and [fprintf] *)

Definition digit_char (d : Z) : ascii := ascii_of_N (Z.to_N (48 + d)).

(** Decimal digits of a non-negative number, most significant first; the
    fuel bounds the number of digits. *)
Fixpoint dec_digits (fuel : nat) (n : Z) (acc : text) : text :=
  match fuel with
  | O => acc
  | S fuel' =>
      let acc' := digit_char (n mod 10) :: acc in
      if n <? 10 then acc' else dec_digits fuel' (n / 10) acc'
  end.

(** What [%d] prints for the [int] [z]. *)
Definition dec (z : Z) : text :=
  if z <? 0 then "-"%char :: dec_digits (S (Z.to_nat (Z.log2 (- z)))) (- z) []
  else dec_digits (S (Z.to_nat (Z.log2 z))) z [].

(** [sprintf fmt args]: the text a [printf]-family call produces for a
    format that only has [%d] conversions. *)
Fixpoint sprintf (fmt : text) (args : list Z) : text :=
  match fmt with
  | "%"%char :: "d"%char :: fmt' =>
      match args with
      | a :: args' => dec a ++ sprintf fmt' args'
      | [] => sprintf fmt' []
      end
  | c :: fmt' => c :: sprintf fmt' args
  | [] => []
  end.

(** ** Scanning: [fgets] and [sscanf] *)

(** [fgets(buffer, size, pFile)] copies characters up to and including the
    next line feed, at most [size - 1] of them. *)
Fixpoint fgets_chunk (room : nat) (s : text) : text * text :=
  match room, s with
  | S room', c :: s' =>
      if Ascii.eqb c LF then ([c], s')
      else let (l, r) := fgets_chunk room' s' in (c :: l, r)
  | _, _ => ([], s)
  end.

(** [None] is the NULL that [fgets] returns at end of file; the buffer is
    then left as it was. *)
Definition fgets (size : nat) (s : text) : option (text * text) :=
  match s with
  | [] => None
  | _ :: _ => Some (fgets_chunk (size - 1) s)
  end.

(** The conversions of a [scanf] format. *)
Inductive directive :=
  | DSpace                 (* white space in the format: skips any white space *)
  | DChar (c : ascii)      (* an ordinary character: must match *)
  | DInt (assign : bool)   (* %d, or %*d when [assign] is false *)
  | DFloat.                (* %f *)

Fixpoint parse_format (fmt : text) : list directive :=
  match fmt with
  | "%"%char :: "*"%char :: "d"%char :: r => DInt false :: parse_format r
  | "%"%char :: "d"%char :: r => DInt true :: parse_format r
  | "%"%char :: "f"%char :: r => DFloat :: parse_format r
  | c :: r => (if isspace c then DSpace else DChar c) :: parse_format r
  | [] => []
  end.

Fixpoint scan_digits (s : text) (acc : Z) : Z * text :=
  match s with
  | c :: s' => if isdigit c then scan_digits s' (10 * acc + digit_val c) else (acc, s)
  | [] => (acc, [])
  end.

(** The subject sequence of [%d]: an optional sign and at least one digit. *)
Definition scan_int (s : text) : option (Z * text) :=
  let '(neg, s1) :=
    match s with
    | c :: r => if Ascii.eqb c "-" then (true, r)
                else if Ascii.eqb c "+" then (false, r) else (false, s)
    | [] => (false, s)
    end in
  match s1 with
  | c :: _ =>
      if isdigit c then
        let (v, rest) := scan_digits s1 0 in Some (if neg then - v else v, rest)
      else None
  | [] => None
  end.

(** The value [%d] stores: glibc converts with [strtol] and truncates the
    [long] to [int] (ISO C leaves an unrepresentable value undefined). *)
Definition int_of_scanned (v : Z) : Z := CInt.wrap (CInt.clamp_long v).

(** The [%f] conversion of the C library, on input whose leading white
    space has been skipped: the value and the rest of the input, or [None]
    on a matching failure. *)
Class FloatScan (F : Type) := {
  strtof : text -> option (F * text);
  (** the [float] whose representation is all zero bits *)
  f_bits0 : F
}.

Inductive arg (F : Type) :=
  | AInt (z : Z)
  | AFloat (v : F).
Arguments AInt {F} z.
Arguments AFloat {F} v.

(** The items that [sscanf] assigns, in order; [sscanf] returns their
    number (or EOF when there is none), so "the call returned 2" is "two
    items were assigned". *)
Fixpoint run_format {F} `{FloatScan F} (fmt : list directive) (inp : text) : list (arg F) :=
  match fmt with
  | [] => []
  | DSpace :: fmt' => run_format fmt' (skip_ws inp)
  | DChar c :: fmt' =>
      match inp with
      | a :: inp' => if Ascii.eqb a c then run_format fmt' inp' else []
      | [] => []
      end
  | DInt assign :: fmt' =>
      match scan_int (skip_ws inp) with
      | Some (v, rest) =>
          if assign then AInt (int_of_scanned v) :: run_format fmt' rest
          else run_format fmt' rest
      | None => []
      end
  | DFloat :: fmt' =>
      match strtof (skip_ws inp) with
      | Some (v, rest) => AFloat v :: run_format fmt' rest
      | None => []
      end
  end.

Definition sscanf {F} `{FloatScan F} (buffer : text) (fmt : string) : list (arg F) :=
  run_format (parse_format (lit fmt)) (c_str buffer).

(** ** The network, as this file sees it

    [abc.h] is not part of the sources at hand: a network is the data that
    the accessors used here return. *)

Record Abc_Obj := {
  Id : Z;          (* pNode->Id *)
  FaninId0 : Z;    (* Abc_ObjFaninId0 *)
  FaninId1 : Z;    (* Abc_ObjFaninId1 *)
  FaninC0 : bool;  (* Abc_ObjFaninC0 *)
  FaninC1 : bool   (* Abc_ObjFaninC1 *)
}.

Record Abc_Ntk := {
  pName : option string;        (* pNtk->pName, NULL when absent *)
  vCis : list Abc_Obj;          (* the objects Abc_NtkForEachCi visits, in order *)
  Abc_NtkObjNumMax : Z;         (* Vec_PtrSize(pNtk->vObjs) *)
  Abc_AigDfs : list Abc_Obj     (* the nodes Abc_AigDfs( pNtk, 1, 0 ) returns, in order *)
}.

Definition Abc_NtkCiNum (pNtk : Abc_Ntk) : Z := Z.of_nat (length (vCis pNtk)).

(** Identifiers index the object table; the counts are [int]s. *)
Record valid_ntk (pNtk : Abc_Ntk) : Prop := {
  valid_max : Abc_NtkObjNumMax pNtk <= CInt.INT_MAX;
  valid_cis : Forall (fun o => 0 <= Id o < Abc_NtkObjNumMax pNtk) (vCis pNtk);
  valid_dfs : Forall (fun o => 0 <= Id o < Abc_NtkObjNumMax pNtk) (Abc_AigDfs pNtk);
  valid_unique : NoDup (Id <$> vCis pNtk ++ Abc_AigDfs pNtk);
  valid_fanins :
    Forall (fun o => 0 <= FaninId0 o < Abc_NtkObjNumMax pNtk
                     /\ 0 <= FaninId1 o < Abc_NtkObjNumMax pNtk) (Abc_AigDfs pNtk)
}.

(** ** The machine: what the calls to the C library may do *)

(** The heap blocks of the two functions, named after the variable that
    holds them. *)
Inductive block :=
  | blk_fileName | blk_vNodes | blk_nNodes
  | blk_Ci_Switching | blk_Node_Switching | blk_vSwitching.

Record machine := {
  malloc_ok : block -> bool;       (* does this allocation succeed? *)
  fopen_w_ok : string -> bool;     (* can this file be opened for writing? *)
  vec_address : Z                  (* the address of the vector that Vec_IntStart
                                      returns at line 123 *)
}.

Inductive std := Stdout | Stderr.

Inductive parg (F : Type) :=
  | PInt (z : Z)
  | PStr (s : text)
  | PFlt (v : option F).
Arguments PInt {F} z.
Arguments PStr {F} s.
Arguments PFlt {F} v.

Inductive event (F : Type) :=
  | EAlloc (b : block)
  | EFree (b : block)
  | EFopen (name : string)
  | EFclose
  | EPrint (to : std) (fmt : string) (args : list (parg F)).
Arguments EAlloc {F} b.
Arguments EFree {F} b.
Arguments EFopen {F} name.
Arguments EFclose {F}.
Arguments EPrint {F} to fmt args.

(** The files, and what the run did so far. *)
Record sys (F : Type) := {
  files : gmap string text;
  trace : list (event F)
}.
Arguments files {F} s.
Arguments trace {F} s.
Arguments Build_sys {F} files trace.

Definition emit {F} (es : list (event F)) (s : sys F) : sys F :=
  {| files := files s; trace := trace s ++ es |}.

(** ** Arrays of the heap *)

(** A cell of a [malloc]ed array is indeterminate until it is written. *)
Definition cell (F : Type) := option F.

(** [a[i] = v]; [None] when [i] is not an index of [a]. *)
Definition store {A} (a : list A) (i : Z) (v : A) : option (list A) :=
  if (0 <=? i) && (i <? Z.of_nat (length a)) then Some (<[Z.to_nat i := v]> a)
  else None.

(** [a[i]]; [None] when [i] is not an index of [a]. *)
Definition load {A} (a : list A) (i : Z) : option A :=
  if 0 <=? i then a !! Z.to_nat i else None.

(** ** An open file, read with [fgets(buffer, sizeof(buffer), pFile)] *)

(** The chunks that successive calls of [fgets] with a buffer of [size]
    characters return; each call takes at least one character, so the
    length of the text is fuel enough. *)
Fixpoint chunks_fuel (fuel : nat) (size : nat) (s : text) : list text :=
  match fuel with
  | O => []
  | S fuel' =>
      match fgets size s with
      | None => []
      | Some (l, r) => l :: chunks_fuel fuel' size r
      end
  end.

Definition chunks (size : nat) (s : text) : list text := chunks_fuel (length s) size s.

(** ** Sim_NtkWriteSwitchingTemplate (lines 39-99) *)

Definition fprintf (out : text) (fmt : string) (args : list Z) : text :=
  out ++ sprintf (lit fmt) args.

(** [Abc_NtkForEachCi( pNtk, pNode, i )] with its body (lines 78-81). *)
Fixpoint write_cis (cis : list Abc_Obj) (i : Z) (out : text) : text :=
  match cis with
  | [] => out
  | pNode :: cis' =>
      write_cis cis' (i + 1)
        (fprintf out "CI %d: ID=%d .5\n" [i; CInt.sub (Id pNode) 1])
  end.

(** [Vec_PtrForEachEntry( Abc_Obj_t *, vNodes, pNode, i )] with its body
    (lines 87-90). *)
Fixpoint write_nodes (vNodes : list Abc_Obj) (i : Z) (out : text) : text :=
  match vNodes with
  | [] => out
  | pNode :: vNodes' =>
      write_nodes vNodes' (i + 1)
        (fprintf out "Node %d: ID=%d .5\n" [i; CInt.sub (Id pNode) 1])
  end.

(** Everything that is written between [fopen] and [fclose]. *)
Definition template_text (pNtk : Abc_Ntk) : text :=
  let out := fprintf [] "# Switching Activities Template File\n" [] in
  let out := fprintf out "# Format: ID [Switching Value Placeholder]\n" [] in
  let out := fprintf out "# CIs: %d\n" [Abc_NtkCiNum pNtk] in
  let out := fprintf out "# Nodes: %d\n\n" [Abc_NtkObjNumMax pNtk] in
  let out := write_cis (vCis pNtk) 0 out in
  let vNodes := Abc_AigDfs pNtk in
  write_nodes vNodes 0 out.

Section Writer.
Context {F : Type}.
Variable mc : machine.

(** The stream is written out when it is closed. *)
Definition Sim_NtkWriteSwitchingTemplate
    (pNtk : option Abc_Ntk) (fileBaseName : option string) (s : sys F) : Z * sys F :=
  match pNtk, fileBaseName with
  | Some ntk, Some base =>
      if negb (malloc_ok mc blk_fileName) then
        (-1, emit [EPrint Stderr "Error: Memory allocation failed for file name.\n" []] s)
      else
        let fileName := (base +:+ ".switch")%string in
        if negb (fopen_w_ok mc fileName) then
          (-1, emit [EAlloc blk_fileName;
                     EPrint Stderr "Error: Could not open file %s for writing.\n"
                       [PStr (list_ascii_of_string fileName)];
                     EFree blk_fileName] s)
        else
          (0, {| files := <[fileName := template_text ntk]> (files s);
                 trace := trace s ++
                   [EAlloc blk_fileName; EFopen fileName; EAlloc blk_vNodes;
                    EFree blk_vNodes; EFclose;
                    EPrint Stdout "Switching template file written to %s\n"
                      [PStr (list_ascii_of_string fileName)];
                    EFree blk_fileName] |})
  | _, _ =>
      (-1, emit [EPrint Stderr "Error: Invalid network or file base name.\n" []] s)
  end.

End Writer.

(** ** Sim_NtkLoadSwitching (lines 111-255) *)

Inductive fault :=
  | UninitBuffer                      (* [buffer] read before any [fgets] filled it *)
  | OutOfBounds (b : block) (i : Z).  (* an index outside the block it is used on *)

(** How a call ends: it returns (NULL or a vector, whose cells may have
    been copied from indeterminate ones), or it runs into undefined
    behaviour. *)
Inductive outcome (F : Type) :=
  | Returned (vSwitching : option (list (cell F)))
  | Faulted (f : fault).
Arguments Returned {F} vSwitching.
Arguments Faulted {F} f.

(** The locals that the two reading loops share. *)
Record frame (F : Type) := {
  buffer : option text;             (* char buffer[256]; [None]: never filled *)
  pFile : list text;                (* what [fgets] has still to deliver *)
  Ci_Switching : list (cell F);
  Node_Switching : list (cell F);
  log : list (event F)
}.
Arguments buffer {F} f.
Arguments pFile {F} f.
Arguments Ci_Switching {F} f.
Arguments Node_Switching {F} f.
Arguments log {F} f.
Arguments Build_frame {F} buffer pFile Ci_Switching Node_Switching log.

(** A statement either falls through or leaves the function. *)
Inductive flow (F A : Type) :=
  | Next (a : A)
  | Leave (o : outcome F) (l : list (event F)).
Arguments Next {F A} a.
Arguments Leave {F A} o l.

Definition bind {F A B} (m : flow F A) (k : A -> flow F B) : flow F B :=
  match m with
  | Next a => k a
  | Leave o l => Leave o l
  end.

(** [for ( i = i0; i < i0 + n; i++ ) body] *)
Fixpoint for_loop {F A} (n : nat) (i : Z) (body : Z -> A -> flow F A) (a : A) : flow F A :=
  match n with
  | O => Next a
  | S n' => bind (body i a) (for_loop n' (i + 1) body)
  end.

Section Loader.
Context {F : Type} `{FloatScan F}.
Variable mc : machine.

Definition say (e : list (event F)) (fr : frame F) : frame F :=
  {| buffer := buffer fr; pFile := pFile fr; Ci_Switching := Ci_Switching fr;
     Node_Switching := Node_Switching fr; log := log fr ++ e |}.

(** [fgets(buffer, sizeof(buffer), pFile)] *)
Definition read_line (fr : frame F) : option (frame F) :=
  match pFile fr with
  | [] => None
  | l :: rest =>
      Some {| buffer := Some l; pFile := rest; Ci_Switching := Ci_Switching fr;
              Node_Switching := Node_Switching fr; log := log fr |}
  end.

(** Lines 154-158: skip the lines that start with '#' or are empty. *)
Fixpoint skip_header (buf : option text) (lines : list text) : option text * list text :=
  match lines with
  | [] => (buf, [])
  | l :: rest =>
      match l with
      | c :: _ =>
          if negb (Ascii.eqb c "#") && negb (Ascii.eqb c LF) then (Some l, rest)
          else skip_header (Some l) rest
      | [] => (Some l, rest)
      end
  end.

(** The three statements that every failure of the loops ends with. *)
Definition bail_out : list (event F) :=
  [EFree blk_Ci_Switching; EFree blk_Node_Switching; EFclose].

(** The body of the loop of lines 161-187. *)
Definition read_ci (nCis : Z) (i : Z) (fr : frame F) : flow F (frame F) :=
  match buffer fr with
  | None => Leave (Faulted UninitBuffer) (log fr)
  | Some buf =>
      let fr := say [EPrint Stdout "DEBUG: Line read for CI: '%s'\n" [PStr (c_str buf)]] fr in
      match sscanf buf "CI %*d: ID=%d %f" with
      | [AInt id; AFloat value] =>
          match store (Ci_Switching fr) id (Some value) with
          | None => Leave (Faulted (OutOfBounds blk_Ci_Switching id)) (log fr)
          | Some a =>
              let fr := {| buffer := buffer fr; pFile := pFile fr; Ci_Switching := a;
                           Node_Switching := Node_Switching fr; log := log fr |} in
              match read_line fr with
              | Some fr' => Next fr'
              | None =>
                  if i <? CInt.sub nCis 1 then
                    Leave (Returned None)
                      (log fr ++
                       EPrint Stderr "Error: Unexpected end of file while reading CI values.\n" []
                       :: bail_out)
                  else Next fr
              end
          end
      | _ =>
          Leave (Returned None)
            (log fr ++
             EPrint Stderr "Error: Failed to parse CI %d line: '%s'\n" [PInt i; PStr (c_str buf)]
             :: bail_out)
      end
  end.

(** The body of the loop of lines 191-221. *)
Definition read_node (nNodes : Z) (i : Z) (fr : frame F) : flow F (frame F) :=
  match buffer fr with
  | None => Leave (Faulted UninitBuffer) (log fr)
  | Some buf =>
      let fr := say [EPrint Stdout "DEBUG: Line read for Node: '%s'\n" [PStr (c_str buf)]] fr in
      match sscanf buf " Node %*d : ID = %d %f " with
      | [AInt id; AFloat value] =>
          match store (Node_Switching fr) id (Some value) with
          | None => Leave (Faulted (OutOfBounds blk_Node_Switching id)) (log fr)
          | Some a =>
              let fr := {| buffer := buffer fr; pFile := pFile fr;
                           Ci_Switching := Ci_Switching fr;
                           Node_Switching := a; log := log fr |} in
              match read_line fr with
              | Some fr' => Next fr'
              | None =>
                  if i <? CInt.sub nNodes 1 then
                    Leave (Returned None)
                      (log fr ++
                       EPrint Stderr "Error: Unexpected end of file while reading Node values.\n" []
                       :: bail_out)
                  else Next fr
              end
          end
      | _ =>
          Leave (Returned None)
            (log fr ++
             EPrint Stderr "Error: Failed to parse Node %d line: '%s'\n" [PInt i; PStr (c_str buf)]
             :: bail_out)
      end
  end.

(** Lines 236-239: [pSwitching[pNode->Id] = Ci_Switching[i]] for every
    combinational input. *)
Fixpoint assign_cis (cis : list Abc_Obj) (i : Z) (Ci : list (cell F))
    (pSwitching : list (cell F)) : flow F (list (cell F)) :=
  match cis with
  | [] => Next pSwitching
  | pNode :: cis' =>
      match load Ci i with
      | None => Leave (Faulted (OutOfBounds blk_Ci_Switching i)) []
      | Some v =>
          match store pSwitching (Id pNode) v with
          | None => Leave (Faulted (OutOfBounds blk_vSwitching (Id pNode))) []
          | Some p => assign_cis cis' (i + 1) Ci p
          end
      end
  end.

(** Lines 243-248: [pSwitching[pNode->Id] = Node_Switching[pNode->Id]]
    for every internal node, after printing the value. *)
Fixpoint assign_nodes (vNodes : list Abc_Obj) (Node : list (cell F))
    (pSwitching : list (cell F)) (l : list (event F))
    : flow F (list (cell F) * list (event F)) :=
  match vNodes with
  | [] => Next (pSwitching, l)
  | pNode :: vNodes' =>
      match load Node (Id pNode) with
      | None => Leave (Faulted (OutOfBounds blk_Node_Switching (Id pNode))) l
      | Some v =>
          let l := l ++ [EPrint Stdout "Loading node:%i = pSwitching:%.5f\n"
                           [PInt (Id pNode); PFlt v]] in
          match store pSwitching (Id pNode) v with
          | None => Leave (Faulted (OutOfBounds blk_vSwitching (Id pNode))) l
          | Some p => assign_nodes vNodes' Node p l
          end
      end
  end.

(** From the allocation of the two arrays (line 143) to the end. *)
Definition load_from (pNtk : Abc_Ntk) (vNodes : list Abc_Obj) (nNodes : Z)
    (contents : text) (l0 : list (event F)) : flow F (list (cell F) * list (event F)) :=
  let nCis := Abc_NtkCiNum pNtk in
  let ci_ok := malloc_ok mc blk_Ci_Switching in
  (* a negative count, converted to size_t, is a size that no malloc grants *)
  let node_ok := malloc_ok mc blk_Node_Switching && (0 <=? nNodes) in
  let l1 := l0 ++ (if ci_ok then [EAlloc blk_Ci_Switching] else [])
               ++ (if node_ok then [EAlloc blk_Node_Switching] else []) in
  if negb ci_ok || negb node_ok then
    Leave (Returned None)
      (l1 ++ [EPrint Stderr "Error: Memory allocation failed.\n" []; EFclose])
  else
    let '(buf, rest) := skip_header None (chunks 256 contents) in
    let fr := {| buffer := buf; pFile := rest;
                 Ci_Switching := replicate (Z.to_nat nCis) None;
                 Node_Switching := replicate (Z.to_nat nNodes) None;
                 log := l1 |} in
    bind (for_loop (Z.to_nat nCis) 0 (read_ci nCis) fr) (fun fr =>
    bind (for_loop (length vNodes) 0 (read_node nNodes) fr) (fun fr =>
    let l := log fr ++ [EFclose] in
    if negb (malloc_ok mc blk_vSwitching) then
      Leave (Returned None)
        (l ++ [EPrint Stderr "Error: Memory allocation failed for vSwitching.\n" [];
               EFree blk_Ci_Switching; EFree blk_Node_Switching])
    else
      let pSwitching := replicate (Z.to_nat nNodes) (Some f_bits0) in
      let l := l ++ [EAlloc blk_vSwitching] in
      match assign_cis (vCis pNtk) 0 (Ci_Switching fr) pSwitching with
      | Leave o _ => Leave o l
      | Next pSwitching =>
          let vNodes := Abc_AigDfs pNtk in
          let l := l ++ [EAlloc blk_vNodes] in
          bind (assign_nodes vNodes (Node_Switching fr) pSwitching l) (fun '(pSwitching, l) =>
          Next (pSwitching,
                l ++ [EPrint Stdout "finished loading\n" []; EFree blk_vNodes;
                      EFree blk_Ci_Switching; EFree blk_Node_Switching]))
      end)).

Definition Sim_NtkLoadSwitching (pNtk : Abc_Ntk) (fileName : option string) (s : sys F)
    : outcome F * sys F :=
  let vNodes := Abc_AigDfs pNtk in
  (* line 123 stores the pointer in an [int]: the address, truncated *)
  let nNodes := CInt.wrap (vec_address mc) in
  let s := emit [EAlloc blk_vNodes; EAlloc blk_nNodes] s in
  match fileName with
  | None =>
      let s := emit [EPrint Stderr
        "Warning: Invalid switching file name or not provided >> Generating a template now\n" []] s in
      let '(_, s) := Sim_NtkWriteSwitchingTemplate mc (Some pNtk) (pName pNtk) s in
      (Returned None, s)
  | Some name =>
      match files s !! name with
      | None =>
          (Returned None,
           emit [EPrint Stderr "Error: Could not open file %s for reading.\n"
                   [PStr (list_ascii_of_string name)]] s)
      | Some contents =>
          match load_from pNtk vNodes nNodes contents [EFopen name] with
          | Next (pSwitching, l) => (Returned (Some pSwitching), emit l s)
          | Leave o l => (o, emit l s)
          end
      end
  end.

End Loader.

(** ** A [%f] conversion to run the loader with

    Decimal floating constants, read as the rational they denote: an
    optional sign, digits with an optional point, an optional exponent.
    The value is kept exact, where [%f] rounds it to a [float], and the
    hexadecimal constants, infinities and NaNs that the C library also
    reads are left out; the files of the scenario hold the values
    0.5 and 0.75 only, which a [float] holds exactly, and the general
    statements about the loader are made for every [FloatScan]. *)

Fixpoint count_digits (s : text) : nat :=
  match s with
  | c :: s' => if isdigit c then S (count_digits s') else O
  | [] => O
  end.

Definition scan_exponent (s : text) : Z * text :=
  match s with
  | c :: r =>
      if Ascii.eqb c "e" || Ascii.eqb c "E" then
        match scan_int r with
        | Some (e, rest) => (e, rest)
        | None => (0, s)
        end
      else (0, s)
  | [] => (0, s)
  end.

Definition scan_decimal (s : text) : option (Q * text) :=
  let '(neg, s1) :=
    match s with
    | c :: r => if Ascii.eqb c "-" then (true, r)
                else if Ascii.eqb c "+" then (false, r) else (false, s)
    | [] => (false, s)
    end in
  let ni := count_digits s1 in
  let '(ip, s2) := scan_digits s1 0 in
  let '(nf, m, s3) :=
    match s2 with
    | c :: r =>
        if Ascii.eqb c "." then
          let '(m, r') := scan_digits r ip in (count_digits r, m, r')
        else (O, ip, s2)
    | [] => (O, ip, s2)
    end in
  if (ni + nf =? 0)%nat then None
  else
    let '(e, rest) := scan_exponent s3 in
    let m := if neg then - m else m in
    let p := e - Z.of_nat nf in
    let v := if 0 <=? p then inject_Z (m * 10 ^ p)
             else Qmake m (Z.to_pos (10 ^ (- p))) in
    Some (Qred v, rest).

#[export] Instance decimal_scan : FloatScan Q :=
  {| strtof := scan_decimal; f_bits0 := 0%Q |}.

(** ** The arithmetic of [float] *)

(** The operations that simSwitch.c applies to [float]s: the constant
    [(float)2.0], the conversion of an [int], [*] and [/]. *)
Class FloatOps (F : Type) := {
  f_two : F;
  f_of_int : Z -> F;
  f_mul : F -> F -> F;
  f_div : F -> F -> F
}.

(** Exact arithmetic: the numbers that the formulas of the documentation
    denote. *)
#[export] Instance exact_ops : FloatOps Q :=
  {| f_two := 2%Q; f_of_int := inject_Z; f_mul := Qmult; f_div := Qdiv |}.

(** IEEE-754 binary32, the [float] of the platforms ABC runs on, every
    operation rounded to nearest-even (FLT_EVAL_METHOD 0). *)
Module B32.
Definition prec : Z := 24.
Definition emax : Z := 128.
Definition of_int (z : Z) : spec_float := binary_normalize prec emax z 0 false.
Definition mul : spec_float -> spec_float -> spec_float := SFmul prec emax.
Definition div : spec_float -> spec_float -> spec_float := SFdiv prec emax.
Definition two : spec_float := S754_finite false 8388608 (-22).
Definition half : spec_float := S754_finite false 8388608 (-24).
Definition one : spec_float := S754_finite false 8388608 (-23).
Definition zero : spec_float := S754_zero false.

(** The value of the mantissa [m] with the exponent [e]. *)
Definition value (m : positive) (e : Z) : Q := (inject_Z (Zpos m) * 2 ^ e)%Q.

(** The rational a float stands for; [None] for infinities and NaN. *)
Definition to_Q (x : spec_float) : option Q :=
  match x with
  | S754_zero _ => Some 0%Q
  | S754_finite s m e => Some (if s then Qopp (value m e) else value m e)
  | _ => None
  end.

(** One part in [2^23]: the distance of two neighbouring normal floats,
    relative to their size, is no more. *)
Definition u : Q := 1 # 8388608.

(** [x] is a positive normal float whose value is [X] up to the factors
    [a] and [b], with its exponent between [lo] and [hi]. *)
Definition near (x : spec_float) (X a b : Q) (lo hi : Z) : Prop :=
  exists m e,
    x = S754_finite false m e
    /\ 2 ^ 23 <= Zpos m < 2 ^ 24
    /\ lo <= e <= hi
    /\ (0 < X)%Q
    /\ (X * a <= value m e <= X * b)%Q.

(** A float that is a number between 0 and 1. *)
Definition unit_interval (x : spec_float) : Prop :=
  exists q, to_Q x = Some q /\ (0 <= q <= 1)%Q.
End B32.

#[export] Instance binary32_ops : FloatOps spec_float :=
  {| f_two := B32.two; f_of_int := B32.of_int; f_mul := B32.mul; f_div := B32.div |}.

(** ** Simulation information *)

(** A simulation word is an [unsigned]: 32 patterns. *)
Definition word_not (w : Z) : Z := Z.lxor w 4294967295.
Definition word_and (a b : Z) : Z := Z.land a b.

(** The number of ones among the 32 bits of a word. *)
Definition count_bits (w : Z) : Z :=
  fold_right (fun i n => (if Z.testbit w (Z.of_nat i) then 1 else 0) + n) 0 (seq 0 32).

(** Modelled from the spec: [Sim_UtilCountOnes] (simUtils.c) is not among
    the sources; it returns "the count of set bits across the buffer", the
    first [nSimWords] words of it. *)
Definition Sim_UtilCountOnes (pSimInfo : list Z) (nSimWords : Z) : Z :=
  fold_right (fun w n => count_bits w + n) 0 (take (Z.to_nat nSimWords) pSimInfo).

(** Modelled from the spec: [SIM_NUM_WORDS] (sim.h) is not among the
    sources; the word count is "ceil(patternCount / wordBitWidth)". *)
Definition SIM_NUM_WORDS (n : Z) : Z := (n + 31) / 32.

(** Modelled from the spec: [Sim_UtilSetRandom] (simUtils.c) is not among
    the sources; it "overwrites every word of buffer with an independently
    drawn pseudorandom value". The generator is the sequence of the words
    it draws. *)
Definition Sim_UtilSetRandom (rand : nat -> Z) (pos : nat) (nSimWords : Z) : list Z * nat :=
  (map (fun k => rand (pos + k)%nat mod 4294967296) (seq 0 (Z.to_nat nSimWords)),
   (pos + Z.to_nat nSimWords)%nat).

(** Modelled from the spec: [Sim_UtilSimulateNodeOne] (simUtils.c) is not
    among the sources; it writes the node's buffer as the "bitwise AND of
    two fanin words, each fanin word optionally bitwise-complemented per
    edge polarity". *)
Definition Sim_UtilSimulateNodeOne (pNode : Abc_Obj) (vSimInfo : list (list Z))
    : option (list (list Z)) :=
  match load vSimInfo (FaninId0 pNode), load vSimInfo (FaninId1 pNode) with
  | Some p1, Some p2 =>
      let f (c : bool) (w : Z) := if c then word_not w else w in
      store vSimInfo (Id pNode)
        (map (fun '(a, b) => word_and (f (FaninC0 pNode) a) (f (FaninC1 pNode) b))
             (zip p1 p2))
  | _, _ => None
  end.

(** ** Sim_ComputeSwitching (lines 321-327) *)

(** The expression of line 326,
    [(float)2.0 * nOnes / nTotal * (nTotal - nOnes) / nTotal]:
    the operators associate to the left and each [int] is converted. *)
Definition switching_expr {F} `{FloatOps F} (nOnes nTotal : Z) : F :=
  f_div (f_mul (f_div (f_mul f_two (f_of_int nOnes)) (f_of_int nTotal))
               (f_of_int (CInt.sub nTotal nOnes)))
        (f_of_int nTotal).

Definition Sim_ComputeSwitching {F} `{FloatOps F} (pSimInfo : list Z) (nSimWords : Z) : F :=
  let nTotal := CInt.mul 32 nSimWords in
  let nOnes := Sim_UtilCountOnes pSimInfo nSimWords in
  switching_expr nOnes nTotal.

(** The formula as the documentation writes it, on exact numbers:
    [2 p (1 - p)] with [p = nOnes / nTotal]. *)
Definition switching_formula (nOnes nTotal : Z) : Q :=
  let p := (inject_Z nOnes / inject_Z nTotal)%Q in
  (2 * p * (1 - p))%Q.

(** ** Sim_NtkComputeSwitching (lines 272-308) *)

Section Simulation.
Context {F : Type} `{FloatOps F}.
Variable f_zero : F.   (* the float of a zeroed word of [Vec_IntStart] *)

(** Lines 288-293. *)
Fixpoint simulate_cis (cis : list Abc_Obj) (nSimWords : Z) (rand : nat -> Z) (pos : nat)
    (vSimInfo : list (list Z)) (pSwitching : list F) : option (list (list Z) * list F) :=
  match cis with
  | [] => Some (vSimInfo, pSwitching)
  | pNode :: cis' =>
      let '(pSimInfo, pos') := Sim_UtilSetRandom rand pos nSimWords in
      match store vSimInfo (Id pNode) pSimInfo with
      | None => None
      | Some vSimInfo' =>
          match store pSwitching (Id pNode) (Sim_ComputeSwitching pSimInfo nSimWords) with
          | None => None
          | Some pSwitching' => simulate_cis cis' nSimWords rand pos' vSimInfo' pSwitching'
          end
      end
  end.

(** Lines 296-304. *)
Fixpoint simulate_nodes (vNodes : list Abc_Obj) (nSimWords : Z)
    (vSimInfo : list (list Z)) (pSwitching : list F) : option (list F) :=
  match vNodes with
  | [] => Some pSwitching
  | pNode :: vNodes' =>
      match Sim_UtilSimulateNodeOne pNode vSimInfo with
      | None => None
      | Some vSimInfo' =>
          match load vSimInfo' (Id pNode) with
          | None => None
          | Some pSimInfo =>
              match store pSwitching (Id pNode) (Sim_ComputeSwitching pSimInfo nSimWords) with
              | None => None
              | Some pSwitching' => simulate_nodes vNodes' nSimWords vSimInfo' pSwitching'
              end
          end
      end
  end.

(** [junk] is what the simulation information holds when it is
    allocated: [Sim_UtilInfoAlloc] is called with [fClean = 0]. [None]
    stands for an index outside its array. *)
Definition Sim_NtkComputeSwitching (pNtk : Abc_Ntk) (nPatterns : Z)
    (rand : nat -> Z) (junk : list (list Z)) : option (list F) :=
  let nSimWords := SIM_NUM_WORDS nPatterns in
  let vSimInfo := junk in
  let pSwitching := replicate (Z.to_nat (Abc_NtkObjNumMax pNtk)) f_zero in
  match simulate_cis (vCis pNtk) nSimWords rand 0 vSimInfo pSwitching with
  | None => None
  | Some (vSimInfo, pSwitching) =>
      let vNodes := Abc_AigDfs pNtk in
      simulate_nodes vNodes nSimWords vSimInfo pSwitching
  end.

End Simulation.

(** ** The lines of a template, as the documentation describes them *)

Definition header_text (pNtk : Abc_Ntk) : text :=
  lit "# Switching Activities Template File\n"
  ++ lit "# Format: ID [Switching Value Placeholder]\n"
  ++ lit "# CIs: " ++ dec (Abc_NtkCiNum pNtk) ++ lit "\n"
  ++ lit "# Nodes: " ++ dec (Abc_NtkObjNumMax pNtk) ++ lit "\n\n".

(** [kind <enumerationIndex>: ID=<identifier> <value>] and a line feed. *)
Definition record_line (kind : string) (index identifier : Z) (value : text) : text :=
  lit kind ++ lit " " ++ dec index ++ lit ": ID=" ++ dec identifier ++ lit " " ++ value ++ [LF].

Definition placeholder : text := lit ".5".

Definition ci_line (i : nat) (pNode : Abc_Obj) : text :=
  record_line "CI" (Z.of_nat i) (Id pNode - 1) placeholder.

Definition node_line (i : nat) (pNode : Abc_Obj) : text :=
  record_line "Node" (Z.of_nat i) (Id pNode - 1) placeholder.

(** ** The network of the end-to-end scenario

    Two combinational inputs (identifiers 1 and 2) and one internal node
    (identifier 3), the AND of the two; identifier 0 is the constant. *)
Module Scenario.

Definition ci (i : Z) : Abc_Obj :=
  {| Id := i; FaninId0 := 0; FaninId1 := 0; FaninC0 := false; FaninC1 := false |}.

Definition and_node : Abc_Obj :=
  {| Id := 3; FaninId0 := 1; FaninId1 := 2; FaninC0 := false; FaninC1 := false |}.

Definition ntk : Abc_Ntk :=
  {| pName := Some "net"%string; vCis := [ci 1; ci 2];
     Abc_NtkObjNumMax := 4; Abc_AigDfs := [and_node] |}.

(** A machine on which every allocation and every [fopen] succeeds, and
    [nNodes] is [n]. *)
Definition machine_with (n : Z) : machine :=
  {| malloc_ok := fun _ => true; fopen_w_ok := fun _ => true; vec_address := n |}.

Definition disk (name : string) (contents : text) : sys Q :=
  {| files := {[ name := contents ]}; trace := [] |}.

(** The template of the network with the value of the node edited. *)
Definition edited : text :=
  header_text ntk
  ++ record_line "CI" 0 0 (lit "0.5")
  ++ record_line "CI" 1 1 (lit "0.5")
  ++ record_line "Node" 0 2 (lit "0.75").

Definition load_with (n : Z) (contents : text) : outcome Q :=
  fst (Sim_NtkLoadSwitching (machine_with n) ntk (Some "net.switch"%string)
         (disk "net.switch" contents)).

(** A CI record with index [index], padded with blanks: 255 characters
    with the index 0, 256 with the index 10. *)
Definition padded (index : text) : text :=
  lit "CI" ++ lit " " ++ index ++ (lit ": ID=0 0.5" ++ repeat " "%char 240 ++ [LF]).

Definition rest_of_file : list text :=
  [record_line "CI" 1 1 (lit "0.5"); record_line "Node" 0 2 (lit "0.75"); [LF]].

End Scenario.

(** ** What the loader expects of a file *)

Section Expectations.
Context {F : Type} `{FloatScan F}.

(** The two assignments that the loops ask of [sscanf]. *)
Definition two_items (r : list (arg F)) : bool :=
  match r with
  | [AInt _; AFloat _] => true
  | _ => false
  end.

Definition is_ci_line (l : text) : bool := two_items (sscanf l "CI %*d: ID=%d %f").
Definition is_node_line (l : text) : bool := two_items (sscanf l " Node %*d : ID = %d %f ").

(** The lines from the first one that [skip_header] stops at (or the
    last line, when all of them are skipped). *)
Definition records (contents : text) : list text :=
  let '(buf, rest) := skip_header None (chunks 256 contents) in
  match buf with
  | Some b => b :: rest
  | None => rest
  end.

(** Every record that the network calls for is there and matches: first
    one line per combinational input, then one per internal node. *)
Definition complete_file (pNtk : Abc_Ntk) (contents : text) : Prop :=
  let r := records contents in
  let nCis := length (vCis pNtk) in
  let nNodes := length (Abc_AigDfs pNtk) in
  (nCis + nNodes <= length r)%nat
  /\ Forall (fun l => is_ci_line l = true) (take nCis r)
  /\ Forall (fun l => is_node_line l = true) (take nNodes (drop nCis r)).

(** Both arrays of the loader have been passed to [free]. *)
Definition released (l : list (event F)) : Prop :=
  EFree blk_Ci_Switching ∈ l /\ EFree blk_Node_Switching ∈ l.

End Expectations.

(** ** Lines that differ in their index field only *)

(** The text of an integer field: [scan_int] takes all of it. *)
Definition int_text (s : text) : bool :=
  match scan_int s with
  | Some (_, []) => true
  | _ => false
  end.

Definition all_space (s : text) : bool := forallb isspace s.

(** What follows an integer field does not go on with a digit. *)
Definition no_digit_ahead (s : text) : bool :=
  match s with
  | c :: _ => negb (isdigit c)
  | [] => true
  end.

(** Two lines that are the same, or the same record with another
    <enumerationIndex>: [CI <index>...] or [Node <index>...], with the
    white space that the formats allow around the words. *)
Inductive index_variant : text -> text -> Prop :=
  | iv_same l : index_variant l l
  | iv_ci ws i1 i2 post :
      all_space ws = true -> int_text i1 = true -> int_text i2 = true ->
      no_digit_ahead post = true ->
      index_variant (lit "CI" ++ ws ++ i1 ++ post) (lit "CI" ++ ws ++ i2 ++ post)
  | iv_node ws1 ws2 i1 i2 post :
      all_space ws1 = true -> all_space ws2 = true ->
      int_text i1 = true -> int_text i2 = true ->
      no_digit_ahead post = true ->
      index_variant (ws1 ++ lit "Node" ++ ws2 ++ i1 ++ post)
                    (ws1 ++ lit "Node" ++ ws2 ++ i2 ++ post).

(** A text cut into lines that [fgets] delivers whole into a buffer of
    [size] characters: no line is empty or longer than [size - 1], a line
    feed ends every line but possibly the last, and occurs nowhere else. *)
Fixpoint fits_buffer (size : nat) (ls : list text) : Prop :=
  match ls with
  | [] => True
  | l :: ls' =>
      (0 < length l <= size - 1)%nat
      /\ (exists body, (l = body ++ [LF] \/ (l = body /\ ls' = [])) /\ LF ∉ body)
      /\ fits_buffer size ls'
  end.

(* ================================================================== *)
(** ** Vocabulary of the statements about the loader *)

Section LoaderVocabulary.
Context {F : Type} `{FloatScan F}.

(** The lines that a frame has still to offer: the one in the buffer and
    those that [fgets] will deliver. *)
Definition pending (fr : frame F) : list text :=
  match buffer fr with
  | Some b => b :: pFile fr
  | None => pFile fr
  end.

(** What a round of a reading loop that falls through has done: it
    matched the line of the buffer, and either took the next line or,
    at the end of the file, kept the old one because the index had
    reached the limit. *)
Inductive advanced (P : text -> bool) (lim i : Z) (fr fr' : frame F) : Prop :=
  | adv_fresh b l rest :
      buffer fr = Some b -> P b = true -> pFile fr = l :: rest ->
      buffer fr' = Some l -> pFile fr' = rest ->
      advanced P lim i fr fr'
  | adv_stale b :
      buffer fr = Some b -> P b = true -> pFile fr = [] ->
      buffer fr' = Some b -> pFile fr' = [] ->
      (i <? CInt.sub lim 1) = false ->
      advanced P lim i fr fr'.

(** Where [n >= 1] rounds that all fall through leave the frame. *)
Inductive after_rounds (P : text -> bool) (lim i : Z) (n : nat) (fr fr' : frame F) : Prop :=
  | rounds_fresh :
      (n < length (pending fr))%nat ->
      buffer fr' <> None ->
      pending fr' = drop n (pending fr) ->
      after_rounds P lim i n fr fr'
  | rounds_stale b :
      (1 <= length (pending fr) <= n)%nat ->
      last (pending fr) = Some b ->
      buffer fr' = Some b -> pFile fr' = [] ->
      (i + Z.of_nat (length (pending fr)) - 1 <? CInt.sub lim 1) = false ->
      after_rounds P lim i n fr fr'.

(** Leaving early never hands out a vector. *)
Definition no_vector (o : outcome F) : Prop := forall v, o <> Returned (Some v).

(** Two lines that the loader cannot tell apart: it looks at the first
    character (to skip the header) and at what the two formats assign. *)
Definition line_equiv (l1 l2 : text) : Prop :=
  head l1 = head l2
  /\ sscanf (F:=F) l1 "CI %*d: ID=%d %f" = sscanf l2 "CI %*d: ID=%d %f"
  /\ sscanf (F:=F) l1 " Node %*d : ID = %d %f " = sscanf l2 " Node %*d : ID = %d %f ".

(** Two frames that the loader cannot tell apart. *)
Definition frame_equiv (fr1 fr2 : frame F) : Prop :=
  option_Forall2 line_equiv (buffer fr1) (buffer fr2)
  /\ Forall2 line_equiv (pFile fr1) (pFile fr2)
  /\ Ci_Switching fr1 = Ci_Switching fr2
  /\ Node_Switching fr1 = Node_Switching fr2.

(** Two runs that end the same way, or go on in related states. *)
Definition flow_equiv {A} (R : A -> A -> Prop) (m1 m2 : flow F A) : Prop :=
  match m1, m2 with
  | Next a1, Next a2 => R a1 a2
  | Leave o1 _, Leave o2 _ => o1 = o2
  | _, _ => False
  end.

(** What [load_from] hands back, whatever it logs. *)
Definition result_of (m : flow F (list (cell F) * list (event F))) : outcome F :=
  match m with
  | Next (p, _) => Returned (Some p)
  | Leave o _ => o
  end.

End LoaderVocabulary.

(** ** Bounds of the binary32 computation *)

(** The factors by which the seven roundings of line 326 (three
    conversions, two products, two quotients) can move the result. *)
Definition c_lo : Q :=
  (1 * (1 - B32.u) * (1 - B32.u) / (1 + B32.u) * (1 - B32.u) * (1 - B32.u) * (1 - B32.u)
   / (1 + B32.u) * (1 - B32.u))%Q.
Definition c_hi : Q :=
  (1 * (1 + B32.u) * (1 + B32.u) / (1 - B32.u) * (1 + B32.u) * (1 + B32.u) * (1 + B32.u)
   / (1 - B32.u) * (1 + B32.u))%Q.

(** One part in [2^19], which covers both. *)
Definition eps : Q := 1 # 524288.

(** Two words with two ones. *)
Definition sample_buffer : list Z := [5; 0].

(** Three words with a single one: [nOnes = 1], [nTotal = 96]. *)
Definition skewed_buffer : list Z := [1; 0; 0].

(** 446 words, 7137 ones among 14272 patterns: the first 223 words full, a
    single one in the next. *)
Definition half_buffer : list Z := replicate 223 4294967295 ++ [1] ++ replicate 222 0.

(** ** Vocabulary of the further properties *)

(** *** The events of a run *)

Definition block_tag (b : block) : nat :=
  match b with
  | blk_fileName => 0 | blk_vNodes => 1 | blk_nNodes => 2
  | blk_Ci_Switching => 3 | blk_Node_Switching => 4 | blk_vSwitching => 5
  end.

Definition same_block (a b : block) : bool := Nat.eqb (block_tag a) (block_tag b).

Section Counting.
Context {F : Type}.

Definition is_alloc (b : block) (e : event F) : bool :=
  match e with
  | EAlloc b' => same_block b b'
  | _ => false
  end.

Definition is_free (b : block) (e : event F) : bool :=
  match e with
  | EFree b' => same_block b b'
  | _ => false
  end.

Definition is_fopen (e : event F) : bool :=
  match e with
  | EFopen _ => true
  | _ => false
  end.

Definition is_fclose (e : event F) : bool :=
  match e with
  | EFclose => true
  | _ => false
  end.

(** How many events of a run satisfy [p]. *)
Definition count (p : event F -> bool) (l : list (event F)) : nat :=
  length (List.filter p l).

(** Every block that the events allocate is freed as often, and every
    stream that they open is closed. *)
Definition balanced (l : list (event F)) : Prop :=
  (forall b, count (is_alloc b) l = count (is_free b) l)
  /\ count is_fopen l = count is_fclose l.

End Counting.

(** *** The lines of a file *)

(** The header, line by line: [fprintf] of line 74 ends it with an empty
    line. *)
Definition header_lines (pNtk : Abc_Ntk) : list text :=
  [lit "# Switching Activities Template File\n";
   lit "# Format: ID [Switching Value Placeholder]\n";
   lit "# CIs: " ++ dec (Abc_NtkCiNum pNtk) ++ [LF];
   lit "# Nodes: " ++ dec (Abc_NtkObjNumMax pNtk) ++ [LF];
   [LF]].

Definition template_lines (pNtk : Abc_Ntk) : list text :=
  header_lines pNtk ++ imap ci_line (vCis pNtk) ++ imap node_line (Abc_AigDfs pNtk).

(** A line with its line feed that fits a buffer of [size] characters. *)
Definition whole_line (size : nat) (l : text) : Prop :=
  exists body, l = body ++ [LF] /\ (LF ∉ body) /\ (length body + 2 <= size)%nat.

(** A line that the loop of lines 154-158 skips. *)
Definition header_line (l : text) : bool :=
  match l with
  | c :: _ => Ascii.eqb c "#" || Ascii.eqb c LF
  | [] => false
  end.

Section RunVocabulary.
Context {F : Type} `{FloatScan F}.

Definition is_print (e : event F) : bool :=
  match e with
  | EPrint _ _ _ => true
  | _ => false
  end.

(** The events of a run without what it prints. *)
Definition resources (l : list (event F)) : list (event F) :=
  List.filter (fun e => negb (is_print e)) l.

(** The two orders in which a run that had both arrays ends them. *)
Definition arrays_read_failed : list (event F) :=
  [EAlloc blk_Ci_Switching; EAlloc blk_Node_Switching;
   EFree blk_Ci_Switching; EFree blk_Node_Switching; EFclose].

Definition arrays_no_vector : list (event F) :=
  [EAlloc blk_Ci_Switching; EAlloc blk_Node_Switching; EFclose;
   EFree blk_Ci_Switching; EFree blk_Node_Switching].

Definition arrays_loaded : list (event F) :=
  [EAlloc blk_Ci_Switching; EAlloc blk_Node_Switching; EFclose;
   EAlloc blk_vSwitching; EAlloc blk_vNodes; EFree blk_vNodes;
   EFree blk_Ci_Switching; EFree blk_Node_Switching].

(** The line [l] is a record to the format [fmt]: [sscanf] assigns the
    identifier and the value of [r]. *)
Definition scans_as (fmt : string) (l : text) (r : Z * F) : Prop :=
  sscanf l fmt = [AInt (fst r); AFloat (snd r)].

(** The identifier of the line [l], when it is a record of either kind,
    is an index of the array that the loop stores its value in. *)
Definition ids_in_range (nCis nNodes : Z) (l : text) : Prop :=
  (forall id v, scans_as "CI %*d: ID=%d %f" l (id, v) -> 0 <= id < nCis)
  /\ (forall id v, scans_as " Node %*d : ID = %d %f " l (id, v) -> 0 <= id < nNodes).

(** A frame from which a round of either loop runs without undefined
    behaviour: [buffer] has been filled, and no line that is left makes
    the loop store outside its array. *)
Definition steady (nCis nNodes : Z) (fr : frame F) : Prop :=
  buffer fr <> None
  /\ Forall (ids_in_range nCis nNodes) (pending fr)
  /\ Z.of_nat (length (Ci_Switching fr)) = nCis
  /\ Z.of_nat (length (Node_Switching fr)) = nNodes.

(** An array of [n] cells after the assignments [a[id] = value] of the
    records, in their order. *)
Definition fill (n : nat) (recs : list (Z * F)) : list (cell F) :=
  foldl (fun a r => <[Z.to_nat (fst r) := Some (snd r)]> a) (replicate n None) recs.

End RunVocabulary.

(** The file of the scenario, line by line: its template with the values
    edited, and an empty line after the last record. *)
Definition accepted_lines : list text :=
  header_lines Scenario.ntk
  ++ [record_line "CI" 0 0 (lit "0.5"); record_line "CI" 1 1 (lit "0.5")]
  ++ [record_line "Node" 0 2 (lit "0.75")] ++ [[LF]].

(** *** The simulation *)

Definition id_in (n : Z) (o : Abc_Obj) : Prop := 0 <= Id o < n.
Definition fanins_in (n : Z) (o : Abc_Obj) : Prop :=
  0 <= FaninId0 o < n /\ 0 <= FaninId1 o < n.

Definition ci_words (rand : nat -> Z) (nSimWords : Z) (i : nat) : list Z :=
  fst (Sim_UtilSetRandom rand (i * Z.to_nat nSimWords) nSimWords).

Fixpoint fanins_written (written : list Z) (vNodes : list Abc_Obj) : Prop :=
  match vNodes with
  | [] => True
  | o :: vNodes' =>
      FaninId0 o ∈ written /\ FaninId1 o ∈ written
      /\ fanins_written (Id o :: written) vNodes'
  end.

(** Two arrays of simulation words that hold the same at the identifiers
    of [written]. *)
Definition agree (written : list Z) (vs1 vs2 : list (list Z)) : Prop :=
  length vs1 = length vs2 /\ forall id, id ∈ written -> load vs1 id = load vs2 id.

(** The words that [Sim_UtilSimulateNodeOne] writes for a node whose
    fanins hold [p0] and [p1]. *)
Definition fanin_and (pNode : Abc_Obj) (p0 p1 : list Z) : list Z :=
  map (fun '(a, b) =>
         word_and (if FaninC0 pNode then word_not a else a)
                  (if FaninC1 pNode then word_not b else b))
      (zip p0 p1).

(** ** Tactics *)

(** A comparison of two rationals that evaluation settles. *)
Local Ltac qcompute := first [apply Qle_bool_imp_le; vm_compute; reflexivity
                      | apply Qlt_alt; vm_compute; reflexivity ].

(** The shape of a line of a file whose lines fit the buffer. *)
Local Ltac line_shape :=
  match goal with
  | |- exists body, (?l = _ \/ _) /\ _ =>
      exists (removelast l); split;
      [left; vm_compute; reflexivity
      |apply (bool_decide_unpack _); vm_compute; reflexivity]
  end.

(** * Properties *)
(* ================================================================== *)

(** ** The writer *)

Lemma wrap_small z : CInt.INT_MIN <= z <= CInt.INT_MAX -> CInt.wrap z = z.
Proof.
  unfold CInt.wrap, CInt.INT_MIN, CInt.INT_MAX. intros Hz.
  rewrite Z.mod_small; lia.
Qed.

Lemma fprintf_ci out i x :
  fprintf out "CI %d: ID=%d .5\n" [i; x] = out ++ record_line "CI" i x placeholder.
Proof. reflexivity. Qed.

Lemma fprintf_node out i x :
  fprintf out "Node %d: ID=%d .5\n" [i; x] = out ++ record_line "Node" i x placeholder.
Proof. reflexivity. Qed.

Lemma write_cis_app cis : forall i out,
  Forall (fun o => 0 <= Id o <= CInt.INT_MAX) cis ->
  write_cis cis (Z.of_nat i) out
  = out ++ concat (imap (fun j o => ci_line (i + j) o) cis).
Proof.
  induction cis as [|o cis IH]; intros i out Hv; cbn [write_cis imap concat].
  - now rewrite app_nil_r.
  - inversion Hv as [|? ? Ho Hv']; subst.
    rewrite fprintf_ci.
    replace (Z.of_nat i + 1) with (Z.of_nat (S i)) by lia.
    rewrite IH by assumption. rewrite <- app_assoc. f_equal.
    unfold CInt.sub. rewrite wrap_small
      by (unfold CInt.INT_MIN, CInt.INT_MAX in *; lia).
    unfold ci_line. rewrite Nat.add_0_r. f_equal. f_equal.
    apply imap_ext. intros j y _. cbn [compose]. unfold ci_line.
    now replace (S i + j)%nat with (i + S j)%nat by lia.
Qed.

Lemma write_nodes_app vNodes : forall i out,
  Forall (fun o => 0 <= Id o <= CInt.INT_MAX) vNodes ->
  write_nodes vNodes (Z.of_nat i) out
  = out ++ concat (imap (fun j o => node_line (i + j) o) vNodes).
Proof.
  induction vNodes as [|o l IH]; intros i out Hv; cbn [write_nodes imap concat].
  - now rewrite app_nil_r.
  - inversion Hv as [|? ? Ho Hv']; subst.
    rewrite fprintf_node.
    replace (Z.of_nat i + 1) with (Z.of_nat (S i)) by lia.
    rewrite IH by assumption. rewrite <- app_assoc. f_equal.
    unfold CInt.sub. rewrite wrap_small
      by (unfold CInt.INT_MIN, CInt.INT_MAX in *; lia).
    unfold node_line. rewrite Nat.add_0_r. f_equal. f_equal.
    apply imap_ext. intros j y _. cbn [compose]. unfold node_line.
    now replace (S i + j)%nat with (i + S j)%nat by lia.
Qed.

Lemma valid_ids_int pNtk l :
  Abc_NtkObjNumMax pNtk <= CInt.INT_MAX ->
  Forall (fun o => 0 <= Id o < Abc_NtkObjNumMax pNtk) l ->
  Forall (fun o => 0 <= Id o <= CInt.INT_MAX) l.
Proof.
  intros Hm Hl. eapply Forall_impl; [exact Hl|]. intros o Ho. cbn in Ho. lia.
Qed.

Lemma template_text_lines pNtk :
  valid_ntk pNtk ->
  template_text pNtk
  = header_text pNtk ++ concat (imap ci_line (vCis pNtk))
      ++ concat (imap node_line (Abc_AigDfs pNtk)).
Proof.
  intros [Hm Hc Hd _ _]. unfold template_text.
  rewrite (write_nodes_app _ 0) by eauto using valid_ids_int.
  rewrite (write_cis_app _ 0) by eauto using valid_ids_int.
  rewrite <- app_assoc. f_equal.
  unfold fprintf, header_text. cbn -[dec Abc_NtkCiNum].
  rewrite <- !app_assoc. reflexivity.
Qed.

Lemma scenario_valid : valid_ntk Scenario.ntk.
Proof.
  split; cbn.
  - unfold CInt.INT_MAX. lia.
  - repeat constructor; cbn; lia.
  - repeat constructor; cbn; lia.
  - compute_done.
  - repeat constructor; cbn; lia.
Qed.

(** C5: for a valid network, when the name buffer is allocated and the
    file is opened, the writer returns 0 and the file it leaves is the
    header, then one line [CI <i>: ID=<Id - 1> .5] per combinational input
    in enumeration order, then one line [Node <i>: ID=<Id - 1> .5] per
    node of the traversal in its order; [.5] scans as the value 1/2. *)
Theorem writer_emits_template {F} (mc : machine) (pNtk : Abc_Ntk) (base : string) (s : sys F) :
  valid_ntk pNtk ->
  malloc_ok mc blk_fileName = true ->
  fopen_w_ok mc (base +:+ ".switch")%string = true ->
  fst (Sim_NtkWriteSwitchingTemplate mc (Some pNtk) (Some base) s) = 0
  /\ files (snd (Sim_NtkWriteSwitchingTemplate mc (Some pNtk) (Some base) s))
       !! (base +:+ ".switch")%string
     = Some (header_text pNtk
             ++ concat (imap ci_line (vCis pNtk))
             ++ concat (imap node_line (Abc_AigDfs pNtk)))
  /\ strtof (placeholder ++ [LF]) = Some ((1 # 2)%Q, [LF]).
Proof.
  intros Hv Hm Ho. unfold Sim_NtkWriteSwitchingTemplate.
  rewrite Hm, Ho. cbn [negb fst snd files].
  split; [reflexivity|]. split; [|reflexivity].
  rewrite lookup_insert_eq. now rewrite template_text_lines.
Qed.

Lemma writer_emits_template_witness :
  valid_ntk Scenario.ntk
  /\ files (snd (Sim_NtkWriteSwitchingTemplate (Scenario.machine_with 4)
                   (Some Scenario.ntk) (Some "net"%string) (Scenario.disk "x" [])))
       !! "net.switch"%string
     = Some (header_text Scenario.ntk
             ++ concat (imap ci_line (vCis Scenario.ntk))
             ++ concat (imap node_line (Abc_AigDfs Scenario.ntk))).
Proof.
  split; [exact scenario_valid|].
  apply (writer_emits_template (Scenario.machine_with 4) Scenario.ntk "net"
           (Scenario.disk "x" []) scenario_valid); reflexivity.
Defined.

(** ** The loader without a file name *)

(** C6: with a NULL file name the loader reports no error outcome of its
    own: it prints the warning, calls the writer on the network and its
    name, and returns NULL; when the writer can work, the template of the
    network is then on the disk under [<pName>.switch]. *)
Theorem load_without_name {F} `{FloatScan F} (mc : machine) (pNtk : Abc_Ntk) (s : sys F) :
  Sim_NtkLoadSwitching mc pNtk None s
  = (Returned None,
     snd (Sim_NtkWriteSwitchingTemplate mc (Some pNtk) (pName pNtk)
            (emit [EPrint Stderr
                     "Warning: Invalid switching file name or not provided >> Generating a template now\n"
                     []]
               (emit [EAlloc blk_vNodes; EAlloc blk_nNodes] s))))
  /\ (forall base,
        pName pNtk = Some base ->
        malloc_ok mc blk_fileName = true ->
        fopen_w_ok mc (base +:+ ".switch")%string = true ->
        files (snd (Sim_NtkLoadSwitching mc pNtk None s)) !! (base +:+ ".switch")%string
        = Some (template_text pNtk)).
Proof.
  unfold Sim_NtkLoadSwitching.
  destruct (Sim_NtkWriteSwitchingTemplate mc (Some pNtk) (pName pNtk) _) as [r s'] eqn:E.
  split; [reflexivity|].
  intros base Hn Hm Ho. cbn [snd].
  rewrite Hn in E. unfold Sim_NtkWriteSwitchingTemplate in E.
  rewrite Hm, Ho in E. cbn [negb] in E. injection E as _ <-. cbn [files].
  apply lookup_insert_eq.
Qed.

Lemma load_without_name_witness :
  files (snd (Sim_NtkLoadSwitching (Scenario.machine_with 4) Scenario.ntk None
                (Scenario.disk "x" [])))
    !! "net.switch"%string
  = Some (template_text Scenario.ntk).
Proof.
  apply (proj2 (load_without_name (Scenario.machine_with 4) Scenario.ntk
                  (Scenario.disk "x" [])) "net"%string); reflexivity.
Defined.

(** ** The reading loops of the loader *)

Section ReadingLoops.
Context {F : Type} `{FloatScan F}.

Lemma read_ci_next nCis i fr fr' :
  read_ci nCis i fr = Next fr' -> advanced is_ci_line nCis i fr fr'.
Proof.
  unfold read_ci. destruct (buffer fr) as [b|] eqn:Eb; [|discriminate].
  destruct (sscanf b _) as [|[id|?] [|[?|v] [|? ?]]] eqn:Es; try discriminate.
  cbn [say Ci_Switching log buffer pFile Node_Switching].
  destruct (store _ id _) as [a|]; [|discriminate].
  unfold read_line. cbn [pFile buffer].
  assert (Hp : is_ci_line b = true) by (unfold is_ci_line; now rewrite Es).
  destruct (pFile fr) as [|l rest] eqn:Ef.
  - destruct (i <? CInt.sub nCis 1) eqn:Ei; [discriminate|].
    intros [= <-]. eapply adv_stale; cbn; eauto.
  - intros [= <-]. eapply adv_fresh; cbn; eauto.
Qed.

Lemma read_node_next nNodes i fr fr' :
  read_node nNodes i fr = Next fr' -> advanced is_node_line nNodes i fr fr'.
Proof.
  unfold read_node. destruct (buffer fr) as [b|] eqn:Eb; [|discriminate].
  destruct (sscanf b _) as [|[id|?] [|[?|v] [|? ?]]] eqn:Es; try discriminate.
  cbn [say Ci_Switching log buffer pFile Node_Switching].
  destruct (store _ id _) as [a|]; [|discriminate].
  unfold read_line. cbn [pFile buffer].
  assert (Hp : is_node_line b = true) by (unfold is_node_line; now rewrite Es).
  destruct (pFile fr) as [|l rest] eqn:Ef.
  - destruct (i <? CInt.sub nNodes 1) eqn:Ei; [discriminate|].
    intros [= <-]. eapply adv_stale; cbn; eauto.
  - intros [= <-]. eapply adv_fresh; cbn; eauto.
Qed.

Section Loop.
Variable body : Z -> frame F -> flow F (frame F).
Variable P : text -> bool.
Variable lim : Z.
Hypothesis body_next : forall i fr fr', body i fr = Next fr' -> advanced P lim i fr fr'.

Lemma for_loop_next n : forall i fr fr',
  for_loop n i body fr = Next fr' ->
  (0 < n)%nat ->
  Forall (fun l => P l = true) (take n (pending fr))
  /\ after_rounds P lim i n fr fr'.
Proof.
  induction n as [|n IH]; intros i fr fr' Hrun Hn; [lia|].
  cbn [for_loop] in Hrun.
  destruct (body i fr) as [fr1|] eqn:Hb; [|discriminate].
  cbn [bind] in Hrun. apply body_next in Hb.
  destruct n as [|n'].
  - cbn [for_loop] in Hrun. injection Hrun as <-.
    destruct Hb as [b l rest Eb Pb Ef Eb' Ef' | b Eb Pb Ef Eb' Ef' Ei];
      unfold pending; rewrite Eb, Ef.
    + split; [repeat constructor; exact Pb|].
      apply rounds_fresh; unfold pending; rewrite ?Eb, ?Ef, ?Eb', ?Ef'; cbn; try lia; congruence.
    + split; [repeat constructor; exact Pb|].
      eapply rounds_stale with (b := b); unfold pending; rewrite ?Eb, ?Ef; cbn; auto; try lia.
      match goal with |- (?x <? _) = false => now replace x with i by lia end.
  - destruct (IH (i + 1) fr1 fr' Hrun ltac:(lia)) as [HP Hr].
    destruct Hb as [b l rest Eb Pb Ef Eb' Ef' | b Eb Pb Ef Eb' Ef' Ei].
    + assert (Hp1 : pending fr1 = l :: rest) by (unfold pending; now rewrite Eb', Ef').
      assert (Hp0 : pending fr = b :: l :: rest) by (unfold pending; now rewrite Eb, Ef).
      rewrite Hp1 in HP. rewrite Hp0. split.
      * cbn [take]. constructor; [exact Pb|exact HP].
      * destruct Hr as [Hlt Hne Hd | b' Hlen Hlast Hb' Hf' Hi]; rewrite Hp1 in *.
        -- apply rounds_fresh; rewrite ?Hp0; cbn [length drop] in *; try lia; auto.
        -- eapply rounds_stale with (b := b'); rewrite ?Hp0; cbn [length] in *; auto; try lia.
           replace (i + Z.of_nat (S (S (length rest))) - 1)
             with (i + 1 + Z.of_nat (S (length rest)) - 1) by lia.
           exact Hi.
    + assert (Hp1 : pending fr1 = [b]) by (unfold pending; now rewrite Eb', Ef').
      assert (Hp0 : pending fr = [b]) by (unfold pending; now rewrite Eb, Ef).
      rewrite Hp1 in HP. rewrite Hp0. split.
      * cbn [take]. repeat constructor. exact Pb.
      * destruct Hr as [Hlt Hne Hd | b' Hlen Hlast Hb' Hf' Hi]; rewrite Hp1 in *.
        -- cbn [length] in Hlt. lia.
        -- eapply rounds_stale with (b := b'); rewrite ?Hp0; cbn [length] in *; auto; try lia.
           match goal with |- (?x <? _) = false => now replace x with i by lia end.
Qed.

End Loop.

End ReadingLoops.

(** ** What a returned vector tells about the file *)

Lemma wrap_range z : CInt.INT_MIN <= CInt.wrap z <= CInt.INT_MAX.
Proof.
  unfold CInt.wrap, CInt.INT_MIN, CInt.INT_MAX.
  pose proof (Z.mod_pos_bound (z + 2147483648) 4294967296 ltac:(lia)). lia.
Qed.

Lemma store_Some {A} (a a' : list A) i v :
  store a i v = Some a' -> length a' = length a /\ 0 <= i < Z.of_nat (length a).
Proof.
  unfold store. destruct (0 <=? i) eqn:E1; [|discriminate].
  destruct (i <? Z.of_nat (length a)) eqn:E2; [|discriminate].
  cbn [andb]. intros [= <-]. rewrite length_insert. lia.
Qed.

(** Distinct identifiers below a bound are no more than the bound. *)
Lemma bounded_ids_length (l : list Abc_Obj) (N : nat) :
  NoDup (Id <$> l) ->
  Forall (fun o => 0 <= Id o < Z.of_nat N) l ->
  (length l <= N)%nat.
Proof.
  intros Hnd Hb.
  assert (Hnd' : NoDup (Z.to_nat <$> (Id <$> l))).
  { apply NoDup_fmap_2_strong; [|exact Hnd].
    intros x y Hx Hy Hxy.
    apply list_elem_of_fmap in Hx as (ox & -> & Hox), Hy as (oy & -> & Hoy).
    rewrite Forall_forall in Hb.
    pose proof (Hb _ Hox). pose proof (Hb _ Hoy). lia. }
  assert (Hsub : Z.to_nat <$> (Id <$> l) ⊆+ seq 0 N).
  { apply NoDup_submseteq; [exact Hnd'|].
    intros x Hx. apply list_elem_of_fmap in Hx as (z & -> & Hz).
    apply list_elem_of_fmap in Hz as (o & -> & Ho).
    rewrite Forall_forall in Hb. pose proof (Hb _ Ho).
    apply elem_of_seq. lia. }
  apply submseteq_length in Hsub.
  rewrite !length_fmap, length_seq in Hsub. exact Hsub.
Qed.

Section LoaderFacts.
Context {F : Type} `{FloatScan F}.
Variable mc : machine.

Lemma ci_format :
  parse_format (lit "CI %*d: ID=%d %f")
  = [DChar "C"; DChar "I"; DSpace; DInt false; DChar ":"; DSpace;
     DChar "I"; DChar "D"; DChar "="; DInt true; DSpace; DFloat].
Proof. reflexivity. Qed.

Lemma node_format :
  parse_format (lit " Node %*d : ID = %d %f ")
  = [DSpace; DChar "N"; DChar "o"; DChar "d"; DChar "e"; DSpace; DInt false;
     DSpace; DChar ":"; DSpace; DChar "I"; DChar "D"; DSpace; DChar "=";
     DSpace; DInt true; DSpace; DFloat; DSpace].
Proof. reflexivity. Qed.

(** A line cannot be both: the first format wants a [C] first, the
    second an [N] after white space. *)
Lemma ci_line_not_node b : is_ci_line b = true -> is_node_line b = false.
Proof.
  unfold is_ci_line, is_node_line, sscanf. rewrite ci_format, node_format.
  destruct (c_str b) as [|a r]; [discriminate|].
  cbn [run_format]. destruct (Ascii.eqb a "C") eqn:E; [|discriminate].
  apply Ascii.eqb_eq in E. subst a. reflexivity.
Qed.

Lemma assign_cis_next cis : forall i (Ci p p' : list (cell F)),
  assign_cis cis i Ci p = Next p' -> length p' = length p.
Proof.
  induction cis as [|o cis IH]; intros i Ci p p'; cbn [assign_cis].
  - now intros [= <-].
  - destruct (load Ci i) as [v|]; [|discriminate].
    destruct (store p (Id o) v) as [p1|] eqn:Es; [|discriminate].
    intros Hr. apply IH in Hr. apply store_Some in Es. lia.
Qed.

Lemma assign_cis_leave cis : forall i (Ci p : list (cell F)) o l,
  assign_cis cis i Ci p = @Leave F _ o l -> exists f, o = Faulted f.
Proof.
  induction cis as [|c cis IH]; intros i Ci p o l; cbn [assign_cis]; [discriminate|].
  destruct (load Ci i) as [v|]; [|intros [= <- _]; eauto].
  destruct (store p (Id c) v) as [p1|]; [|intros [= <- _]; eauto].
  apply IH.
Qed.

Lemma assign_nodes_next vNodes : forall (Node p : list (cell F)) l p' l',
  assign_nodes vNodes Node p l = Next (p', l') ->
  length p' = length p
  /\ Forall (fun o => 0 <= Id o < Z.of_nat (length p)) vNodes.
Proof.
  induction vNodes as [|o vs IH]; intros Node p l p' l'; cbn [assign_nodes].
  - intros [= <- _]. split; [reflexivity|constructor].
  - destruct (load Node (Id o)) as [v|]; [|discriminate].
    destruct (store p (Id o) v) as [p1|] eqn:Es; [|discriminate].
    intros Hr. apply IH in Hr as [Hl Hf]. apply store_Some in Es as [Hl1 Hi].
    split; [lia|]. constructor; [exact Hi|]. now rewrite Hl1 in Hf.
Qed.

Lemma assign_nodes_leave vNodes : forall (Node p : list (cell F)) l o l',
  assign_nodes vNodes Node p l = @Leave F _ o l' -> exists f, o = Faulted f.
Proof.
  induction vNodes as [|c vs IH]; intros Node p l o l'; cbn [assign_nodes]; [discriminate|].
  destruct (load Node (Id c)) as [v|]; [|intros [= <- _]; eauto].
  destruct (store p (Id c) v) as [p1|]; [|intros [= <- _]; eauto].
  apply IH.
Qed.

End LoaderFacts.

Section Completeness.
Context {F : Type} `{FloatScan F}.
Variable mc : machine.

Lemma released_bail_out (l : list (event F)) e : released (l ++ e :: bail_out).
Proof.
  unfold released, bail_out. split; apply elem_of_app; right;
    rewrite !elem_of_cons; auto.
Qed.

Lemma read_ci_leave nCis i fr l :
  read_ci nCis i fr = Leave (Returned None) l -> released l.
Proof.
  unfold read_ci. destruct (buffer fr) as [b|]; [|discriminate].
  destruct (sscanf b _) as [|[id|?] [|[?|v] [|? ?]]];
    try (intros [= <-]; apply released_bail_out).
  destruct (store _ id _) as [a|]; [|discriminate].
  destruct (read_line _); [discriminate|].
  destruct (i <? _); [|discriminate].
  intros [= <-]. apply released_bail_out.
Qed.

Lemma read_node_leave nNodes i fr l :
  read_node nNodes i fr = Leave (Returned None) l -> released l.
Proof.
  unfold read_node. destruct (buffer fr) as [b|]; [|discriminate].
  destruct (sscanf b _) as [|[id|?] [|[?|v] [|? ?]]];
    try (intros [= <-]; apply released_bail_out).
  destruct (store _ id _) as [a|]; [|discriminate].
  destruct (read_line _); [discriminate|].
  destruct (i <? _); [|discriminate].
  intros [= <-]. apply released_bail_out.
Qed.

Lemma for_loop_leave (body : Z -> frame F -> flow F (frame F)) :
  (forall i fr l, body i fr = Leave (Returned None) l -> released l) ->
  forall n i fr l, for_loop n i body fr = Leave (Returned None) l -> released l.
Proof.
  intros Hbody. induction n as [|n IH]; intros i fr l; cbn [for_loop]; [discriminate|].
  destruct (body i fr) as [fr1|o l1] eqn:Eb; cbn [bind].
  - apply IH.
  - intros [= -> ->]. eapply Hbody, Eb.
Qed.

(** A negative [nNodes] fails the allocation; otherwise the decrement
    of line 213 does not wrap. *)
Lemma nNodes_pred nNodes :
  0 <= nNodes -> nNodes = CInt.wrap (vec_address mc) -> CInt.sub nNodes 1 = nNodes - 1.
Proof.
  intros H0 ->. pose proof (wrap_range (vec_address mc)).
  unfold CInt.sub. apply wrap_small. unfold CInt.INT_MIN, CInt.INT_MAX in *. lia.
Qed.

Lemma load_from_complete pNtk nNodes contents l0 p l :
  valid_ntk pNtk ->
  nNodes = CInt.wrap (vec_address mc) ->
  load_from mc pNtk (Abc_AigDfs pNtk) nNodes contents l0 = Next (p, l) ->
  complete_file pNtk contents.
Proof.
  intros Hv HnN. unfold load_from.
  destruct (negb (malloc_ok mc blk_Ci_Switching)
            || negb (malloc_ok mc blk_Node_Switching && (0 <=? nNodes))) eqn:Em;
    [discriminate|].
  assert (H0 : 0 <= nNodes).
  { apply orb_false_elim in Em as [_ Em]. apply negb_false_iff in Em.
    apply andb_prop in Em as [_ Em]. lia. }
  unfold complete_file, records.
  destruct (skip_header None (chunks 256 contents)) as [buf rest].
  set (fr0 := Build_frame buf rest _ _ _).
  assert (Hp0 : pending fr0 = match buf with Some b => b :: rest | None => rest end)
    by reflexivity.
  rewrite <- Hp0. clearbody fr0. clear Hp0.
  unfold Abc_NtkCiNum. rewrite Nat2Z.id.
  set (nC := length (vCis pNtk)). set (nD := length (Abc_AigDfs pNtk)).
  destruct (for_loop nC 0 _ fr0) as [fr1|] eqn:Eci; [|discriminate]. cbn [bind].
  destruct (for_loop nD 0 _ fr1) as [fr2|] eqn:End; [|discriminate]. cbn [bind].
  destruct (negb (malloc_ok mc blk_vSwitching)); [discriminate|].
  destruct (assign_cis _ _ _ _) as [p1|] eqn:Eac; [|discriminate].
  destruct (assign_nodes _ _ _ _) as [[p2 l2]|] eqn:Ean; [|discriminate].
  intros _.
  (* the node identifiers fit the vector: there are at most [nNodes] nodes *)
  assert (HnD : (nD <= Z.to_nat nNodes)%nat).
  { apply assign_nodes_next in Ean as [_ Hb]. apply assign_cis_next in Eac.
    rewrite Eac, length_replicate in Hb.
    apply bounded_ids_length; [|exact Hb].
    pose proof (valid_unique _ Hv) as Hnd. rewrite fmap_app in Hnd.
    now apply NoDup_app in Hnd as (_ & _ & Hnd). }
  assert (HnCint : Z.of_nat nC <= CInt.INT_MAX).
  { pose proof (valid_max _ Hv). pose proof (valid_cis _ Hv) as Hc.
    assert (Hle : (nC <= Z.to_nat (Abc_NtkObjNumMax pNtk))%nat).
    { apply bounded_ids_length.
      - pose proof (valid_unique _ Hv) as Hnd. rewrite fmap_app in Hnd.
        now apply NoDup_app in Hnd as (Hnd & _).
      - eapply Forall_impl; [exact Hc|]. intros o Ho. cbn in Ho. lia. }
    unfold CInt.INT_MAX in *. lia. }
  (* the node loop, from a frame with a fresh line in the buffer *)
  assert (Hnodes : forall fr1', (0 < nD)%nat ->
            for_loop nD 0 (read_node nNodes) fr1' = Next fr2 ->
            (nD <= length (pending fr1'))%nat
            /\ Forall (fun l => is_node_line l = true) (take nD (pending fr1'))).
  { intros fr1' HD Hrun.
    destruct (for_loop_next _ _ _ (read_node_next nNodes) _ _ _ _ Hrun HD) as [HP Hr].
    split; [|exact HP].
    destruct Hr as [Hlt _ _ | b Hlen _ _ _ Hi]; [lia|].
    rewrite (nNodes_pred _ H0 HnN) in Hi. apply Z.ltb_ge in Hi. lia. }
  destruct (Nat.eq_dec nC 0%nat) as [E0|HC].
  - (* no combinational input *)
    rewrite E0 in *. cbn [for_loop] in Eci. injection Eci as <-.
    cbn [take drop Nat.add]. split; [|split; [constructor|]].
    + destruct (Nat.eq_dec nD 0%nat) as [->|HD]; [lia|]. apply Hnodes; [lia|exact End].
    + destruct (Nat.eq_dec nD 0%nat) as [->|HD]; [constructor|]. apply Hnodes; [lia|exact End].
  - destruct (for_loop_next _ _ _ (read_ci_next (Z.of_nat nC)) _ _ _ _ Eci ltac:(lia))
      as [HP Hr].
    destruct Hr as [Hlt Hne Hd | b Hlen Hlast Hb Hf Hi].
    + (* the buffer holds the line after the last input *)
      destruct (Nat.eq_dec nD 0%nat) as [E0|HD].
      * rewrite E0 in *. cbn [take]. split; [lia|]. split; [exact HP|constructor].
      * destruct (Hnodes fr1 ltac:(lia) End) as [Hlen HPn]. rewrite Hd in Hlen, HPn.
        rewrite length_drop in Hlen. split; [lia|]. split; [exact HP|exact HPn].
    + (* the file ended with the last input: the buffer still holds its line *)
      assert (Hsub : CInt.sub (Z.of_nat nC) 1 = Z.of_nat nC - 1).
      { unfold CInt.sub. apply wrap_small. unfold CInt.INT_MIN, CInt.INT_MAX in *. lia. }
      rewrite Hsub in Hi. apply Z.ltb_ge in Hi.
      assert (Hlen' : length (pending fr0) = nC) by lia.
      destruct (Nat.eq_dec nD 0%nat) as [E0|HD].
      * rewrite E0 in *. cbn [take]. split; [lia|]. split; [exact HP|constructor].
      * exfalso.
        destruct (Hnodes fr1 ltac:(lia) End) as [_ HPn].
        assert (Hp1 : pending fr1 = [b]) by (unfold pending; now rewrite Hb, Hf).
        rewrite Hp1 in HPn. destruct nD as [|nD']; [lia|]. cbn [take] in HPn.
        apply Forall_cons_1 in HPn as [Hnode _].
        assert (Hci : is_ci_line b = true).
        { rewrite take_ge in HP by lia. rewrite Forall_forall in HP.
          apply HP. rewrite last_lookup in Hlast.
          eapply list_elem_of_lookup_2, Hlast. }
        apply ci_line_not_node in Hci. congruence.
Qed.

End Completeness.

Section Rejection.
Context {F : Type} `{FloatScan F}.
Variable mc : machine.

Lemma load_from_leave pNtk vNodes nNodes contents l0 l :
  load_from mc pNtk vNodes nNodes contents l0 = Leave (Returned None) l ->
  malloc_ok mc blk_Ci_Switching = true ->
  malloc_ok mc blk_Node_Switching = true ->
  0 <= nNodes ->
  released l.
Proof.
  intros Hrun Hci Hnode H0. unfold load_from in Hrun.
  rewrite Hci, Hnode in Hrun. apply Z.leb_le in H0. rewrite H0 in Hrun.
  cbn [negb andb orb] in Hrun.
  destruct (skip_header None (chunks 256 contents)) as [buf rest].
  destruct (for_loop _ 0 (read_ci _) _) as [fr1|o1 l1] eqn:Eci; cbn [bind] in Hrun.
  2:{ injection Hrun as -> ->. eapply for_loop_leave, Eci. apply read_ci_leave. }
  destruct (for_loop _ 0 (read_node _) _) as [fr2|o2 l2] eqn:End; cbn [bind] in Hrun.
  2:{ injection Hrun as -> ->. eapply for_loop_leave, End. apply read_node_leave. }
  destruct (negb (malloc_ok mc blk_vSwitching)).
  { injection Hrun as <-. unfold released.
    split; apply elem_of_app; right; rewrite !elem_of_cons; auto. }
  destruct (assign_cis _ _ _ _) as [p1|o3 l3] eqn:Eac.
  2:{ apply assign_cis_leave in Eac as [f ->]. discriminate. }
  destruct (assign_nodes _ _ _ _) as [[p2 l4]|o4 l4] eqn:Ean; cbn [bind] in Hrun;
    [discriminate|].
  apply assign_nodes_leave in Ean as [f ->]. discriminate.
Qed.

Lemma read_ci_no_vector nCis i fr o l : read_ci nCis i fr = Leave o l -> no_vector o.
Proof.
  unfold read_ci, no_vector. destruct (buffer fr) as [b|]; [|intros [= <- _]; discriminate].
  destruct (sscanf b _) as [|[id|?] [|[?|v] [|? ?]]];
    try (intros [= <- _]; discriminate).
  destruct (store _ id _) as [a|]; [|intros [= <- _]; discriminate].
  destruct (read_line _); [discriminate|].
  destruct (i <? _); [|discriminate].
  intros [= <- _]; discriminate.
Qed.

Lemma read_node_no_vector nNodes i fr o l : read_node nNodes i fr = Leave o l -> no_vector o.
Proof.
  unfold read_node, no_vector. destruct (buffer fr) as [b|]; [|intros [= <- _]; discriminate].
  destruct (sscanf b _) as [|[id|?] [|[?|v] [|? ?]]];
    try (intros [= <- _]; discriminate).
  destruct (store _ id _) as [a|]; [|intros [= <- _]; discriminate].
  destruct (read_line _); [discriminate|].
  destruct (i <? _); [|discriminate].
  intros [= <- _]; discriminate.
Qed.

Lemma for_loop_no_vector (body : Z -> frame F -> flow F (frame F)) :
  (forall i fr o l, body i fr = Leave o l -> no_vector o) ->
  forall n i fr o l, for_loop n i body fr = Leave o l -> no_vector o.
Proof.
  intros Hbody. induction n as [|n IH]; intros i fr o l; cbn [for_loop]; [discriminate|].
  destruct (body i fr) as [fr1|o1 l1] eqn:Eb; cbn [bind].
  - apply IH.
  - intros [= -> ->]. eapply Hbody, Eb.
Qed.

Lemma load_from_no_vector pNtk vNodes nNodes contents l0 o l :
  load_from mc pNtk vNodes nNodes contents l0 = Leave o l -> no_vector o.
Proof.
  unfold load_from.
  destruct (_ || _); [intros [= <- _] v; discriminate|].
  destruct (skip_header None (chunks 256 contents)) as [buf rest].
  destruct (for_loop _ 0 (read_ci _) _) as [fr1|o1 l1] eqn:Eci; cbn [bind].
  2:{ intros [= -> ->]. eapply for_loop_no_vector, Eci. apply read_ci_no_vector. }
  destruct (for_loop _ 0 (read_node _) _) as [fr2|o2 l2] eqn:End; cbn [bind].
  2:{ intros [= -> ->]. eapply for_loop_no_vector, End. apply read_node_no_vector. }
  destruct (negb (malloc_ok mc blk_vSwitching)); [intros [= <- _] v; discriminate|].
  destruct (assign_cis _ _ _ _) as [p1|o3 l3] eqn:Eac.
  2:{ apply assign_cis_leave in Eac as [f ->]. intros [= <- _] v; discriminate. }
  destruct (assign_nodes _ _ _ _) as [[p2 l4]|o4 l4] eqn:Ean; cbn [bind]; [discriminate|].
  apply assign_nodes_leave in Ean as [f ->]. intros [= <- _] v; discriminate.
Qed.

Lemma load_named pNtk name contents (s : sys F) :
  files s !! name = Some contents ->
  Sim_NtkLoadSwitching mc pNtk (Some name) s
  = match load_from mc pNtk (Abc_AigDfs pNtk) (CInt.wrap (vec_address mc))
            contents [EFopen name] with
    | Next (p, l) =>
        (Returned (Some p), emit l (emit [EAlloc blk_vNodes; EAlloc blk_nNodes] s))
    | Leave o l => (o, emit l (emit [EAlloc blk_vNodes; EAlloc blk_nNodes] s))
    end.
Proof.
  intros Hf. unfold Sim_NtkLoadSwitching. cbn [emit files]. rewrite Hf.
  destruct (load_from _ _ _ _ _ _) as [[p l]|o l]; reflexivity.
Qed.

(** The loop of lines 154-158 stops at the first line that is no header. *)
Lemma skip_header_app hs : forall buf l ls,
  Forall (fun h => header_line h = true) hs ->
  header_line l = false ->
  skip_header buf (hs ++ l :: ls) = (Some l, ls).
Proof.
  induction hs as [|h hs IH]; intros buf l ls Hh Hl; cbn [app skip_header].
  - destruct l as [|c r]; [reflexivity|]. cbn [header_line] in Hl.
    apply orb_false_elim in Hl as [-> ->]. reflexivity.
  - apply Forall_cons in Hh as [Hh Hhs]. destruct h as [|c r]; [discriminate|].
    cbn [header_line] in Hh. rewrite <- negb_orb, Hh. cbn [negb]. now apply IH.
Qed.

(** A record of a combinational input is no header line. *)
Lemma ci_record_not_header l r :
  scans_as (F:=F) "CI %*d: ID=%d %f" l r -> header_line l = false.
Proof.
  unfold scans_as, sscanf. rewrite ci_format.
  destruct l as [|c l]; [reflexivity|]. cbn [c_str header_line].
  destruct (Ascii.eqb c NUL); [discriminate|]. cbn [run_format].
  destruct (Ascii.eqb c "C") eqn:E; [|discriminate].
  apply Ascii.eqb_eq in E. subst c. reflexivity.
Qed.

(** C7 (the code does not do this). With both arrays allocated and at
    least one combinational input, a file that lacks records is not always
    turned away with NULL. On the empty file the loop of lines 154-158
    never fills [buffer], and lines 167 and 170 read it. On a file that
    ends with its first record, when the network calls for more and the
    identifier of the record is no index of [Ci_Switching], line 178
    writes outside the array before line 179 notices the end of the file.
    Both runs end in undefined behaviour, not in the release of the arrays
    and NULL. *)
Theorem load_incomplete_file_faults (pNtk : Abc_Ntk) (name : string) (s : sys F) :
  malloc_ok mc blk_Ci_Switching = true ->
  malloc_ok mc blk_Node_Switching = true ->
  0 <= CInt.wrap (vec_address mc) ->
  vCis pNtk <> [] ->
  (files s !! name = Some [] ->
   ~ complete_file pNtk []
   /\ fst (Sim_NtkLoadSwitching mc pNtk (Some name) s) = Faulted UninitBuffer)
  /\ (forall (contents : text) (hs : list text) (l : text) (id : Z) (v : F),
        files s !! name = Some contents ->
        chunks 256 contents = hs ++ [l] ->
        Forall (fun h => header_line h = true) hs ->
        scans_as "CI %*d: ID=%d %f" l (id, v) ->
        ~ 0 <= id < Abc_NtkCiNum pNtk ->
        (1 < length (vCis pNtk) + length (Abc_AigDfs pNtk))%nat ->
        ~ complete_file pNtk contents
        /\ fst (Sim_NtkLoadSwitching mc pNtk (Some name) s)
           = Faulted (OutOfBounds blk_Ci_Switching id)).
Proof.
  intros Hci Hnode H0 Hcis. apply Z.leb_le in H0.
  destruct (vCis pNtk) as [|o cis] eqn:Ecis; [contradiction|]. clear Hcis.
  split.
  - intros Hf. split.
    + intros [Hlen _]. unfold records in Hlen. rewrite Ecis in Hlen.
      cbn in Hlen. lia.
    + rewrite (load_named _ _ _ _ Hf). unfold load_from.
      rewrite Hci, Hnode, H0. cbn [negb andb orb].
      change (chunks 256 []) with (@nil text). cbn [skip_header].
      unfold Abc_NtkCiNum. rewrite Ecis, Nat2Z.id. cbn [length for_loop].
      unfold read_ci at 1. cbn [buffer bind]. reflexivity.
  - intros contents hs l id v Hf Hch Hhs Hs Hid Hmany.
    pose proof (ci_record_not_header _ _ Hs) as Hl.
    split.
    + intros [Hlen _]. unfold records in Hlen. rewrite Hch in Hlen.
      rewrite (skip_header_app _ _ _ _ Hhs Hl) in Hlen. rewrite Ecis in Hlen.
      cbn [length] in Hlen. cbn [length] in Hmany. lia.
    + rewrite (load_named _ _ _ _ Hf). unfold load_from.
      rewrite Hci, Hnode, H0. cbn [negb andb orb].
      rewrite Hch, (skip_header_app _ _ _ _ Hhs Hl).
      unfold Abc_NtkCiNum in *. rewrite Ecis in *. rewrite Nat2Z.id. cbn [length for_loop].
      unfold read_ci at 1. cbn [buffer say Ci_Switching pFile Node_Switching log].
      unfold scans_as in Hs. cbn [fst snd] in Hs. rewrite Hs.
      assert (Est : forall x, store (replicate (S (length cis)) (@None F)) id x = None).
      { intros x. unfold store. rewrite length_replicate.
        destruct (0 <=? id) eqn:E1; [|reflexivity].
        destruct (id <? Z.of_nat (S (length cis))) eqn:E2; [|reflexivity].
        exfalso. apply Hid. apply Z.leb_le in E1. apply Z.ltb_lt in E2.
        cbn [length]. lia. }
      unfold cell in *. rewrite Est. cbn [bind]. reflexivity.
Qed.

End Rejection.

Lemma load_incomplete_file_faults_witness :
  (~ complete_file (F:=Q) Scenario.ntk []
   /\ Scenario.load_with 4 [] = Faulted UninitBuffer)
  /\ (~ complete_file (F:=Q) Scenario.ntk
         (header_text Scenario.ntk ++ record_line "CI" 0 7 (lit "0.5"))
      /\ Scenario.load_with 4 (header_text Scenario.ntk ++ record_line "CI" 0 7 (lit "0.5"))
         = Faulted (OutOfBounds blk_Ci_Switching 7)).
Proof.
  split.
  - apply (proj1 (load_incomplete_file_faults (Scenario.machine_with 4) Scenario.ntk
                    "net.switch"%string (Scenario.disk "net.switch" [])
                    eq_refl eq_refl ltac:(vm_compute; discriminate) ltac:(discriminate))).
    reflexivity.
  - apply (proj2 (load_incomplete_file_faults (Scenario.machine_with 4) Scenario.ntk
                    "net.switch"%string
                    (Scenario.disk "net.switch"
                       (header_text Scenario.ntk ++ record_line "CI" 0 7 (lit "0.5")))
                    eq_refl eq_refl ltac:(vm_compute; discriminate) ltac:(discriminate))
             (header_text Scenario.ntk ++ record_line "CI" 0 7 (lit "0.5"))
             (header_lines Scenario.ntk) (record_line "CI" 0 7 (lit "0.5")) 7 (1 # 2)%Q).
    + reflexivity.
    + vm_compute. reflexivity.
    + repeat constructor; vm_compute; reflexivity.
    + vm_compute. reflexivity.
    + vm_compute. intros [_ Hlt]. discriminate.
    + cbn. lia.
Defined.

(** ** Identifiers out of range *)

Section Unchecked.
Context {F : Type} `{FloatScan F}.

(** Neither loop looks at the identifier before it indexes with it. *)
Lemma read_ci_unchecked nCis i (fr : frame F) b id v :
  buffer fr = Some b ->
  sscanf b "CI %*d: ID=%d %f" = [AInt id; AFloat v] ->
  ~ 0 <= id < Z.of_nat (length (Ci_Switching fr)) ->
  exists l, read_ci nCis i fr = Leave (Faulted (OutOfBounds blk_Ci_Switching id)) l.
Proof.
  intros Hb Hs Hid. unfold read_ci. rewrite Hb, Hs. cbn [say Ci_Switching].
  destruct (store _ id _) as [a|] eqn:E; [|eauto].
  apply store_Some in E. tauto.
Qed.

Lemma read_node_unchecked nNodes i (fr : frame F) b id v :
  buffer fr = Some b ->
  sscanf b " Node %*d : ID = %d %f " = [AInt id; AFloat v] ->
  ~ 0 <= id < Z.of_nat (length (Node_Switching fr)) ->
  exists l, read_node nNodes i fr = Leave (Faulted (OutOfBounds blk_Node_Switching id)) l.
Proof.
  intros Hb Hs Hid. unfold read_node. rewrite Hb, Hs. cbn [say Node_Switching].
  destruct (store _ id _) as [a|] eqn:E; [|eauto].
  apply store_Some in E. tauto.
Qed.

End Unchecked.

(** C2 (the code does not do this): a template of the scenario network
    whose first record says [ID=7], for an array of two inputs, makes the
    loader write [Ci_Switching[7]]; one whose node record says [ID=9], for
    an array of four nodes, makes it write [Node_Switching[9]]; a negative
    identifier is used as it is, too. No check precedes the writes. *)
Theorem load_out_of_range_id :
  Scenario.load_with 4
    (header_text Scenario.ntk
     ++ record_line "CI" 0 7 (lit "0.5") ++ record_line "CI" 1 1 (lit "0.5")
     ++ record_line "Node" 0 2 (lit "0.75"))
  = Faulted (OutOfBounds blk_Ci_Switching 7)
  /\ Scenario.load_with 4
       (header_text Scenario.ntk
        ++ record_line "CI" 0 0 (lit "0.5") ++ record_line "CI" 1 1 (lit "0.5")
        ++ record_line "Node" 0 9 (lit "0.75"))
     = Faulted (OutOfBounds blk_Node_Switching 9)
  /\ Scenario.load_with 4
       (header_text Scenario.ntk
        ++ record_line "CI" 0 (-1) (lit "0.5") ++ record_line "CI" 1 1 (lit "0.5")
        ++ record_line "Node" 0 2 (lit "0.75"))
     = Faulted (OutOfBounds blk_Ci_Switching (-1)).
Proof. repeat split; vm_compute; reflexivity. Qed.

(** ** Writing a template and loading it back *)

(** C1 (the code does not do this): for the network of the scenario, with
    [nNodes] the object count 4, the template as written and the template
    with its values edited both end in "Unexpected end of file while
    reading Node values" and NULL, because the test of line 213 compares
    the index of the last node with [nNodes - 1]; with one more line after
    the records the loader returns a vector, in which the node (identifier
    3) is read from [Node_Switching[3]], never written, while its value
    0.75 sits in [Node_Switching[2]]. *)
Theorem roundtrip_scenario :
  Scenario.load_with 4 (template_text Scenario.ntk) = Returned None
  /\ Scenario.load_with 4 Scenario.edited = Returned None
  /\ Scenario.load_with 4 (Scenario.edited ++ [LF])
     = Returned (Some [Some 0%Q; Some (1 # 2)%Q; Some (1 # 2)%Q; None]).
Proof. repeat split; vm_compute; reflexivity. Qed.

(** ** The index field of a record *)

Lemma isspace_not_NUL c : isspace c = true -> Ascii.eqb c NUL = false.
Proof.
  destruct (Ascii.eqb c NUL) eqn:E; [|reflexivity].
  apply Ascii.eqb_eq in E. subst c. discriminate.
Qed.

Lemma isdigit_not_NUL c : isdigit c = true -> Ascii.eqb c NUL = false.
Proof.
  destruct (Ascii.eqb c NUL) eqn:E; [|reflexivity].
  apply Ascii.eqb_eq in E. subst c. discriminate.
Qed.

Lemma isdigit_not_space c : isdigit c = true -> isspace c = false.
Proof.
  intros Hd. destruct (isspace c) eqn:E; [|reflexivity].
  unfold isspace in E. rewrite !orb_true_iff in E.
  destruct E as [[[[[E|E]|E]|E]|E]|E]; apply Ascii.eqb_eq in E; subst c; discriminate.
Qed.

Lemma c_str_app l1 l2 :
  forallb (fun c => negb (Ascii.eqb c NUL)) l1 = true -> c_str (l1 ++ l2) = l1 ++ c_str l2.
Proof.
  induction l1 as [|c l1 IH]; cbn [forallb app c_str]; [reflexivity|].
  intros Hc. apply andb_prop in Hc as [Hc Hl]. apply negb_true_iff in Hc.
  rewrite Hc. f_equal. now apply IH.
Qed.

Lemma all_space_no_NUL ws :
  all_space ws = true -> forallb (fun c => negb (Ascii.eqb c NUL)) ws = true.
Proof.
  unfold all_space. induction ws as [|c ws IH]; cbn [forallb]; [reflexivity|].
  intros Hc. apply andb_prop in Hc as [Hc Hl].
  rewrite (isspace_not_NUL _ Hc). cbn. now apply IH.
Qed.

Lemma skip_ws_app ws r : all_space ws = true -> skip_ws (ws ++ r) = skip_ws r.
Proof.
  unfold all_space. induction ws as [|c ws IH]; cbn [forallb app skip_ws]; [reflexivity|].
  intros Hc. apply andb_prop in Hc as [Hc Hl]. rewrite Hc. now apply IH.
Qed.

Lemma scan_digits_all s : forall acc v,
  scan_digits s acc = (v, []) -> forallb isdigit s = true.
Proof.
  induction s as [|c s IH]; intros acc v; cbn [scan_digits forallb]; [reflexivity|].
  destruct (isdigit c); [|discriminate]. intros Hs. cbn. eapply IH, Hs.
Qed.

Lemma scan_digits_app s : forall acc v r,
  scan_digits s acc = (v, []) -> no_digit_ahead r = true ->
  scan_digits (s ++ r) acc = (v, r).
Proof.
  induction s as [|c s IH]; intros acc v r; cbn [scan_digits app].
  - intros [= <-] Hr. destruct r as [|d r]; [reflexivity|].
    cbn [scan_digits]. cbn in Hr. apply negb_true_iff in Hr. now rewrite Hr.
  - destruct (isdigit c); [|discriminate]. apply IH.
Qed.

Lemma digits_no_NUL s :
  forallb isdigit s = true -> forallb (fun c => negb (Ascii.eqb c NUL)) s = true.
Proof.
  induction s as [|c s IH]; cbn [forallb]; [reflexivity|].
  intros Hc. apply andb_prop in Hc as [Hc Hl].
  rewrite (isdigit_not_NUL _ Hc). cbn. now apply IH.
Qed.

(** An integer field is a sign, if any, and digits. *)
Lemma int_text_inv i :
  int_text i = true ->
  exists sign c ds v,
    i = sign ++ c :: ds
    /\ (sign = [] \/ sign = ["-"%char] \/ sign = ["+"%char])
    /\ isdigit c = true
    /\ scan_digits (c :: ds) 0 = (v, []).
Proof.
  unfold int_text, scan_int. destruct i as [|a i]; [discriminate|].
  destruct (Ascii.eqb a "-") eqn:Em; [|destruct (Ascii.eqb a "+") eqn:Ep].
  - apply Ascii.eqb_eq in Em. subst a.
    destruct i as [|c ds]; [discriminate|].
    destruct (isdigit c) eqn:Ec; [|discriminate].
    destruct (scan_digits (c :: ds) 0) as [v rest] eqn:Es.
    destruct rest; [|discriminate]. intros _.
    exists ["-"%char], c, ds, v. auto.
  - apply Ascii.eqb_eq in Ep. subst a.
    destruct i as [|c ds]; [discriminate|].
    destruct (isdigit c) eqn:Ec; [|discriminate].
    destruct (scan_digits (c :: ds) 0) as [v rest] eqn:Es.
    destruct rest; [|discriminate]. intros _.
    exists ["+"%char], c, ds, v. auto.
  - destruct (isdigit a) eqn:Ec; [|discriminate].
    destruct (scan_digits (a :: i) 0) as [v rest] eqn:Es.
    destruct rest; [|discriminate]. intros _.
    exists [], a, i, v. auto.
Qed.

Lemma int_text_no_NUL i :
  int_text i = true -> forallb (fun c => negb (Ascii.eqb c NUL)) i = true.
Proof.
  intros Hi. apply int_text_inv in Hi as (sign & c & ds & v & -> & Hs & Hc & Hd).
  rewrite forallb_app. apply andb_true_intro. split.
  - destruct Hs as [->|[->| ->]]; reflexivity.
  - apply digits_no_NUL. eapply scan_digits_all, Hd.
Qed.

Lemma int_text_skip_ws i r : int_text i = true -> skip_ws (i ++ r) = i ++ r.
Proof.
  intros Hi. apply int_text_inv in Hi as (sign & c & ds & v & -> & Hs & Hc & Hd).
  destruct Hs as [->|[->| ->]]; cbn [app skip_ws]; [|reflexivity..].
  now rewrite (isdigit_not_space _ Hc).
Qed.

(** [%d] and [%*d] take the field and nothing more. *)
Lemma scan_int_field i r :
  int_text i = true -> no_digit_ahead r = true ->
  exists v, scan_int (i ++ r) = Some (v, r).
Proof.
  intros Hi Hr. apply int_text_inv in Hi as (sign & c & ds & v & -> & Hs & Hc & Hd).
  pose proof (scan_digits_app _ _ _ _ Hd Hr) as Happ.
  assert (Hnm : Ascii.eqb c "-" = false).
  { destruct (Ascii.eqb c "-") eqn:E; [|reflexivity].
    apply Ascii.eqb_eq in E. subst c. discriminate. }
  assert (Hnp : Ascii.eqb c "+" = false).
  { destruct (Ascii.eqb c "+") eqn:E; [|reflexivity].
    apply Ascii.eqb_eq in E. subst c. discriminate. }
  change ((c :: ds) ++ r) with (c :: ds ++ r) in Happ.
  destruct Hs as [->|[->| ->]]; unfold scan_int; cbn -[isdigit scan_digits];
    rewrite ?Hnm, ?Hnp, Hc, Happ; eauto.
Qed.

Section IndexField.
Context {F : Type} `{FloatScan F}.

Lemma no_digit_ahead_c_str post :
  no_digit_ahead post = true -> no_digit_ahead (c_str post) = true.
Proof.
  destruct post as [|c post]; [reflexivity|]. cbn [c_str no_digit_ahead].
  destruct (Ascii.eqb c NUL); auto.
Qed.

Lemma run_format_char c fmt a inp :
  run_format (F:=F) (DChar c :: fmt) (a :: inp)
  = if Ascii.eqb a c then run_format fmt inp else [].
Proof. reflexivity. Qed.

Lemma run_format_space fmt inp :
  run_format (F:=F) (DSpace :: fmt) inp = run_format fmt (skip_ws inp).
Proof. reflexivity. Qed.

Lemma run_format_skip fmt inp :
  run_format (F:=F) (DInt false :: fmt) inp
  = match scan_int (skip_ws inp) with
    | Some (_, rest) => run_format fmt rest
    | None => []
    end.
Proof. reflexivity. Qed.

(** The index of a CI record is scanned and dropped: what [sscanf]
    assigns is what the rest of the format finds after the field. *)
Lemma sscanf_ci_index ws i post :
  all_space ws = true -> int_text i = true -> no_digit_ahead post = true ->
  sscanf (F:=F) (lit "CI" ++ ws ++ i ++ post) "CI %*d: ID=%d %f"
  = run_format [DChar ":"; DSpace; DChar "I"; DChar "D"; DChar "=";
                DInt true; DSpace; DFloat] (c_str post).
Proof.
  intros Hws Hi Hp. unfold sscanf. rewrite ci_format.
  rewrite (c_str_app (lit "CI")) by reflexivity.
  rewrite (c_str_app ws) by now apply all_space_no_NUL.
  rewrite (c_str_app i) by now apply int_text_no_NUL.
  change (lit "CI") with ["C"%char; "I"%char]. cbn [app].
  rewrite !run_format_char, !Ascii.eqb_refl, run_format_space, run_format_skip.
  rewrite skip_ws_app, !int_text_skip_ws by assumption.
  destruct (scan_int_field i (c_str post) Hi (no_digit_ahead_c_str _ Hp)) as [v ->].
  reflexivity.
Qed.

Lemma sscanf_node_index ws1 ws2 i post :
  all_space ws1 = true -> all_space ws2 = true ->
  int_text i = true -> no_digit_ahead post = true ->
  sscanf (F:=F) (ws1 ++ lit "Node" ++ ws2 ++ i ++ post) " Node %*d : ID = %d %f "
  = run_format [DSpace; DChar ":"; DSpace; DChar "I"; DChar "D"; DSpace; DChar "=";
                DSpace; DInt true; DSpace; DFloat; DSpace] (c_str post).
Proof.
  intros Hw1 Hw2 Hi Hp. unfold sscanf. rewrite node_format.
  rewrite (c_str_app ws1) by now apply all_space_no_NUL.
  rewrite (c_str_app (lit "Node")) by reflexivity.
  rewrite (c_str_app ws2) by now apply all_space_no_NUL.
  rewrite (c_str_app i) by now apply int_text_no_NUL.
  rewrite run_format_space, skip_ws_app by assumption.
  change (lit "Node") with ["N"%char; "o"%char; "d"%char; "e"%char]. cbn [app skip_ws].
  change (isspace "N") with false. cbv iota.
  rewrite !run_format_char, !Ascii.eqb_refl, run_format_space, run_format_skip.
  rewrite skip_ws_app, !int_text_skip_ws by assumption.
  destruct (scan_int_field i (c_str post) Hi (no_digit_ahead_c_str _ Hp)) as [v ->].
  reflexivity.
Qed.

Lemma sscanf_ci_on_node ws1 r :
  all_space ws1 = true ->
  sscanf (F:=F) (ws1 ++ lit "Node" ++ r) "CI %*d: ID=%d %f" = [].
Proof.
  intros Hw. unfold sscanf. rewrite ci_format.
  rewrite (c_str_app ws1) by now apply all_space_no_NUL.
  destruct ws1 as [|c ws1].
  - rewrite (c_str_app (lit "Node")) by reflexivity. reflexivity.
  - cbn [app]. rewrite run_format_char.
    destruct (Ascii.eqb c "C") eqn:E; [|reflexivity].
    apply Ascii.eqb_eq in E. subst c. discriminate.
Qed.

Lemma sscanf_node_on_ci r :
  sscanf (F:=F) (lit "CI" ++ r) " Node %*d : ID = %d %f " = [].
Proof.
  unfold sscanf. rewrite node_format.
  rewrite (c_str_app (lit "CI")) by reflexivity. reflexivity.
Qed.

Lemma index_variant_equiv l1 l2 : index_variant l1 l2 -> line_equiv l1 l2.
Proof.
  intros [l | ws i1 i2 post Hw H1 H2 Hp | ws1 ws2 i1 i2 post Hw1 Hw2 H1 H2 Hp];
    unfold line_equiv.
  - auto.
  - split; [reflexivity|]. split.
    + now rewrite !sscanf_ci_index.
    + now rewrite !sscanf_node_on_ci.
  - split; [|split].
    + destruct ws1; reflexivity.
    + now rewrite !sscanf_ci_on_node.
    + now rewrite !sscanf_node_index.
Qed.

(** *** The loader on lines it cannot tell apart *)

Lemma read_ci_equiv nCis i fr1 fr2 :
  frame_equiv fr1 fr2 ->
  flow_equiv frame_equiv (read_ci nCis i fr1) (read_ci nCis i fr2).
Proof.
  intros (Hb & Hf & Hc & Hn). unfold read_ci.
  destruct (buffer fr1) as [b1|] eqn:E1, (buffer fr2) as [b2|] eqn:E2;
    inversion Hb as [? ? Hl|]; subst; [|reflexivity].
  destruct Hl as (Hh & Hs & _).
  rewrite Hs. destruct (sscanf b2 _) as [|[id|?] [|[?|v] [|? ?]]]; try reflexivity.
  cbn [say Ci_Switching log buffer pFile Node_Switching]. rewrite Hc.
  destruct (store _ id _) as [a|]; [|reflexivity].
  unfold read_line. cbn [pFile buffer Ci_Switching Node_Switching log].
  destruct Hf as [|l1 l2 r1 r2 Hl Hr].
  - destruct (i <? _); [reflexivity|]. cbn [flow_equiv].
    unfold frame_equiv. cbn [pFile buffer Ci_Switching Node_Switching log].
    rewrite E1, E2. repeat split; auto; constructor; repeat split; auto.
  - cbn [flow_equiv]. unfold frame_equiv.
    cbn [pFile buffer Ci_Switching Node_Switching log].
    repeat split; auto; constructor; auto.
Qed.

Lemma read_node_equiv nNodes i fr1 fr2 :
  frame_equiv fr1 fr2 ->
  flow_equiv frame_equiv (read_node nNodes i fr1) (read_node nNodes i fr2).
Proof.
  intros (Hb & Hf & Hc & Hn). unfold read_node.
  destruct (buffer fr1) as [b1|] eqn:E1, (buffer fr2) as [b2|] eqn:E2;
    inversion Hb as [? ? Hl|]; subst; [|reflexivity].
  destruct Hl as (Hh & _ & Hs).
  rewrite Hs. destruct (sscanf b2 _) as [|[id|?] [|[?|v] [|? ?]]]; try reflexivity.
  cbn [say Ci_Switching log buffer pFile Node_Switching]. rewrite Hn.
  destruct (store _ id _) as [a|]; [|reflexivity].
  unfold read_line. cbn [pFile buffer Ci_Switching Node_Switching log].
  destruct Hf as [|l1 l2 r1 r2 Hl Hr].
  - destruct (i <? _); [reflexivity|]. cbn [flow_equiv].
    unfold frame_equiv. cbn [pFile buffer Ci_Switching Node_Switching log].
    rewrite E1, E2. repeat split; auto; constructor; repeat split; auto.
  - cbn [flow_equiv]. unfold frame_equiv.
    cbn [pFile buffer Ci_Switching Node_Switching log].
    repeat split; auto; constructor; auto.
Qed.

Lemma for_loop_equiv (body : Z -> frame F -> flow F (frame F)) :
  (forall i fr1 fr2, frame_equiv fr1 fr2 ->
     flow_equiv frame_equiv (body i fr1) (body i fr2)) ->
  forall n i fr1 fr2, frame_equiv fr1 fr2 ->
    flow_equiv frame_equiv (for_loop n i body fr1) (for_loop n i body fr2).
Proof.
  intros Hbody. induction n as [|n IH]; intros i fr1 fr2 Hfr; cbn [for_loop].
  - exact Hfr.
  - specialize (Hbody i fr1 fr2 Hfr).
    destruct (body i fr1) as [a1|o1 l1], (body i fr2) as [a2|o2 l2];
      cbn [flow_equiv bind] in *; try contradiction; auto.
Qed.

Lemma skip_header_equiv ls1 : forall ls2 buf1 buf2,
  Forall2 line_equiv ls1 ls2 ->
  option_Forall2 line_equiv buf1 buf2 ->
  option_Forall2 line_equiv (fst (skip_header buf1 ls1)) (fst (skip_header buf2 ls2))
  /\ Forall2 line_equiv (snd (skip_header buf1 ls1)) (snd (skip_header buf2 ls2)).
Proof.
  induction ls1 as [|l1 ls1 IH]; intros ls2 buf1 buf2 Hls Hbuf;
    inversion Hls as [|? l2 ? ls2' Hl Hls']; subst; cbn [skip_header fst snd].
  - split; [exact Hbuf|constructor].
  - pose proof Hl as (Hh & _ & _).
    destruct l1 as [|c1 r1], l2 as [|c2 r2]; try discriminate; cbn [fst snd].
    + split; [now constructor|exact Hls'].
    + injection Hh as <-.
      destruct (negb (Ascii.eqb c1 "#") && negb (Ascii.eqb c1 LF)); cbn [fst snd].
      * split; [now constructor|exact Hls'].
      * apply IH; [exact Hls'|now constructor].
Qed.

Lemma assign_nodes_log vNodes : forall (Node p : list (cell F)) l1 l2,
  flow_equiv (fun r1 r2 => fst r1 = fst r2)
    (assign_nodes vNodes Node p l1) (assign_nodes vNodes Node p l2).
Proof.
  induction vNodes as [|o vs IH]; intros Node p l1 l2; cbn [assign_nodes].
  - reflexivity.
  - destruct (load Node (Id o)) as [v|]; [|reflexivity].
    destruct (store p (Id o) v) as [p1|]; [|reflexivity].
    apply IH.
Qed.

Lemma load_from_equiv mc pNtk vNodes nNodes c1 c2 l1 l2 :
  Forall2 line_equiv (chunks 256 c1) (chunks 256 c2) ->
  result_of (load_from mc pNtk vNodes nNodes c1 l1)
  = result_of (load_from mc pNtk vNodes nNodes c2 l2).
Proof.
  intros Hls. unfold load_from.
  destruct (_ || _); [reflexivity|].
  destruct (skip_header_equiv _ _ None None Hls ltac:(constructor)) as [Hb Hr].
  destruct (skip_header None (chunks 256 c1)) as [b1 r1].
  destruct (skip_header None (chunks 256 c2)) as [b2 r2].
  cbn [fst snd] in Hb, Hr.
  match goal with
  | |- result_of (bind (for_loop ?n 0 ?body ?f1) _)
       = result_of (bind (for_loop _ 0 _ ?f2) _) =>
      assert (Hci : flow_equiv frame_equiv (for_loop n 0 body f1) (for_loop n 0 body f2))
  end.
  { apply for_loop_equiv; [intros; now apply read_ci_equiv|].
    unfold frame_equiv. cbn. auto. }
  destruct (for_loop _ 0 (read_ci _) _) as [fa|oa la],
           (for_loop _ 0 (read_ci _) _) as [fb|ob lb];
    cbn [flow_equiv bind result_of] in *; try contradiction; [|exact Hci].
  pose proof (for_loop_equiv _ (fun i f1 f2 => read_node_equiv nNodes i f1 f2)
                (length vNodes) 0 fa fb Hci) as Hnd.
  destruct (for_loop _ 0 (read_node _) fa) as [fc|oc lc],
           (for_loop _ 0 (read_node _) fb) as [fd|od ld];
    cbn [flow_equiv bind result_of] in *; try contradiction; [|exact Hnd].
  destruct Hnd as (_ & _ & Hc & Hn). rewrite Hc, Hn.
  destruct (negb (malloc_ok mc blk_vSwitching)); [reflexivity|].
  destruct (assign_cis _ _ _ _) as [p1|o3 l3]; [|reflexivity].
  match goal with
  | |- result_of (bind (assign_nodes ?vs ?N ?p ?la) _)
       = result_of (bind (assign_nodes _ _ _ ?lb) _) =>
      pose proof (assign_nodes_log vs N p la lb) as Han
  end.
  destruct (assign_nodes _ _ _ _) as [[pa la']|oa la'],
           (assign_nodes _ _ _ _) as [[pb lb']|ob lb'];
    cbn [flow_equiv bind result_of fst] in *; try contradiction; congruence.
Qed.

Lemma load_equiv mc pNtk name1 name2 (s1 s2 : sys F) c1 c2 :
  files s1 !! name1 = Some c1 -> files s2 !! name2 = Some c2 ->
  Forall2 line_equiv (chunks 256 c1) (chunks 256 c2) ->
  fst (Sim_NtkLoadSwitching mc pNtk (Some name1) s1)
  = fst (Sim_NtkLoadSwitching mc pNtk (Some name2) s2).
Proof.
  intros H1 H2 Hls. rewrite (load_named _ _ _ _ _ H1), (load_named _ _ _ _ _ H2).
  pose proof (load_from_equiv mc pNtk (Abc_AigDfs pNtk) (CInt.wrap (vec_address mc))
                c1 c2 [EFopen name1] [EFopen name2] Hls) as E.
  destruct (load_from _ _ _ _ c1 _) as [[p1 l1]|o1 l1],
           (load_from _ _ _ _ c2 _) as [[p2 l2]|o2 l2]; exact E.
Qed.

End IndexField.

(** *** Lines and the buffer of [fgets] *)

Lemma fgets_chunk_line room : forall body rest,
  LF ∉ body -> (length body < room)%nat ->
  fgets_chunk room (body ++ LF :: rest) = (body ++ [LF], rest).
Proof.
  induction room as [|room IH]; intros body rest Hnl Hlen; [lia|].
  destruct body as [|c body]; cbn [app fgets_chunk].
  - reflexivity.
  - apply not_elem_of_cons in Hnl as [Hc Hnl].
    destruct (Ascii.eqb c LF) eqn:E; [apply Ascii.eqb_eq in E; congruence|].
    rewrite IH by (cbn in Hlen; auto; lia). reflexivity.
Qed.

Lemma fgets_chunk_rest room : forall body,
  LF ∉ body -> (length body <= room)%nat -> fgets_chunk room body = (body, []).
Proof.
  induction room as [|room IH]; intros body Hnl Hlen.
  - destruct body; [reflexivity|cbn in Hlen; lia].
  - destruct body as [|c body]; cbn [fgets_chunk]; [reflexivity|].
    apply not_elem_of_cons in Hnl as [Hc Hnl].
    destruct (Ascii.eqb c LF) eqn:E; [apply Ascii.eqb_eq in E; congruence|].
    rewrite IH by (cbn in Hlen; auto; lia). reflexivity.
Qed.

Lemma chunks_fuel_fits size ls : forall fuel,
  fits_buffer size ls -> (length (concat ls) <= fuel)%nat ->
  chunks_fuel fuel size (concat ls) = ls.
Proof.
  induction ls as [|l ls IH]; intros fuel Hfit Hfuel.
  - destruct fuel; reflexivity.
  - destruct Hfit as (Hlen & (body & Hshape & Hnl) & Hfit).
    cbn [concat] in *. rewrite length_app in Hfuel.
    destruct fuel as [|fuel]; [lia|]. cbn [chunks_fuel]. unfold fgets.
    destruct (l ++ concat ls) as [|c r] eqn:E.
    { destruct l; [cbn in Hlen; lia|discriminate]. }
    rewrite <- E. clear E c r.
    destruct Hshape as [->|[-> ->]].
    + rewrite <- app_assoc. cbn [app].
      rewrite fgets_chunk_line by (rewrite ?length_app in Hlen; cbn in Hlen; auto; lia).
      f_equal. apply IH; [exact Hfit|lia].
    + cbn [concat]. rewrite app_nil_r.
      rewrite fgets_chunk_rest by (auto; lia).
      destruct fuel; reflexivity.
Qed.

Lemma chunks_fits size ls : fits_buffer size ls -> chunks size (concat ls) = ls.
Proof. intros Hfit. unfold chunks. now apply chunks_fuel_fits. Qed.

(** C10, as the code has it: two files cut into the same lines, each line
    short enough for the 256-character buffer of [fgets], that differ only
    in the <enumerationIndex> of CI and Node records make the loader end
    the same way (the same vector, NULL, or fault): the field is scanned
    with [%*d] and dropped, and only [ID=] says where a value goes. *)
Theorem index_fields_ignored {F} `{FloatScan F} (mc : machine) (pNtk : Abc_Ntk)
    (name1 name2 : string) (s1 s2 : sys F) (ls1 ls2 : list text) :
  files s1 !! name1 = Some (concat ls1) ->
  files s2 !! name2 = Some (concat ls2) ->
  fits_buffer 256 ls1 ->
  fits_buffer 256 ls2 ->
  Forall2 index_variant ls1 ls2 ->
  fst (Sim_NtkLoadSwitching mc pNtk (Some name1) s1)
  = fst (Sim_NtkLoadSwitching mc pNtk (Some name2) s2).
Proof.
  intros H1 H2 Hf1 Hf2 Hv. eapply load_equiv; eauto.
  rewrite !chunks_fits by assumption.
  eapply Forall2_impl; [exact Hv|]. intros. now apply index_variant_equiv.
Qed.

Lemma index_fields_ignored_witness :
  Scenario.load_with 4 (concat (Scenario.padded (lit "0") :: Scenario.rest_of_file))
  = Scenario.load_with 4 (concat (Scenario.padded (lit "7") :: Scenario.rest_of_file)).
Proof.
  apply (index_fields_ignored (Scenario.machine_with 4) Scenario.ntk
           "net.switch" "net.switch"
           (Scenario.disk "net.switch" (concat (Scenario.padded (lit "0") :: Scenario.rest_of_file)))
           (Scenario.disk "net.switch" (concat (Scenario.padded (lit "7") :: Scenario.rest_of_file)))
           (Scenario.padded (lit "0") :: Scenario.rest_of_file)
           (Scenario.padded (lit "7") :: Scenario.rest_of_file)).
  - reflexivity.
  - reflexivity.
  - cbn [fits_buffer Scenario.rest_of_file].
    repeat (split; [vm_compute; lia | split; [line_shape|]]). exact I.
  - cbn [fits_buffer Scenario.rest_of_file].
    repeat (split; [vm_compute; lia | split; [line_shape|]]). exact I.
  - constructor; [|repeat constructor].
    apply (iv_ci (lit " ") (lit "0") (lit "7")); reflexivity.
Defined.

(** The claim C10 as it is written fails: the two files below differ only
    in the index of their first record (0 and 10), which makes the second
    file's first line one character longer than the buffer takes; the
    first file loads, the second is rejected. *)
Lemma index_fields_counterexample :
  Forall2 index_variant
    (Scenario.padded (lit "0") :: Scenario.rest_of_file)
    (Scenario.padded (lit "10") :: Scenario.rest_of_file)
  /\ Scenario.load_with 4 (concat (Scenario.padded (lit "0") :: Scenario.rest_of_file))
     = Returned (Some [Some 0%Q; Some (1 # 2)%Q; Some (1 # 2)%Q; None])
  /\ Scenario.load_with 4 (concat (Scenario.padded (lit "10") :: Scenario.rest_of_file))
     = Returned None.
Proof.
  split; [|split; vm_compute; reflexivity].
  constructor; [|repeat constructor].
  apply (iv_ci (lit " ") (lit "0") (lit "10")); reflexivity.
Qed.

(** ** Binary32 arithmetic *)


(** ** Rounding to binary32 *)

Lemma digits2_bounds p :
  2 ^ (Zpos (digits2_pos p) - 1) <= Zpos p < 2 ^ Zpos (digits2_pos p).
Proof.
  induction p as [p IH|p IH|]; cbn [digits2_pos].
  - rewrite Pos2Z.inj_succ. replace (Z.succ (Zpos (digits2_pos p)) - 1)
      with (Z.succ (Zpos (digits2_pos p) - 1)) by lia.
    rewrite !Z.pow_succ_r by lia. lia.
  - rewrite Pos2Z.inj_succ. replace (Z.succ (Zpos (digits2_pos p)) - 1)
      with (Z.succ (Zpos (digits2_pos p) - 1)) by lia.
    rewrite !Z.pow_succ_r by lia. lia.
  - cbn. lia.
Qed.

Lemma digits2_unique p d :
  2 ^ (d - 1) <= Zpos p < 2 ^ d -> Zpos (digits2_pos p) = d.
Proof.
  intros [Hlo Hhi]. pose proof (digits2_bounds p) as [Hlo' Hhi'].
  assert (0 < d).
  { destruct (Z_lt_le_dec 0 d); [assumption|].
    assert (2 ^ d <= 2 ^ 0) by (destruct (Z_lt_le_dec d 0);
      [rewrite Z.pow_neg_r by lia; cbn; lia | apply Z.pow_le_mono_r; lia]).
    cbn in *. lia. }
  destruct (Z_lt_le_dec (Zpos (digits2_pos p)) d) as [Hlt|Hge].
  - assert (2 ^ Zpos (digits2_pos p) <= 2 ^ (d - 1)) by (apply Z.pow_le_mono_r; lia). lia.
  - destruct (Z_lt_le_dec d (Zpos (digits2_pos p))) as [Hlt|Hle]; [|lia].
    assert (2 ^ d <= 2 ^ (Zpos (digits2_pos p) - 1)) by (apply Z.pow_le_mono_r; lia). lia.
Qed.

Lemma shr_1_m mrs : 0 <= shr_m mrs -> shr_m (shr_1 mrs) = shr_m mrs / 2.
Proof.
  destruct mrs as [m r s]. cbn [shr_m]. intros Hm.
  destruct m as [|[p|p|]|p]; cbn [shr_1 shr_m]; try lia.
  - reflexivity.
  - apply Z.div_unique with 1; lia.
  - apply Z.div_unique with 0; lia.
  - reflexivity.
Qed.

Lemma shr_1_nonneg mrs : 0 <= shr_m mrs -> 0 <= shr_m (shr_1 mrs).
Proof. intros Hm. rewrite shr_1_m by assumption. apply Z.div_pos; lia. Qed.

Lemma iter_shr_m n : forall mrs,
  0 <= shr_m mrs ->
  shr_m (SpecFloat.iter_pos shr_1 n mrs) = shr_m mrs / 2 ^ Zpos n.
Proof.
  induction n as [n IH|n IH|]; intros mrs Hm; cbn [SpecFloat.iter_pos].
  - assert (H1 : 0 <= shr_m (shr_1 mrs)) by now apply shr_1_nonneg.
    assert (H2 : 0 <= shr_m (SpecFloat.iter_pos shr_1 n (shr_1 mrs))).
    { rewrite IH by assumption. apply Z.div_pos; lia. }
    assert (E : 2 ^ Zpos n~1 = 2 * 2 ^ Zpos n * 2 ^ Zpos n).
    { replace (Zpos n~1) with (1 + Zpos n + Zpos n) by lia.
      rewrite !Z.pow_add_r by lia. reflexivity. }
    rewrite IH, IH, shr_1_m, E by assumption.
    rewrite !Z.div_div by lia. f_equal. lia.
  - assert (H2 : 0 <= shr_m (SpecFloat.iter_pos shr_1 n mrs)).
    { rewrite IH by assumption. apply Z.div_pos; lia. }
    assert (E : 2 ^ Zpos n~0 = 2 ^ Zpos n * 2 ^ Zpos n).
    { replace (Zpos n~0) with (Zpos n + Zpos n) by lia.
      rewrite !Z.pow_add_r by lia. reflexivity. }
    rewrite IH, IH, E by assumption.
    rewrite !Z.div_div by lia. f_equal.
  - now rewrite shr_1_m.
Qed.

Lemma shr_m_shr mrs e n :
  0 <= shr_m mrs -> 0 <= n ->
  shr_m (fst (shr mrs e n)) = shr_m mrs / 2 ^ n /\ snd (shr mrs e n) = e + n.
Proof.
  intros Hm Hn. destruct n as [|n|n]; cbn [shr fst snd]; try lia.
  - rewrite Z.div_1_r. lia.
  - split; [now apply iter_shr_m|reflexivity].
Qed.

Lemma round_nearest_even_cases m l :
  round_nearest_even m l = m \/ round_nearest_even m l = m + 1.
Proof.
  destruct l as [|[| |]]; cbn [round_nearest_even]; auto.
  destruct (Z.even m); auto.
Qed.

Lemma shr_record_m m l : shr_m (shr_record_of_loc m l) = m.
Proof. destruct l as [|[| |]]; reflexivity. Qed.

(** The heart of every operation: a positive mantissa of at least 24
    bits, away from the ends of the exponent range, becomes a normal
    float whose mantissa is the truncated one or the next. *)
Lemma binary_round_aux_normal (p : positive) (ex : Z) (lx : location) :
  let d := Zpos (digits2_pos p) in
  let n := d - 24 in
  let q := Zpos p / 2 ^ n in
  24 <= d -> -149 <= ex + n -> ex + n + 1 <= 104 ->
  exists m e,
    binary_round_aux 24 128 false (Zpos p) ex lx = S754_finite false m e
    /\ 2 ^ 23 <= Zpos m < 2 ^ 24
    /\ ((e = ex + n /\ (Zpos m = q \/ Zpos m = q + 1))
        \/ (e = ex + n + 1 /\ Zpos m = 2 ^ 23 /\ q + 1 = 2 ^ 24)).
Proof.
  intros d n q Hd Hlo Hhi.
  pose proof (digits2_bounds p) as [Hp1 Hp2]. fold d in Hp1, Hp2.
  assert (Hq : 2 ^ 23 <= q < 2 ^ 24).
  { unfold q. split.
    - apply Z.div_le_lower_bound; [lia|].
      rewrite <- Z.pow_add_r by lia. replace (n + 23) with (d - 1) by lia. exact Hp1.
    - apply Z.div_lt_upper_bound; [lia|].
      rewrite <- Z.pow_add_r by lia. replace (n + 24) with d by lia. exact Hp2. }
  unfold binary_round_aux, shr_fexp.
  assert (Hf1 : fexp 24 128 (Zdigits2 (Zpos p) + ex) - ex = n).
  { cbn [Zdigits2]. fold d. unfold fexp, emin. lia. }
  rewrite Hf1.
  destruct (shr_m_shr (shr_record_of_loc (Zpos p) lx) ex n) as [Hm He];
    [rewrite shr_record_m; lia | lia |].
  destruct (shr _ ex n) as [mrs' e'] eqn:Eshr. cbn [fst snd] in Hm, He.
  rewrite shr_record_m in Hm. fold q in Hm. subst e'.
  set (m1 := round_nearest_even (shr_m mrs') (loc_of_shr_record mrs')).
  assert (Hm1 : m1 = q \/ m1 = q + 1).
  { unfold m1. rewrite <- Hm. apply round_nearest_even_cases. }
  destruct (Z_lt_le_dec m1 (2 ^ 24)) as [Hlt|Hge].
  - (* the rounded mantissa still has 24 bits *)
    assert (Hm1pos : 2 ^ 23 <= m1 < 2 ^ 24) by lia.
    destruct m1 as [|pm|pm] eqn:Em1; try lia.
    assert (Hdig : Zdigits2 (Zpos pm) = 24).
    { cbn [Zdigits2]. apply digits2_unique. exact Hm1pos. }
    rewrite Hdig.
    replace (fexp 24 128 (24 + (ex + n)) - (ex + n)) with 0
      by (unfold fexp, emin; lia).
    cbn [shr shr_record_of_loc shr_m].
    replace (ex + n <=? 128 - 24) with true by (symmetry; apply Z.leb_le; lia).
    exists pm, (ex + n). split; [reflexivity|]. split; [exact Hm1pos|].
    left. split; [reflexivity|]. exact Hm1.
  - (* the rounding carried into a 25th bit *)
    assert (Em1 : m1 = 2 ^ 24) by lia.
    rewrite Em1. change (2 ^ 24) with (Zpos (2 ^ 24)%positive).
    cbn [Zdigits2].
    replace (Zpos (digits2_pos (2 ^ 24))) with 25 by reflexivity.
    replace (fexp 24 128 (25 + (ex + n)) - (ex + n)) with 1
      by (unfold fexp, emin; lia).
    cbn [shr shr_record_of_loc SpecFloat.iter_pos shr_1 shr_m Z.add].
    replace (ex + n + 1 <=? 128 - 24) with true by (symmetry; apply Z.leb_le; lia).
    eexists _, (ex + n + 1). split; [reflexivity|].
    split; [cbn; lia|]. right. split; [reflexivity|]. split; [reflexivity|lia].
Qed.



Lemma pow2_pos e : (0 < 2 ^ e)%Q.
Proof. apply Qpower_0_lt. reflexivity. Qed.

Lemma pow2_add a b : (2 ^ (a + b) == 2 ^ a * 2 ^ b)%Q.
Proof. apply Qpower_plus. discriminate. Qed.

Lemma pow2_inject n : 0 <= n -> (inject_Z (2 ^ n) == 2 ^ n)%Q.
Proof. intros Hn. now rewrite Zpower_Qpower. Qed.

Lemma inject_Z_lt a b : a < b -> (inject_Z a < inject_Z b)%Q.
Proof. intros. now rewrite <- Zlt_Qlt. Qed.

Lemma inject_Z_le a b : a <= b -> (inject_Z a <= inject_Z b)%Q.
Proof. intros. now rewrite <- Zle_Qle. Qed.

(** The value that was rounded lies in the cell of the mantissa it was
    given with; the float is then within one part in [2^23] of it. *)
Lemma round_close (p : positive) (ex : Z) (lx : location) (X : Q) :
  let d := Zpos (digits2_pos p) in
  let n := d - 24 in
  24 <= d -> -149 <= ex + n -> ex + n + 1 <= 104 ->
  (inject_Z (Zpos p) * 2 ^ ex <= X)%Q ->
  (X < (inject_Z (Zpos p) + 1) * 2 ^ ex)%Q ->
  exists m e,
    binary_round_aux 24 128 false (Zpos p) ex lx = S754_finite false m e
    /\ 2 ^ 23 <= Zpos m < 2 ^ 24
    /\ ex + n <= e <= ex + n + 1
    /\ (X * (1 - B32.u) <= B32.value m e <= X * (1 + B32.u))%Q.
Proof.
  intros d n Hd Hlo Hhi HX1 HX2.
  destruct (binary_round_aux_normal p ex lx Hd Hlo Hhi) as (m & e & Hr & Hm & Hcases).
  fold d n in Hcases. set (q := Zpos p / 2 ^ n) in *.
  exists m, e. split; [exact Hr|]. split; [exact Hm|].
  split; [destruct Hcases as [[-> _]|[-> _]]; lia|].
  assert (Hn : 0 <= n) by (unfold n; lia).
  set (E := (2 ^ (ex + n))%Q).
  assert (HE : (0 < E)%Q) by apply pow2_pos.
  assert (Hqdiv : 2 ^ n * q <= Zpos p < 2 ^ n * (q + 1)).
  { unfold q. pose proof (Z.mul_div_le (Zpos p) (2 ^ n) ltac:(lia)).
    pose proof (Z.mul_succ_div_gt (Zpos p) (2 ^ n) ltac:(lia)). lia. }
  assert (Hq23 : 2 ^ 23 <= q).
  { destruct Hcases as [[_ [Hq|Hq]]|[_ [_ Hq]]]; [lia| |lia].
    (* m = q + 1 < 2^24 and q >= 2^23 from the digits *)
    unfold q. apply Z.div_le_lower_bound; [lia|].
    rewrite <- Z.pow_add_r by lia. replace (n + 23) with (d - 1) by (unfold n; lia).
    apply digits2_bounds. }
  assert (HEsplit : (E == 2 ^ n * 2 ^ ex)%Q).
  { unfold E. rewrite Z.add_comm. apply pow2_add. }
  assert (HA1 : (inject_Z q * E <= X)%Q).
  { eapply Qle_trans; [|exact HX1]. rewrite HEsplit, Qmult_assoc.
    apply Qmult_le_compat_r; [|apply Qlt_le_weak, pow2_pos].
    rewrite <- pow2_inject, <- inject_Z_mult by assumption.
    apply inject_Z_le. lia. }
  assert (HA2 : (X < (inject_Z q + 1) * E)%Q).
  { eapply Qlt_le_trans; [exact HX2|]. rewrite HEsplit, Qmult_assoc.
    apply Qmult_le_compat_r; [|apply Qlt_le_weak, pow2_pos].
    rewrite <- pow2_inject by assumption.
    change 1%Q with (inject_Z 1). rewrite <- !inject_Z_plus, <- inject_Z_mult.
    apply inject_Z_le. lia. }
  assert (HA3 : (8388608 * E <= inject_Z q * E)%Q).
  { apply Qmult_le_compat_r; [|apply Qlt_le_weak, HE].
    change 8388608%Q with (inject_Z (2 ^ 23)). now apply inject_Z_le. }
  assert (HF : (B32.value m e == inject_Z q * E \/ B32.value m e == (inject_Z q + 1) * E)%Q).
  { unfold B32.value. destruct Hcases as [[-> [Hq|Hq]]|[-> [Hm' Hq]]].
    - left. rewrite Hq. reflexivity.
    - right. rewrite Hq, inject_Z_plus. reflexivity.
    - right. rewrite Hm'. fold E.
      replace (ex + n + 1) with (1 + (ex + n)) by lia. rewrite pow2_add. fold E.
      change 1%Q with (inject_Z 1). rewrite <- inject_Z_plus, Hq.
      change (inject_Z (2 ^ 24)) with (inject_Z (2 ^ 23) * 2 ^ 1)%Q. ring. }
  assert (Hexp : ((inject_Z q + 1) * E == inject_Z q * E + E)%Q) by ring.
  rewrite Hexp in HA2, HF. clear Hexp.
  unfold B32.u. set (A := (inject_Z q * E)%Q) in *.
  destruct HF as [HF|HF]; rewrite HF; split; lra.
Qed.


Lemma value_pos m e : (0 < B32.value m e)%Q.
Proof.
  unfold B32.value. apply Qmult_lt_0_compat; [|apply pow2_pos].
  change 0%Q with (inject_Z 0). apply inject_Z_lt. lia.
Qed.

Lemma near_weaken x X a b lo hi a' b' lo' hi' :
  B32.near x X a b lo hi ->
  (a' <= a)%Q -> (b <= b')%Q -> lo' <= lo -> hi <= hi' ->
  B32.near x X a' b' lo' hi'.
Proof.
  intros (m & e & Hx & Hm & He & HX & Hv) Ha Hb Hlo Hhi.
  exists m, e. repeat split; try assumption; try lia.
  - eapply Qle_trans; [|apply Hv]. apply Qmult_le_l; assumption.
  - eapply Qle_trans; [apply Hv|]. apply Qmult_le_l; assumption.
Qed.

Lemma digits_of_range (p : positive) (k : Z) :
  2 ^ (k - 2) <= Zpos p < 2 ^ k -> 2 <= k ->
  Zpos (digits2_pos p) = k - 1 \/ Zpos (digits2_pos p) = k.
Proof.
  intros [Hlo Hhi] Hk.
  destruct (Z_lt_le_dec (Zpos p) (2 ^ (k - 1))) as [Hlt|Hge].
  - left. apply digits2_unique. replace (k - 1 - 1) with (k - 2) by lia. lia.
  - right. apply digits2_unique. lia.
Qed.

Lemma near_mul x y X Y a b c d l h l' h' :
  B32.near x X a b l h -> B32.near y Y c d l' h' ->
  (0 <= a)%Q -> (0 <= c)%Q ->
  -149 <= l + l' + 23 -> h + h' + 25 <= 104 ->
  B32.near (B32.mul x y) (X * Y) (a * c * (1 - B32.u)) (b * d * (1 + B32.u))
       (l + l' + 23) (h + h' + 25).
Proof.
  intros (m1 & e1 & -> & Hm1 & He1 & HX & Hv1) (m2 & e2 & -> & Hm2 & He2 & HY & Hv2)
         Ha Hc Hlo Hhi.
  unfold B32.mul, SFmul. cbn [xorb].
  assert (Hp : 2 ^ (48 - 2) <= Zpos (m1 * m2) < 2 ^ 48).
  { rewrite Pos2Z.inj_mul. change (2 ^ (48 - 2)) with (2 ^ 23 * 2 ^ 23).
    change (2 ^ 48) with (2 ^ 24 * 2 ^ 24). nia. }
  apply digits_of_range in Hp as Hd; [|lia].
  set (P := (B32.value m1 e1 * B32.value m2 e2)%Q).
  assert (HP : (P == inject_Z (Zpos (m1 * m2)) * 2 ^ (e1 + e2))%Q).
  { unfold P, B32.value. rewrite Pos2Z.inj_mul, inject_Z_mult, pow2_add. ring. }
  destruct (round_close (m1 * m2) (e1 + e2) loc_Exact P) as (m & e & Hr & Hm & He & Hv).
  - lia.
  - lia.
  - lia.
  - rewrite HP. apply Qle_refl.
  - rewrite HP. pose proof (pow2_pos (e1 + e2)). lra.
  - exists m, e. split; [exact Hr|]. split; [exact Hm|]. split; [lia|].
    split; [now apply Qmult_lt_0_compat|].
    pose proof (value_pos m1 e1). pose proof (value_pos m2 e2).
    assert (HXa : (0 <= X * a)%Q) by (apply Qmult_le_0_compat; lra).
    assert (HYc : (0 <= Y * c)%Q) by (apply Qmult_le_0_compat; lra).
    assert (HPlo : (X * a * (Y * c) <= P)%Q).
    { unfold P. apply Qmult_le_compat_nonneg; split; try assumption; apply Hv1 || apply Hv2. }
    assert (HPhi : (P <= X * b * (Y * d))%Q).
    { unfold P. apply Qmult_le_compat_nonneg; split; try lra; apply Hv1 || apply Hv2. }
    unfold B32.u in *. split.
    + apply Qle_trans with (P * (1 - (1 # 8388608)))%Q; [|apply Hv].
      assert (E : (X * Y * (a * c * (1 - (1 # 8388608)))
                   == X * a * (Y * c) * (1 - (1 # 8388608)))%Q) by ring.
      rewrite E.
      apply Qmult_le_compat_r; [assumption|lra].
    + apply Qle_trans with (P * (1 + (1 # 8388608)))%Q; [apply Hv|].
      assert (E : (X * Y * (b * d * (1 + (1 # 8388608)))
                   == X * b * (Y * d) * (1 + (1 # 8388608)))%Q) by ring.
      rewrite E.
      apply Qmult_le_compat_r; [assumption|lra].
Qed.

Lemma Qmult_le_l_nonneg (x y z : Q) : (0 <= z -> x <= y -> z * x <= z * y)%Q.
Proof.
  intros Hz Hxy. rewrite (Qmult_comm z x), (Qmult_comm z y).
  now apply Qmult_le_compat_r.
Qed.

Lemma div_eucl_div_mod a b : Z.div_eucl a b = (a / b, a mod b).
Proof. unfold Z.div, Z.modulo. now destruct (Z.div_eucl a b). Qed.

Lemma div_core_normal (m1 m2 : positive) (e1 e2 : Z) :
  2 ^ 23 <= Zpos m1 < 2 ^ 24 -> 2 ^ 23 <= Zpos m2 < 2 ^ 24 ->
  -149 <= e1 - e2 - 24 ->
  SFdiv_core_binary 24 128 (Zpos m1) e1 (Zpos m2) e2
  = (Zpos m1 * 2 ^ 24 / Zpos m2, e1 - e2 - 24,
     new_location (Zpos m2) ((Zpos m1 * 2 ^ 24) mod Zpos m2)).
Proof.
  intros H1 H2 He. unfold SFdiv_core_binary. cbn [Zdigits2].
  rewrite (digits2_unique m1 24), (digits2_unique m2 24) by (cbn; lia).
  replace (Z.min (fexp 24 128 (24 + e1 - (24 + e2))) (e1 - e2)) with (e1 - e2 - 24)
    by (unfold fexp, emin; lia).
  replace (e1 - e2 - (e1 - e2 - 24)) with 24 by lia.
  rewrite Z.shiftl_mul_pow2 by lia. rewrite div_eucl_div_mod. reflexivity.
Qed.

Lemma near_div x y X Y a b c d l h l' h' :
  B32.near x X a b l h -> B32.near y Y c d l' h' ->
  (0 <= a)%Q -> (0 < c)%Q ->
  -149 <= l - h' - 24 -> h - l' - 22 <= 104 ->
  B32.near (B32.div x y) (X / Y) (a / d * (1 - B32.u)) (b / c * (1 + B32.u))
       (l - h' - 24) (h - l' - 22).
Proof.
  intros (m1 & e1 & -> & Hm1 & He1 & HX & Hv1) (m2 & e2 & -> & Hm2 & He2 & HY & Hv2)
         Ha Hc Hlo Hhi.
  unfold B32.div, SFdiv. cbn [xorb].
  rewrite div_core_normal by (assumption || lia).
  set (q := Zpos m1 * 2 ^ 24 / Zpos m2).
  assert (Hq : 2 ^ 23 <= q < 2 ^ 25).
  { unfold q. split.
    - apply Z.div_le_lower_bound; [lia|]. change (2 ^ 23) with 8388608 in *.
      change (2 ^ 24) with 16777216 in *. lia.
    - apply Z.div_lt_upper_bound; [lia|]. change (2 ^ 23) with 8388608 in *.
      change (2 ^ 24) with 16777216 in *. change (2 ^ 25) with 33554432. lia. }
  destruct q as [|pq|pq] eqn:Eq; try lia.
  assert (Hd : Zpos (digits2_pos pq) = 25 - 1 \/ Zpos (digits2_pos pq) = 25)
    by (apply digits_of_range; [exact Hq|lia]).
  pose proof (value_pos m1 e1) as HF1. pose proof (value_pos m2 e2) as HF2.
  set (P := (B32.value m1 e1 / B32.value m2 e2)%Q).
  set (T := (inject_Z (Zpos m1 * 2 ^ 24) / inject_Z (Zpos m2))%Q).
  assert (Hm2pos : (0 < inject_Z (Zpos m2))%Q)
    by (change 0%Q with (inject_Z 0); apply inject_Z_lt; lia).
  assert (HPT : (P == T * 2 ^ (e1 - e2 - 24))%Q).
  { unfold P, T, B32.value. rewrite inject_Z_mult.
    replace e1 with (24 + ((e1 - e2 - 24) + e2)) at 1 by lia.
    rewrite !pow2_add. change (inject_Z (2 ^ 24)) with (2 ^ 24)%Q.
    pose proof (pow2_pos e2). field. split; lra. }
  assert (Hmod : Zpos pq * Zpos m2 <= Zpos m1 * 2 ^ 24 < (Zpos pq + 1) * Zpos m2).
  { rewrite <- Eq. unfold q.
    pose proof (Z.mul_div_le (Zpos m1 * 2 ^ 24) (Zpos m2) ltac:(lia)).
    pose proof (Z.mul_succ_div_gt (Zpos m1 * 2 ^ 24) (Zpos m2) ltac:(lia)). lia. }
  assert (HT1 : (inject_Z (Zpos pq) <= T)%Q).
  { unfold T. apply Qle_shift_div_l; [exact Hm2pos|].
    rewrite <- inject_Z_mult. apply inject_Z_le. lia. }
  assert (HT2 : (T < inject_Z (Zpos pq) + 1)%Q).
  { unfold T. apply Qlt_shift_div_r; [exact Hm2pos|].
    change 1%Q with (inject_Z 1). rewrite <- inject_Z_plus, <- inject_Z_mult.
    apply inject_Z_lt. lia. }
  destruct (round_close pq (e1 - e2 - 24)
              (new_location (Zpos m2) ((Zpos m1 * 2 ^ 24) mod Zpos m2)) P)
    as (m & e & Hr & Hm & He & Hv).
  - lia.
  - lia.
  - lia.
  - rewrite HPT. apply Qmult_le_compat_r; [exact HT1|apply Qlt_le_weak, pow2_pos].
  - rewrite HPT. apply Qmult_lt_compat_r; [apply pow2_pos|exact HT2].
  - exists m, e. split; [exact Hr|]. split; [exact Hm|]. split; [lia|].
    assert (HXY : (0 < X / Y)%Q).
    { apply Qlt_shift_div_l; [exact HY|]. lra. }
    split; [exact HXY|].
    assert (Hdpos : (0 < d)%Q).
    { destruct (Qlt_le_dec 0 d) as [|Hn]; [assumption|exfalso].
      assert ((Y * d <= 0)%Q).
      { rewrite <- (Qmult_0_r Y). apply Qmult_le_l; assumption. }
      destruct Hv2. lra. }
    assert (HYd : (0 < Y * d)%Q) by now apply Qmult_lt_0_compat.
    assert (HYc : (0 < Y * c)%Q) by now apply Qmult_lt_0_compat.
    assert (HXa : (0 <= X * a)%Q) by (apply Qmult_le_0_compat; lra).
    assert (HPlo : (X / Y * (a / d) <= P)%Q).
    { unfold P. apply Qle_shift_div_l; [exact HF2|].
      assert (E : (X / Y * (a / d) * B32.value m2 e2 == X * a * (B32.value m2 e2 / (Y * d)))%Q)
        by (field; split; lra).
      rewrite E. apply Qle_trans with (X * a * 1)%Q; [|destruct Hv1; lra].
      apply Qmult_le_l_nonneg; [exact HXa|].
      apply Qle_shift_div_r; [exact HYd|]. destruct Hv2. lra. }
    assert (HPhi : (P <= X / Y * (b / c))%Q).
    { unfold P. apply Qle_shift_div_r; [exact HF2|].
      assert (E : (X / Y * (b / c) * B32.value m2 e2 == X * b * (B32.value m2 e2 / (Y * c)))%Q)
        by (field; split; lra).
      rewrite E. apply Qle_trans with (X * b * 1)%Q; [destruct Hv1; lra|].
      apply Qmult_le_l_nonneg; [destruct Hv1; lra|].
      apply Qle_shift_div_l; [exact HYc|]. destruct Hv2. lra. }
    unfold B32.u in *. split.
    + apply Qle_trans with (P * (1 - (1 # 8388608)))%Q; [|apply Hv].
      rewrite Qmult_assoc. apply Qmult_le_compat_r; [assumption|lra].
    + apply Qle_trans with (P * (1 + (1 # 8388608)))%Q; [apply Hv|].
      rewrite Qmult_assoc. apply Qmult_le_compat_r; [assumption|lra].
Qed.


Lemma iter_xO_pow (p s : positive) : Zpos (Pos.iter xO p s) = Zpos p * 2 ^ Zpos s.
Proof.
  change (Pos.iter xO p s) with (shift_pos s p).
  rewrite shift_pos_correct. change (Zpower_pos 2 s) with (2 ^ Zpos s). lia.
Qed.

Lemma near_of_int k :
  0 < k < 2 ^ 31 ->
  B32.near (B32.of_int k) (inject_Z k) (1 - B32.u) (1 + B32.u) (-23) 8.
Proof.
  intros Hk. destruct k as [|pk|pk]; try lia.
  unfold B32.of_int, binary_normalize, binary_round, B32.prec, B32.emax.
  pose proof (digits2_bounds pk) as Hd. set (dk := Zpos (digits2_pos pk)) in *.
  assert (Hdk : 1 <= dk <= 31).
  { split; [unfold dk; lia|].
    destruct (Z_lt_le_dec 31 dk) as [Hgt|]; [|assumption].
    assert (2 ^ 31 <= 2 ^ (dk - 1)) by (apply Z.pow_le_mono_r; lia). lia. }
  replace (fexp 24 128 (dk + 0)) with (dk - 24) by (unfold fexp, emin; lia).
  pose proof (pow2_pos 0) as H0.
  assert (HkX : (0 < inject_Z (Zpos pk))%Q)
    by (change 0%Q with (inject_Z 0); apply inject_Z_lt; lia).
  unfold shl_align. destruct (dk - 24 - 0) as [|s|s] eqn:Es.
  - (* 24 bits: nothing to shift *)
    destruct (round_close pk 0 loc_Exact (inject_Z (Zpos pk))) as (m & e & Hr & Hm & He & Hv);
      fold dk; try lia.
    + change (2 ^ 0)%Q with 1%Q. rewrite Qmult_1_r. apply Qle_refl.
    + change (2 ^ 0)%Q with 1%Q. lra.
    + fold dk in He. exists m, e. repeat split; try assumption; try lia; apply Hv.
  - (* more than 24 bits: the low ones are rounded away *)
    destruct (round_close pk 0 loc_Exact (inject_Z (Zpos pk))) as (m & e & Hr & Hm & He & Hv);
      fold dk; try lia.
    + change (2 ^ 0)%Q with 1%Q. rewrite Qmult_1_r. apply Qle_refl.
    + change (2 ^ 0)%Q with 1%Q. lra.
    + fold dk in He. exists m, e. repeat split; try assumption; try lia; apply Hv.
  - (* fewer than 24 bits: the mantissa is shifted left, exactly *)
    assert (Hs : Zpos s = 24 - dk) by lia.
    assert (Hmz : Zpos (Pos.iter xO pk s) = Zpos pk * 2 ^ (24 - dk))
      by (rewrite iter_xO_pow, Hs; reflexivity).
    assert (Hdz : Zpos (digits2_pos (Pos.iter xO pk s)) = 24).
    { apply digits2_unique. rewrite Hmz.
      replace (2 ^ (24 - 1)) with (2 ^ (dk - 1) * 2 ^ (24 - dk))
        by (rewrite <- Z.pow_add_r by lia; f_equal; lia).
      replace (2 ^ 24) with (2 ^ dk * 2 ^ (24 - dk))
        by (rewrite <- Z.pow_add_r by lia; f_equal; lia).
      assert (0 < 2 ^ (24 - dk)) by (apply Z.pow_pos_nonneg; lia). nia. }
    assert (HX : (inject_Z (Zpos pk)
                  == inject_Z (Zpos (Pos.iter xO pk s)) * 2 ^ (dk - 24))%Q).
    { rewrite Hmz, inject_Z_mult, pow2_inject by lia.
      rewrite <- Qmult_assoc, <- pow2_add.
      replace (24 - dk + (dk - 24)) with 0 by lia. change (2 ^ 0)%Q with 1%Q. ring. }
    destruct (round_close (Pos.iter xO pk s) (dk - 24) loc_Exact (inject_Z (Zpos pk)))
      as (m & e & Hr & Hm & He & Hv); rewrite ?Hdz; try lia.
    + rewrite <- HX. apply Qle_refl.
    + rewrite Qmult_plus_distr_l, <- HX. pose proof (pow2_pos (dk - 24)). lra.
    + rewrite Hdz in He. exists m, e. repeat split; try assumption; try lia; apply Hv.
Qed.

Lemma near_two : B32.near B32.two 2 1 1 (-22) (-22).
Proof.
  exists 8388608%positive, (-22). repeat split; try lia; try reflexivity;
    unfold B32.value; cbn; apply Qle_bool_imp_le; reflexivity.
Qed.

(** ** The metric on binary32 *)


Lemma switching_near (k nT : Z) :
  0 < k < nT -> nT < 2 ^ 31 ->
  B32.near (switching_expr (F:=spec_float) k nT)
    (2 * inject_Z k / inject_Z nT * inject_Z (nT - k) / inject_Z nT)
    c_lo c_hi (-86) 46.
Proof.
  intros Hk HnT. unfold switching_expr. cbn [f_two f_of_int f_mul f_div binary32_ops].
  replace (CInt.sub nT k) with (nT - k)
    by (symmetry; apply wrap_small; unfold CInt.INT_MIN, CInt.INT_MAX;
        change (2 ^ 31) with 2147483648 in HnT; lia).
  pose proof (near_of_int k ltac:(lia)) as HK.
  pose proof (near_of_int nT ltac:(lia)) as HN.
  pose proof (near_of_int (nT - k) ltac:(lia)) as HM.
  pose proof (near_mul _ _ _ _ _ _ _ _ _ _ _ _ near_two HK
                ltac:(qcompute) ltac:(qcompute) ltac:(lia) ltac:(lia)) as H1.
  pose proof (near_div _ _ _ _ _ _ _ _ _ _ _ _ H1 HN
                ltac:(qcompute) ltac:(qcompute) ltac:(lia) ltac:(lia)) as H2.
  pose proof (near_mul _ _ _ _ _ _ _ _ _ _ _ _ H2 HM
                ltac:(qcompute) ltac:(qcompute) ltac:(lia) ltac:(lia)) as H3.
  pose proof (near_div _ _ _ _ _ _ _ _ _ _ _ _ H3 HN
                ltac:(qcompute) ltac:(qcompute) ltac:(lia) ltac:(lia)) as H4.
  eapply near_weaken; [exact H4| | |lia|lia]; qcompute.
Qed.


(** *** Counting ones *)

Lemma count_fold_range (f : nat -> bool) (l : list nat) :
  0 <= fold_right (fun i n => (if f i then 1 else 0) + n) 0 l <= Z.of_nat (length l).
Proof.
  induction l as [|i l IH]; cbn [fold_right length]; [lia|].
  destruct (f i); lia.
Qed.

Lemma count_bits_range w : 0 <= count_bits w <= 32.
Proof.
  unfold count_bits.
  pose proof (count_fold_range (fun i => Z.testbit w (Z.of_nat i)) (seq 0 32)) as H.
  rewrite length_seq in H. exact H.
Qed.

Lemma count_words_range (l : list Z) :
  0 <= fold_right (fun w n => count_bits w + n) 0 l <= 32 * Z.of_nat (length l).
Proof.
  induction l as [|w l IH]; cbn [fold_right length]; [lia|].
  pose proof (count_bits_range w). lia.
Qed.

Lemma Sim_UtilCountOnes_range pSimInfo nSimWords :
  0 <= nSimWords ->
  0 <= Sim_UtilCountOnes pSimInfo nSimWords <= 32 * nSimWords.
Proof.
  intros Hw. unfold Sim_UtilCountOnes.
  pose proof (count_words_range (take (Z.to_nat nSimWords) pSimInfo)) as H.
  rewrite length_take in H. lia.
Qed.

Lemma count_fold_negb (f : nat -> bool) (l : list nat) :
  fold_right (fun i n => (if negb (f i) then 1 else 0) + n) 0 l
  = Z.of_nat (length l) - fold_right (fun i n => (if f i then 1 else 0) + n) 0 l.
Proof.
  induction l as [|i l IH]; cbn [fold_right length]; [lia|].
  rewrite IH. destruct (f i); cbn [negb]; lia.
Qed.

Lemma count_fold_ext (f g : nat -> bool) (l : list nat) :
  Forall (fun i => f i = g i) l ->
  fold_right (fun i n => (if f i then 1 else 0) + n) 0 l
  = fold_right (fun i n => (if g i then 1 else 0) + n) 0 l.
Proof.
  induction 1 as [|i l Hi _ IH]; cbn [fold_right]; [reflexivity|].
  now rewrite Hi, IH.
Qed.

Lemma count_bits_not w : count_bits (word_not w) = 32 - count_bits w.
Proof.
  unfold count_bits, word_not.
  rewrite (count_fold_ext _ (fun i => negb (Z.testbit w (Z.of_nat i)))).
  - rewrite count_fold_negb, length_seq. reflexivity.
  - apply Forall_forall. intros i Hi. apply elem_of_seq in Hi.
    rewrite Z.lxor_spec.
    assert (E : Z.testbit 4294967295 (Z.of_nat i) = true).
    { change 4294967295 with (Z.ones 32). apply Z.ones_spec_low. lia. }
    rewrite E. apply xorb_true_r.
Qed.

Lemma count_words_not (l : list Z) :
  fold_right (fun w n => count_bits w + n) 0 (map word_not l)
  = 32 * Z.of_nat (length l) - fold_right (fun w n => count_bits w + n) 0 l.
Proof.
  induction l as [|w l IH]; cbn [fold_right length map]; [lia|].
  rewrite IH, count_bits_not. lia.
Qed.

Lemma Sim_UtilCountOnes_not pSimInfo nSimWords :
  length pSimInfo = Z.to_nat nSimWords -> 0 <= nSimWords ->
  Sim_UtilCountOnes (map word_not pSimInfo) nSimWords
  = 32 * nSimWords - Sim_UtilCountOnes pSimInfo nSimWords.
Proof.
  intros Hlen Hw. unfold Sim_UtilCountOnes.
  rewrite !take_ge by (rewrite ?length_map; lia).
  rewrite count_words_not, Hlen. lia.
Qed.

(** *** The exact value *)

Lemma exact_expr k nT :
  nT <> 0 -> CInt.INT_MIN <= nT - k <= CInt.INT_MAX ->
  (switching_expr (F:=Q) k nT == switching_formula k nT)%Q.
Proof.
  intros HnT Hr. unfold switching_expr, switching_formula.
  cbn [f_two f_of_int f_mul f_div exact_ops].
  unfold CInt.sub. rewrite wrap_small by assumption.
  unfold Z.sub. rewrite inject_Z_plus, inject_Z_opp.
  assert (~ inject_Z nT == 0)%Q.
  { intros E. apply HnT. unfold Qeq in E. cbn in E. lia. }
  field. assumption.
Qed.

Lemma formula_range k nT :
  0 <= k <= nT -> 0 < nT -> (0 <= switching_formula k nT <= 1 # 2)%Q.
Proof.
  intros Hk HnT. unfold switching_formula.
  set (p := (inject_Z k / inject_Z nT)%Q).
  assert (HnTQ : (0 < inject_Z nT)%Q)
    by (change 0%Q with (inject_Z 0); rewrite <- Zlt_Qlt; lia).
  assert (Hp : (0 <= p <= 1)%Q).
  { unfold p. split.
    - apply Qle_shift_div_l; [assumption|]. rewrite Qmult_0_l.
      change 0%Q with (inject_Z 0). rewrite <- Zle_Qle. lia.
    - apply Qle_shift_div_r; [assumption|]. rewrite Qmult_1_l.
      rewrite <- Zle_Qle. lia. }
  assert (Hsq : (0 <= (p - (1 # 2)) * (p - (1 # 2)))%Q).
  { destruct (Qlt_le_dec p (1 # 2)).
    - assert (E : ((p - (1 # 2)) * (p - (1 # 2)) == ((1 # 2) - p) * ((1 # 2) - p))%Q) by ring.
      rewrite E. apply Qmult_le_0_compat; lra.
    - apply Qmult_le_0_compat; lra. }
  assert (Hpp : (0 <= p * (1 - p))%Q) by (apply Qmult_le_0_compat; lra).
  split; lra.
Qed.

(** *** The binary32 value *)

Lemma near_to_Q x X a b lo hi :
  B32.near x X a b lo hi ->
  exists v, B32.to_Q x = Some v /\ (X * a <= v <= X * b)%Q.
Proof.
  intros (m & e & -> & _ & _ & _ & Hv). exists (B32.value m e). split; [reflexivity|exact Hv].
Qed.

Lemma near_finite x X a b lo hi :
  B32.near x X a b lo hi -> exists m e, x = S754_finite false m e.
Proof. intros (m & e & -> & _). eauto. Qed.

Lemma switching_zero (k nT : Z) :
  0 < nT < 2 ^ 31 -> k = 0 \/ k = nT ->
  switching_expr (F:=spec_float) k nT = B32.zero.
Proof.
  intros HnT Hk. unfold switching_expr. cbn [f_two f_of_int f_mul f_div binary32_ops].
  destruct (near_finite _ _ _ _ _ _ (near_of_int nT HnT)) as (mN & eN & HN).
  destruct Hk as [-> | ->].
  - replace (CInt.sub nT 0) with nT
      by (symmetry; unfold CInt.sub; rewrite Z.sub_0_r; apply wrap_small;
          unfold CInt.INT_MIN, CInt.INT_MAX; change (2 ^ 31) with 2147483648 in HnT; lia).
    rewrite HN. reflexivity.
  - replace (CInt.sub nT nT) with 0 by (unfold CInt.sub; now rewrite Z.sub_diag).
    pose proof (near_mul _ _ _ _ _ _ _ _ _ _ _ _ near_two (near_of_int nT HnT)
                  ltac:(qcompute) ltac:(qcompute) ltac:(lia) ltac:(lia)) as H1.
    pose proof (near_div _ _ _ _ _ _ _ _ _ _ _ _ H1 (near_of_int nT HnT)
                  ltac:(qcompute) ltac:(qcompute) ltac:(lia) ltac:(lia)) as H2.
    destruct (near_finite _ _ _ _ _ _ H2) as (m2 & e2 & E2).
    rewrite E2, HN. reflexivity.
Qed.

Lemma switching_close (k nT : Z) :
  0 < k < nT -> nT < 2 ^ 31 ->
  exists v,
    B32.to_Q (switching_expr (F:=spec_float) k nT) = Some v
    /\ (switching_formula k nT * (1 - eps) <= v <= switching_formula k nT * (1 + eps))%Q.
Proof.
  intros Hk HnT.
  pose proof (switching_near k nT Hk HnT) as Hn.
  assert (Hn' : B32.near (switching_expr (F:=spec_float) k nT)
                  (2 * inject_Z k / inject_Z nT * inject_Z (nT - k) / inject_Z nT)
                  (1 - eps) (1 + eps) (-86) 46).
  { eapply near_weaken; [exact Hn| | |lia|lia]; qcompute. }
  destruct (near_to_Q _ _ _ _ _ _ Hn') as (v & Hv & Hb).
  exists v. split; [exact Hv|].
  assert (E : (2 * inject_Z k / inject_Z nT * inject_Z (nT - k) / inject_Z nT
               == switching_formula k nT)%Q).
  { unfold switching_formula. unfold Z.sub. rewrite inject_Z_plus, inject_Z_opp.
    assert (~ inject_Z nT == 0)%Q by (intros E; unfold Qeq in E; cbn in E; lia).
    field. assumption. }
  rewrite <- E. exact Hb.
Qed.

(** Whatever the buffer, the metric is a number between 0 and 1. *)
Lemma switching_unit (k nT : Z) :
  0 <= k <= nT -> 0 < nT < 2 ^ 31 ->
  exists v,
    B32.to_Q (switching_expr (F:=spec_float) k nT) = Some v
    /\ (switching_formula k nT * (1 - eps) <= v <= switching_formula k nT * (1 + eps))%Q
    /\ (0 <= v <= (1 # 2) * (1 + eps))%Q.
Proof.
  intros Hk HnT. pose proof (formula_range k nT Hk ltac:(lia)) as Hf.
  destruct (Z.eq_dec k 0) as [E0|N0]; [|destruct (Z.eq_dec k nT) as [E1|N1]].
  - rewrite (switching_zero k nT HnT (or_introl E0)). exists 0%Q.
    split; [reflexivity|].
    assert (Ez : (switching_formula k nT == 0)%Q).
    { subst k. unfold switching_formula. change (inject_Z 0) with 0%Q.
      unfold Qdiv. ring. }
    rewrite Ez. unfold eps. split; split; lra.
  - rewrite (switching_zero k nT HnT (or_intror E1)). exists 0%Q.
    split; [reflexivity|].
    assert (Ez : (switching_formula k nT == 0)%Q).
    { subst k. unfold switching_formula.
      assert (~ inject_Z nT == 0)%Q by (intros E; unfold Qeq in E; cbn in E; lia).
      field. assumption. }
    rewrite Ez. unfold eps. split; split; lra.
  - destruct (switching_close k nT ltac:(lia) ltac:(lia)) as (v & Hv & Hb).
    exists v. split; [exact Hv|]. split; [exact Hb|].
    unfold eps in *. destruct Hf as [Hf0 Hf1], Hb as [Hb0 Hb1]. split.
    + eapply Qle_trans; [|exact Hb0]. apply Qmult_le_0_compat; lra.
    + eapply Qle_trans; [exact Hb1|]. apply Qmult_le_compat_r; lra.
Qed.

Lemma mul_32_words (nSimWords : Z) :
  1 <= nSimWords -> 32 * nSimWords <= CInt.INT_MAX ->
  CInt.mul 32 nSimWords = 32 * nSimWords /\ 0 < 32 * nSimWords < 2 ^ 31.
Proof.
  intros H1 H2. unfold CInt.mul. rewrite wrap_small.
  - unfold CInt.INT_MAX in H2. change (2 ^ 31) with 2147483648. lia.
  - unfold CInt.INT_MIN, CInt.INT_MAX in *. lia.
Qed.

Lemma Sim_ComputeSwitching_unit (pSimInfo : list Z) (nSimWords : Z) :
  1 <= nSimWords -> 32 * nSimWords <= CInt.INT_MAX ->
  B32.unit_interval (Sim_ComputeSwitching (F:=spec_float) pSimInfo nSimWords).
Proof.
  intros H1 H2. destruct (mul_32_words nSimWords H1 H2) as [E HnT].
  unfold Sim_ComputeSwitching. cbv zeta. rewrite E.
  pose proof (Sim_UtilCountOnes_range pSimInfo nSimWords ltac:(lia)) as Hk.
  destruct (switching_unit _ _ Hk HnT) as (v & Hv & _ & Hr).
  exists v. split; [exact Hv|]. unfold eps in Hr. split; lra.
Qed.

Lemma store_in {A} (a : list A) (i : Z) (v : A) :
  0 <= i < Z.of_nat (length a) -> store a i v = Some (<[Z.to_nat i := v]> a).
Proof.
  intros Hi. unfold store.
  destruct (0 <=? i) eqn:E1; [|lia]. destruct (i <? Z.of_nat (length a)) eqn:E2; [|lia].
  reflexivity.
Qed.

Lemma load_in {A} (a : list A) (i : Z) :
  0 <= i < Z.of_nat (length a) -> exists v, load a i = Some v.
Proof.
  intros Hi. unfold load. destruct (0 <=? i) eqn:E1; [|lia].
  apply lookup_lt_is_Some. lia.
Qed.

Section UnitInterval.
Variables (nSimWords : Z) (N : nat).
Hypothesis words_pos : 1 <= nSimWords.
Hypothesis words_int : 32 * nSimWords <= CInt.INT_MAX.

Lemma simulate_cis_unit (cis : list Abc_Obj) :
  forall rand pos (vSimInfo : list (list Z)) (pSwitching : list spec_float),
    Forall (fun o => 0 <= Id o < Z.of_nat N) cis ->
    length vSimInfo = N -> length pSwitching = N ->
    Forall B32.unit_interval pSwitching ->
    exists vSimInfo' pSwitching',
      simulate_cis cis nSimWords rand pos vSimInfo pSwitching
      = Some (vSimInfo', pSwitching')
      /\ length vSimInfo' = N /\ length pSwitching' = N
      /\ Forall B32.unit_interval pSwitching'.
Proof.
  induction cis as [|pNode cis IH]; intros rand pos vs ps Hc Hvs Hps Hu.
  - exists vs, ps. repeat split; assumption.
  - apply Forall_cons in Hc as [Hid Hc]. cbn [simulate_cis].
    unfold Sim_UtilSetRandom.
    rewrite (store_in vs) by (rewrite Hvs; exact Hid).
    rewrite (store_in ps) by (rewrite Hps; exact Hid).
    apply IH; [exact Hc|now rewrite length_insert..|].
    apply Forall_insert; [exact Hu|].
    apply Sim_ComputeSwitching_unit; assumption.
Qed.

Lemma simulate_nodes_unit (vNodes : list Abc_Obj) :
  forall (vSimInfo : list (list Z)) (pSwitching : list spec_float),
    Forall (fun o => 0 <= Id o < Z.of_nat N) vNodes ->
    Forall (fun o => 0 <= FaninId0 o < Z.of_nat N /\ 0 <= FaninId1 o < Z.of_nat N) vNodes ->
    length vSimInfo = N -> length pSwitching = N ->
    Forall B32.unit_interval pSwitching ->
    exists pSwitching',
      simulate_nodes vNodes nSimWords vSimInfo pSwitching = Some pSwitching'
      /\ length pSwitching' = N
      /\ Forall B32.unit_interval pSwitching'.
Proof.
  induction vNodes as [|pNode vNodes IH]; intros vs ps Hc Hf Hvs Hps Hu.
  - exists ps. repeat split; assumption.
  - apply Forall_cons in Hc as [Hid Hc]. apply Forall_cons in Hf as [[Hf0 Hf1] Hf].
    cbn [simulate_nodes]. unfold Sim_UtilSimulateNodeOne.
    destruct (load_in vs (FaninId0 pNode)) as (p1 & ->); [rewrite Hvs; exact Hf0|].
    destruct (load_in vs (FaninId1 pNode)) as (p2 & ->); [rewrite Hvs; exact Hf1|].
    rewrite (store_in vs) by (rewrite Hvs; exact Hid).
    destruct (load_in (<[Z.to_nat (Id pNode) := 
                map (fun '(a, b) =>
                       word_and (if FaninC0 pNode then word_not a else a)
                                (if FaninC1 pNode then word_not b else b)) (zip p1 p2)]> vs)
                (Id pNode)) as (pSimInfo & ->);
      [rewrite length_insert, Hvs; exact Hid|].
    rewrite (store_in ps) by (rewrite Hps; exact Hid).
    apply IH; [exact Hc|exact Hf|now rewrite length_insert..|].
    apply Forall_insert; [exact Hu|].
    apply Sim_ComputeSwitching_unit; assumption.
Qed.
End UnitInterval.

Lemma zero_unit : B32.unit_interval B32.zero.
Proof. exists 0%Q. split; [reflexivity|]. split; lra. Qed.

Lemma words_of_patterns (nPatterns : Z) :
  1 <= nPatterns <= CInt.INT_MAX - 31 ->
  1 <= SIM_NUM_WORDS nPatterns /\ 32 * SIM_NUM_WORDS nPatterns <= CInt.INT_MAX.
Proof.
  unfold SIM_NUM_WORDS, CInt.INT_MAX. intros Hn.
  pose proof (Z.div_mod (nPatterns + 31) 32 ltac:(lia)) as E.
  pose proof (Z.mod_pos_bound (nPatterns + 31) 32 ltac:(lia)). lia.
Qed.

(** C8. For every network and every pattern count [nPatterns >= 1] whose
    rounding up to whole words fits an [int], [Sim_NtkComputeSwitching]
    returns a vector, and its entry of every combinational input and of
    every internal node is a binary32 number between 0 and 1. *)
Theorem switching_vector_unit_interval (pNtk : Abc_Ntk) (nPatterns : Z)
    (rand : nat -> Z) (junk : list (list Z)) :
  valid_ntk pNtk ->
  1 <= nPatterns <= CInt.INT_MAX - 31 ->
  length junk = Z.to_nat (Abc_NtkObjNumMax pNtk) ->
  exists vSwitching,
    Sim_NtkComputeSwitching B32.zero pNtk nPatterns rand junk = Some vSwitching
    /\ forall pNode, pNode ∈ vCis pNtk ++ Abc_AigDfs pNtk ->
         exists x, load vSwitching (Id pNode) = Some x /\ B32.unit_interval x.
Proof.
  intros Hv Hn Hj. destruct (words_of_patterns nPatterns Hn) as [Hw1 Hw2].
  unfold Sim_NtkComputeSwitching. cbv zeta.
  set (N := Z.to_nat (Abc_NtkObjNumMax pNtk)).
  assert (Hids : forall l, Forall (fun o => 0 <= Id o < Abc_NtkObjNumMax pNtk) l ->
                           Forall (fun o => 0 <= Id o < Z.of_nat N) l).
  { intros l Hl. eapply Forall_impl; [exact Hl|]. intros o Ho. cbn in *. lia. }
  destruct (simulate_cis_unit (SIM_NUM_WORDS nPatterns) N Hw1 Hw2 (vCis pNtk) rand 0%nat junk
              (replicate N B32.zero))
    as (vs & ps & -> & Hvs & Hps & Hu).
  - apply Hids, (valid_cis _ Hv).
  - exact Hj.
  - apply length_replicate.
  - apply Forall_replicate, zero_unit.
  - destruct (simulate_nodes_unit (SIM_NUM_WORDS nPatterns) N Hw1 Hw2 (Abc_AigDfs pNtk) vs ps)
      as (ps' & -> & Hps' & Hu').
    + apply Hids, (valid_dfs _ Hv).
    + eapply Forall_impl; [exact (valid_fanins _ Hv)|]. intros o Ho. cbn in *. lia.
    + exact Hvs.
    + exact Hps.
    + exact Hu.
    + exists ps'. split; [reflexivity|]. intros pNode Hin.
      assert (Hid : 0 <= Id pNode < Z.of_nat N).
      { apply elem_of_app in Hin as [Hin|Hin].
        - pose proof (valid_cis _ Hv) as Hc. rewrite Forall_forall in Hc.
          specialize (Hc _ Hin). cbn in Hc. lia.
        - pose proof (valid_dfs _ Hv) as Hc. rewrite Forall_forall in Hc.
          specialize (Hc _ Hin). cbn in Hc. lia. }
      destruct (load_in ps' (Id pNode)) as (x & Hx); [rewrite Hps'; exact Hid|].
      exists x. split; [exact Hx|].
      rewrite Forall_forall in Hu'. apply Hu'.
      unfold load in Hx. destruct (0 <=? Id pNode); [|discriminate].
      eapply list_elem_of_lookup_2. exact Hx.
Qed.

Lemma switching_vector_unit_interval_witness :
  exists vSwitching,
    Sim_NtkComputeSwitching B32.zero Scenario.ntk 40
      (fun n => Z.of_nat n * 2654435761 + 12345) (replicate 4 []) = Some vSwitching
    /\ forall pNode, pNode ∈ vCis Scenario.ntk ++ Abc_AigDfs Scenario.ntk ->
         exists x, load vSwitching (Id pNode) = Some x /\ B32.unit_interval x.
Proof.
  apply (switching_vector_unit_interval Scenario.ntk 40
           (fun n => Z.of_nat n * 2654435761 + 12345) (replicate 4 []) scenario_valid).
  - unfold CInt.INT_MAX. lia.
  - reflexivity.
Defined.

Lemma switching_is_formula_parts (pSimInfo : list Z) (nSimWords : Z) :
  1 <= nSimWords -> 32 * nSimWords <= CInt.INT_MAX ->
  let nTotal := 32 * nSimWords in
  let nOnes := Sim_UtilCountOnes pSimInfo nSimWords in
  (Sim_ComputeSwitching (F:=Q) pSimInfo nSimWords == switching_formula nOnes nTotal)%Q
  /\ (exists v,
        B32.to_Q (Sim_ComputeSwitching (F:=spec_float) pSimInfo nSimWords) = Some v
        /\ (switching_formula nOnes nTotal * (1 - eps) <= v
            <= switching_formula nOnes nTotal * (1 + eps))%Q).
Proof.
  intros H1 H2 nTotal nOnes. destruct (mul_32_words nSimWords H1 H2) as [E HnT].
  pose proof (Sim_UtilCountOnes_range pSimInfo nSimWords ltac:(lia)) as Hk.
  fold nOnes in Hk. fold nTotal in E, HnT, Hk.
  split.
  - unfold Sim_ComputeSwitching. cbv zeta. rewrite E.
    apply exact_expr; [lia|]. unfold CInt.INT_MIN, CInt.INT_MAX.
    change (2 ^ 31) with 2147483648 in HnT. fold nOnes. lia.
  - unfold Sim_ComputeSwitching. cbv zeta. rewrite E. fold nOnes.
    destruct (switching_unit nOnes nTotal Hk HnT) as (v & Hv & Hb & _). eauto.
Qed.

(** C3, amended. For every buffer and every word count at least 1 whose
    32-fold is an [int], with [nTotal = 32 * nSimWords] and [nOnes] the
    number of set bits: the [float] that [Sim_ComputeSwitching] returns
    differs from [2 (nOnes/nTotal) (1 - nOnes/nTotal)] by at most one part
    in [2^19], the rounding of the seven operations of line 326; on exact
    numbers the expression of line 326 is that number itself; and when
    [nOnes = 0] or [nOnes = nTotal] the [float] returned is exactly
    [0.0]. *)
Theorem switching_is_formula (pSimInfo : list Z) (nSimWords : Z) :
  1 <= nSimWords -> 32 * nSimWords <= CInt.INT_MAX ->
  let nTotal := 32 * nSimWords in
  let nOnes := Sim_UtilCountOnes pSimInfo nSimWords in
  (Sim_ComputeSwitching (F:=Q) pSimInfo nSimWords == switching_formula nOnes nTotal)%Q
  /\ (exists v,
        B32.to_Q (Sim_ComputeSwitching (F:=spec_float) pSimInfo nSimWords) = Some v
        /\ (switching_formula nOnes nTotal * (1 - eps) <= v
            <= switching_formula nOnes nTotal * (1 + eps))%Q)
  /\ (nOnes = 0 \/ nOnes = nTotal ->
        Sim_ComputeSwitching (F:=spec_float) pSimInfo nSimWords = B32.zero
        /\ (Sim_ComputeSwitching (F:=Q) pSimInfo nSimWords == 0)%Q).
Proof.
  intros H1 H2 nTotal nOnes. destruct (mul_32_words nSimWords H1 H2) as [E HnT].
  destruct (switching_is_formula_parts pSimInfo nSimWords H1 H2) as [Hx Hb].
  fold nTotal nOnes in Hx, Hb. fold nTotal in E, HnT.
  split; [exact Hx|]. split; [exact Hb|].
  intros Hc. split.
  - unfold Sim_ComputeSwitching. cbv zeta. rewrite E. fold nOnes.
    apply switching_zero; assumption.
  - rewrite Hx. unfold switching_formula.
    assert (~ inject_Z nTotal == 0)%Q by (intros Q0; unfold Qeq in Q0; cbn in Q0; lia).
    destruct Hc as [-> | ->]; [change (inject_Z 0) with 0%Q|]; field; assumption.
Qed.


Lemma switching_is_formula_witness :
  (Sim_ComputeSwitching (F:=Q) sample_buffer 2 == switching_formula 2 64)%Q
  /\ (exists v,
        B32.to_Q (Sim_ComputeSwitching (F:=spec_float) sample_buffer 2) = Some v
        /\ (switching_formula 2 64 * (1 - eps) <= v <= switching_formula 2 64 * (1 + eps))%Q)
  /\ (2 = 0 \/ 2 = 64 ->
        Sim_ComputeSwitching (F:=spec_float) sample_buffer 2 = B32.zero
        /\ (Sim_ComputeSwitching (F:=Q) sample_buffer 2 == 0)%Q).
Proof.
  apply (switching_is_formula sample_buffer 2); [lia|unfold CInt.INT_MAX; lia].
Defined.

(** The [float] returned is not [2 (nOnes/nTotal) (1 - nOnes/nTotal)], and
    not the [float] nearest to it either: for three words with a single
    one the number is [95/4608], between [11068302 * 2^-29] and
    [11068303 * 2^-29] and nearer to the first, and line 326 returns the
    second. *)
Lemma switching_formula_counterexample :
  Sim_UtilCountOnes skewed_buffer 3 = 1
  /\ Sim_ComputeSwitching (F:=spec_float) skewed_buffer 3 = S754_finite false 11068303 (-29)
  /\ B32.to_Q (Sim_ComputeSwitching (F:=spec_float) skewed_buffer 3)
     = Some (B32.value 11068303 (-29))
  /\ (B32.value 11068302 (-29) < switching_formula 1 96 < B32.value 11068303 (-29))%Q
  /\ (switching_formula 1 96 - B32.value 11068302 (-29)
      < B32.value 11068303 (-29) - switching_formula 1 96)%Q.
Proof.
  split; [vm_compute; reflexivity|]. split; [vm_compute; reflexivity|].
  split; [vm_compute; reflexivity|].
  split; [split|]; vm_compute; reflexivity.
Qed.

(** The complement of every bit changes the result of the binary32
    computation: one word with a single one, two words of zeros. *)
Lemma complement_counterexample :
  Sim_ComputeSwitching (F:=spec_float) [1; 0; 0] 3 = S754_finite false 11068303 (-29)
  /\ Sim_ComputeSwitching (F:=spec_float) (map word_not [1; 0; 0]) 3
     = S754_finite false 11068302 (-29)
  /\ Sim_ComputeSwitching (F:=spec_float) (map word_not [1; 0; 0]) 3
     <> Sim_ComputeSwitching (F:=spec_float) [1; 0; 0] 3.
Proof.
  split; [vm_compute; reflexivity|]. split; [vm_compute; reflexivity|].
  vm_compute. discriminate.
Qed.

Lemma symmetric_32 (k : Z) :
  0 <= k <= 32 ->
  switching_expr (F:=spec_float) (32 - k) 32 = switching_expr (F:=spec_float) k 32.
Proof.
  intros Hk.
  assert (Hall : Forall (fun n => switching_expr (F:=spec_float) (32 - Z.of_nat n) 32
                                  = switching_expr (F:=spec_float) (Z.of_nat n) 32)
                   (seq 0 33)).
  { repeat (apply List.Forall_cons; [vm_compute; reflexivity|]). apply List.Forall_nil. }
  rewrite Forall_forall in Hall. specialize (Hall (Z.to_nat k)).
  rewrite Z2Nat.id in Hall by lia. apply Hall, elem_of_seq. lia.
Qed.

Lemma symmetric_64 (k : Z) :
  0 <= k <= 64 ->
  switching_expr (F:=spec_float) (64 - k) 64 = switching_expr (F:=spec_float) k 64.
Proof.
  intros Hk.
  assert (Hall : Forall (fun n => switching_expr (F:=spec_float) (64 - Z.of_nat n) 64
                                  = switching_expr (F:=spec_float) (Z.of_nat n) 64)
                   (seq 0 65)).
  { repeat (apply List.Forall_cons; [vm_compute; reflexivity|]). apply List.Forall_nil. }
  rewrite Forall_forall in Hall. specialize (Hall (Z.to_nat k)).
  rewrite Z2Nat.id in Hall by lia. apply Hall, elem_of_seq. lia.
Qed.

(** C4, amended. For every buffer of [nSimWords >= 1] words, [32 *
    nSimWords] an [int]: on exact numbers the buffer and its complement
    give the same value; in binary32 the two results are each within one
    part in [2^19] of that value, and they are the same float when the
    buffer has one or two words. *)
Theorem complement_invariance (pSimInfo : list Z) (nSimWords : Z) :
  1 <= nSimWords -> 32 * nSimWords <= CInt.INT_MAX ->
  length pSimInfo = Z.to_nat nSimWords ->
  let flipped := map word_not pSimInfo in
  let exact := Sim_ComputeSwitching (F:=Q) pSimInfo nSimWords in
  (Sim_ComputeSwitching (F:=Q) flipped nSimWords == exact)%Q
  /\ (exists v v',
        B32.to_Q (Sim_ComputeSwitching (F:=spec_float) pSimInfo nSimWords) = Some v
        /\ B32.to_Q (Sim_ComputeSwitching (F:=spec_float) flipped nSimWords) = Some v'
        /\ (exact * (1 - eps) <= v <= exact * (1 + eps))%Q
        /\ (exact * (1 - eps) <= v' <= exact * (1 + eps))%Q)
  /\ (nSimWords <= 2 ->
        Sim_ComputeSwitching (F:=spec_float) flipped nSimWords
        = Sim_ComputeSwitching (F:=spec_float) pSimInfo nSimWords).
Proof.
  intros H1 H2 Hlen flipped exact.
  destruct (mul_32_words nSimWords H1 H2) as [E HnT].
  pose proof (Sim_UtilCountOnes_range pSimInfo nSimWords ltac:(lia)) as Hk.
  pose proof (Sim_UtilCountOnes_not pSimInfo nSimWords Hlen ltac:(lia)) as Hn.
  fold flipped in Hn.
  assert (Hlen' : length flipped = Z.to_nat nSimWords)
    by (unfold flipped; now rewrite length_map).
  destruct (switching_is_formula_parts pSimInfo nSimWords H1 H2) as (Hx & (v & Hv & Hb)).
  destruct (switching_is_formula_parts flipped nSimWords H1 H2) as (Hx' & (v' & Hv' & Hb')).
  assert (Hsym : (switching_formula (Sim_UtilCountOnes flipped nSimWords) (32 * nSimWords)
                  == switching_formula (Sim_UtilCountOnes pSimInfo nSimWords) (32 * nSimWords))%Q).
  { rewrite Hn. unfold switching_formula, Z.sub. rewrite inject_Z_plus, inject_Z_opp.
    assert (~ inject_Z (32 * nSimWords) == 0)%Q
      by (intros Q0; unfold Qeq in Q0; cbn in Q0; lia).
    field. assumption. }
  split; [|split].
  - unfold exact. rewrite Hx, Hx'. exact Hsym.
  - exists v, v'. unfold exact. rewrite Hx. rewrite Hsym in Hb'. auto.
  - intros Hsmall. unfold Sim_ComputeSwitching. cbv zeta. rewrite E, Hn.
    assert (Hw : nSimWords = 1 \/ nSimWords = 2) by lia.
    destruct Hw as [-> | ->].
    + apply symmetric_32. exact Hk.
    + apply symmetric_64. exact Hk.
Qed.

Lemma complement_invariance_witness :
  (Sim_ComputeSwitching (F:=Q) (map word_not sample_buffer) 2
   == Sim_ComputeSwitching (F:=Q) sample_buffer 2)%Q
  /\ (exists v v',
        B32.to_Q (Sim_ComputeSwitching (F:=spec_float) sample_buffer 2) = Some v
        /\ B32.to_Q (Sim_ComputeSwitching (F:=spec_float) (map word_not sample_buffer) 2)
           = Some v'
        /\ (Sim_ComputeSwitching (F:=Q) sample_buffer 2 * (1 - eps) <= v
            <= Sim_ComputeSwitching (F:=Q) sample_buffer 2 * (1 + eps))%Q
        /\ (Sim_ComputeSwitching (F:=Q) sample_buffer 2 * (1 - eps) <= v'
            <= Sim_ComputeSwitching (F:=Q) sample_buffer 2 * (1 + eps))%Q)
  /\ (2 <= 2 ->
        Sim_ComputeSwitching (F:=spec_float) (map word_not sample_buffer) 2
        = Sim_ComputeSwitching (F:=spec_float) sample_buffer 2).
Proof.
  apply (complement_invariance sample_buffer 2);
    [lia|unfold CInt.INT_MAX; lia|reflexivity].
Defined.


(** The binary32 result on [half_buffer] is the float next above [0.5]. *)
Lemma half_exceeded_counterexample :
  Sim_UtilCountOnes half_buffer 446 = 7137
  /\ Sim_ComputeSwitching (F:=spec_float) half_buffer 446 = S754_finite false 8388609 (-24)
  /\ B32.to_Q (Sim_ComputeSwitching (F:=spec_float) half_buffer 446) = Some (8388609 # 16777216)
  /\ (1 # 2 < 8388609 # 16777216)%Q
  /\ SFltb B32.half (Sim_ComputeSwitching (F:=spec_float) half_buffer 446) = true.
Proof.
  repeat split; vm_compute; reflexivity.
Qed.

(** C9, amended. For every buffer and every word count at least 1 whose
    32-fold is an [int]: on exact numbers the value of [Sim_ComputeSwitching]
    is at most one half; the binary32 result is a number that exceeds one
    half by at most one part in [2^19], and is not negative. *)
Theorem switching_at_most_half (pSimInfo : list Z) (nSimWords : Z) :
  1 <= nSimWords -> 32 * nSimWords <= CInt.INT_MAX ->
  (Sim_ComputeSwitching (F:=Q) pSimInfo nSimWords <= 1 # 2)%Q
  /\ exists v,
       B32.to_Q (Sim_ComputeSwitching (F:=spec_float) pSimInfo nSimWords) = Some v
       /\ (0 <= v <= (1 # 2) * (1 + eps))%Q.
Proof.
  intros H1 H2. destruct (mul_32_words nSimWords H1 H2) as [E HnT].
  pose proof (Sim_UtilCountOnes_range pSimInfo nSimWords ltac:(lia)) as Hk.
  destruct (switching_is_formula_parts pSimInfo nSimWords H1 H2) as [Hx _].
  split.
  - rewrite Hx. apply formula_range; [exact Hk|lia].
  - unfold Sim_ComputeSwitching. cbv zeta. rewrite E.
    destruct (switching_unit _ _ Hk HnT) as (v & Hv & _ & Hr). eauto.
Qed.

Lemma switching_at_most_half_witness :
  (Sim_ComputeSwitching (F:=Q) half_buffer 446 <= 1 # 2)%Q
  /\ exists v,
       B32.to_Q (Sim_ComputeSwitching (F:=spec_float) half_buffer 446) = Some v
       /\ (0 <= v <= (1 # 2) * (1 + eps))%Q.
Proof.
  apply (switching_at_most_half half_buffer 446); [lia|unfold CInt.INT_MAX; lia].
Defined.

(** * Further properties of the code *)

(** ** The writer: how it ends *)

(** X1. The writer returns 0 or -1; 0 exactly when the network and the
    base name are there, the buffer of the file name is allocated and
    the file is opened; and when it returns -1 it has left every file as
    it was. *)
Theorem writer_result {F} (mc : machine) (pNtk : option Abc_Ntk)
    (fileBaseName : option string) (s : sys F) :
  let r := Sim_NtkWriteSwitchingTemplate mc pNtk fileBaseName s in
  (fst r = 0 \/ fst r = -1)
  /\ (fst r = 0 <->
      exists ntk base,
        pNtk = Some ntk /\ fileBaseName = Some base
        /\ malloc_ok mc blk_fileName = true
        /\ fopen_w_ok mc (base +:+ ".switch")%string = true)
  /\ (fst r = -1 -> files (snd r) = files s).
Proof.
  unfold Sim_NtkWriteSwitchingTemplate.
  destruct pNtk as [ntk|], fileBaseName as [base|]; cbn [fst snd];
    try (split; [now right|]; split; [|reflexivity];
         split; [discriminate|]; intros (? & ? & ? & ? & _); discriminate).
  destruct (malloc_ok mc blk_fileName) eqn:Em; cbn [negb fst snd].
  - destruct (fopen_w_ok mc (base +:+ ".switch")%string) eqn:Eo; cbn [negb fst snd].
    + split; [now left|]. split; [|discriminate].
      split; [intros _; exists ntk, base; auto|reflexivity].
    + split; [now right|]. split; [|reflexivity].
      split; [discriminate|]. intros (? & ? & _ & [= <-] & _ & Ho). congruence.
  - split; [now right|]. split; [|reflexivity].
    split; [discriminate|]. intros (? & ? & _ & _ & ? & _). discriminate.
Qed.

(** X2. The writer changes no file but [<base>.switch], and what it
    leaves there does not depend on what any file held before. *)
Theorem writer_touches_one_file {F} (mc : machine) (pNtk : option Abc_Ntk)
    (base : string) (s s' : sys F) (other : string) :
  (other <> (base +:+ ".switch")%string ->
   files (snd (Sim_NtkWriteSwitchingTemplate mc pNtk (Some base) s)) !! other
   = files s !! other)
  /\ (fst (Sim_NtkWriteSwitchingTemplate mc pNtk (Some base) s) = 0 ->
      files (snd (Sim_NtkWriteSwitchingTemplate mc pNtk (Some base) s))
        !! (base +:+ ".switch")%string
      = files (snd (Sim_NtkWriteSwitchingTemplate mc pNtk (Some base) s'))
          !! (base +:+ ".switch")%string).
Proof.
  unfold Sim_NtkWriteSwitchingTemplate.
  destruct pNtk as [ntk|]; cbn [fst snd emit files];
    [|split; [reflexivity|discriminate]].
  destruct (malloc_ok mc blk_fileName); cbn [negb fst snd emit files];
    [|split; [reflexivity|discriminate]].
  destruct (fopen_w_ok mc (base +:+ ".switch")%string); cbn [negb fst snd emit files];
    [|split; [reflexivity|discriminate]].
  split.
  - intros Hne. apply lookup_insert_ne. congruence.
  - intros _. now rewrite !lookup_insert_eq.
Qed.

(** X3. On every path the writer frees what it allocated and closes what
    it opened: the events that it adds to a run are balanced. *)
Theorem writer_balanced {F} (mc : machine) (pNtk : option Abc_Ntk)
    (fileBaseName : option string) (s : sys F) :
  exists es,
    trace (snd (Sim_NtkWriteSwitchingTemplate mc pNtk fileBaseName s)) = trace s ++ es
    /\ balanced es.
Proof.
  unfold Sim_NtkWriteSwitchingTemplate.
  destruct pNtk as [ntk|], fileBaseName as [base|]; cbn [fst snd emit trace];
    try (eexists; split; [reflexivity|]; split; [intros []|]; reflexivity).
  destruct (malloc_ok mc blk_fileName); cbn [negb snd emit trace];
    [|eexists; split; [reflexivity|]; split; [intros []|]; reflexivity].
  destruct (fopen_w_ok mc (base +:+ ".switch")%string); cbn [negb snd emit trace];
    eexists; (split; [reflexivity|]); (split; [intros []|]); reflexivity.
Qed.

(** ** What [%d] prints, [%d] reads *)

Lemma digit_char_spec d :
  0 <= d <= 9 -> isdigit (digit_char d) = true /\ digit_val (digit_char d) = d.
Proof.
  intros Hd.
  assert (Hc : d = 0 \/ d = 1 \/ d = 2 \/ d = 3 \/ d = 4 \/ d = 5 \/ d = 6 \/ d = 7
               \/ d = 8 \/ d = 9) by lia.
  repeat (destruct Hc as [-> | Hc]; [split; reflexivity|]). subst d. split; reflexivity.
Qed.

(** The digits that [dec_digits] puts before [acc], and their value. *)
Lemma dec_digits_spec fuel : forall n acc,
  (0 < fuel)%nat ->
  0 <= n < 10 ^ Z.of_nat fuel ->
  exists ds,
    dec_digits fuel n acc = ds ++ acc
    /\ ds <> []
    /\ (length ds <= fuel)%nat
    /\ forallb isdigit ds = true
    /\ forall a rest, scan_digits (ds ++ rest) a
                      = scan_digits rest (a * 10 ^ Z.of_nat (length ds) + n).
Proof.
  induction fuel as [|fuel IH]; intros n acc Hfuel Hn; [lia|].
  cbn [dec_digits].
    pose proof (Z.mod_pos_bound n 10 ltac:(lia)) as Hm.
    destruct (digit_char_spec (n mod 10) ltac:(lia)) as [Hd Hv].
    destruct (n <? 10) eqn:E.
    + apply Z.ltb_lt in E. exists [digit_char (n mod 10)].
      split; [reflexivity|]. split; [discriminate|]. split; [cbn; lia|].
      split; [cbn; now rewrite Hd|].
      intros a rest. cbn [app scan_digits length]. rewrite Hd, Hv.
      rewrite Z.mod_small by lia. f_equal.
      change (Z.of_nat 1) with 1. rewrite Z.pow_1_r. lia.
    + apply Z.ltb_ge in E.
      assert (Hf : 10 ^ Z.of_nat (S fuel) = 10 * 10 ^ Z.of_nat fuel)
        by (rewrite Nat2Z.inj_succ, Z.pow_succ_r; lia).
      destruct (IH (n / 10) (digit_char (n mod 10) :: acc)) as (ds & E1 & Hne & Hl & Hds & Hs).
      { destruct fuel; [|lia]. cbn in Hn. lia. }
      { split; [apply Z.div_pos; lia|]. apply Z.div_lt_upper_bound; lia. }
      exists (ds ++ [digit_char (n mod 10)]).
      split; [rewrite E1, <- app_assoc; reflexivity|].
      split; [destruct ds; discriminate|].
      split; [rewrite length_app; cbn; lia|].
      split; [rewrite forallb_app, Hds; cbn; now rewrite Hd|].
      intros a rest. rewrite <- app_assoc, Hs. cbn [app scan_digits].
      rewrite Hd, Hv. f_equal. rewrite length_app. cbn [length].
      replace (Z.of_nat (length ds + 1)) with (Z.succ (Z.of_nat (length ds))) by lia.
      rewrite Z.pow_succ_r by lia.
      pose proof (Z.div_mod n 10 ltac:(lia)). lia.
Qed.

Lemma dec_fuel n : 0 <= n -> n < 10 ^ Z.of_nat (S (Z.to_nat (Z.log2 n))).
Proof.
  intros Hn. rewrite Nat2Z.inj_succ, Z2Nat.id by apply Z.log2_nonneg.
  destruct (Z.eq_dec n 0) as [->|Hz]; [reflexivity|].
  pose proof (Z.log2_spec n ltac:(lia)) as [_ Hlt].
  eapply Z.lt_le_trans; [exact Hlt|].
  apply Z.pow_le_mono_l. lia.
Qed.

(** The text of an [int]: a sign, if it is negative, and the digits of
    its absolute value. *)
Lemma dec_spec z :
  exists sign ds,
    dec z = sign ++ ds
    /\ (sign = [] /\ 0 <= z \/ sign = ["-"%char] /\ z < 0)
    /\ ds <> []
    /\ (length ds <= S (Z.to_nat (Z.log2 (Z.abs z))))%nat
    /\ forallb isdigit ds = true
    /\ scan_digits ds 0 = (Z.abs z, []).
Proof.
  unfold dec. destruct (z <? 0) eqn:E.
  - apply Z.ltb_lt in E.
    assert (Hz : 0 <= - z) by lia.
    destruct (dec_digits_spec (S (Z.to_nat (Z.log2 (- z)))) (- z) [] ltac:(lia)
                (conj Hz (dec_fuel (- z) Hz)))
      as (ds & -> & Hne & Hl & Hds & Hs).
    exists ["-"%char], ds. rewrite app_nil_r. split; [reflexivity|].
    split; [right; auto|]. split; [exact Hne|].
    replace (Z.abs z) with (- z) by lia. split; [exact Hl|]. split; [exact Hds|].
    specialize (Hs 0 []). rewrite app_nil_r in Hs. rewrite Hs. reflexivity.
  - apply Z.ltb_ge in E.
    destruct (dec_digits_spec (S (Z.to_nat (Z.log2 z))) z [] ltac:(lia) (conj E (dec_fuel z E)))
      as (ds & -> & Hne & Hl & Hds & Hs).
    exists [], ds. rewrite app_nil_r. split; [reflexivity|].
    split; [left; auto|]. split; [exact Hne|].
    replace (Z.abs z) with z by lia. split; [exact Hl|]. split; [exact Hds|].
    specialize (Hs 0 []). rewrite app_nil_r in Hs. rewrite Hs. reflexivity.
Qed.

Lemma isdigit_not_sign c :
  isdigit c = true -> Ascii.eqb c "-" = false /\ Ascii.eqb c "+" = false.
Proof.
  intros Hc. split.
  - destruct (Ascii.eqb c "-") eqn:E; [|reflexivity].
    apply Ascii.eqb_eq in E. subst c. discriminate.
  - destruct (Ascii.eqb c "+") eqn:E; [|reflexivity].
    apply Ascii.eqb_eq in E. subst c. discriminate.
Qed.

(** [%d] reads back the number that [%d] printed, and stops after it. *)
Lemma scan_int_dec z r :
  no_digit_ahead r = true -> scan_int (dec z ++ r) = Some (z, r).
Proof.
  intros Hr. destruct (dec_spec z) as (sign & ds & -> & Hsign & Hne & _ & Hds & Hs).
  destruct ds as [|c ds]; [contradiction|].
  pose proof Hds as Hds'. cbn [forallb] in Hds'. apply andb_prop in Hds' as [Hc _].
  destruct (isdigit_not_sign c Hc) as [Hm Hp].
  pose proof (scan_digits_app _ _ _ r Hs Hr) as Happ.
  change ((c :: ds) ++ r) with (c :: ds ++ r) in Happ.
  destruct Hsign as [[-> Hz] | [-> Hz]]; unfold scan_int; cbn -[isdigit scan_digits].
  - rewrite Hm, Hp, Hc, Happ. f_equal. f_equal. lia.
  - rewrite Hc, Happ. f_equal. f_equal. lia.
Qed.

Lemma int_text_dec z : int_text (dec z) = true.
Proof.
  unfold int_text. rewrite <- (app_nil_r (dec z)).
  now rewrite (scan_int_dec z []).
Qed.

Lemma int_of_scanned_int z :
  CInt.INT_MIN <= z <= CInt.INT_MAX -> int_of_scanned z = z.
Proof.
  intros Hz. unfold int_of_scanned, CInt.clamp_long, CInt.LONG_MIN, CInt.LONG_MAX.
  unfold CInt.INT_MIN, CInt.INT_MAX in Hz.
  rewrite Z.min_r, Z.max_r by lia.
  apply wrap_small. unfold CInt.INT_MIN, CInt.INT_MAX. lia.
Qed.

(** ** The records of the writer under the formats of the loader *)

Lemma run_format_assign {F} `{FloatScan F} fmt z r :
  no_digit_ahead r = true ->
  run_format (F:=F) (DInt true :: fmt) (dec z ++ r)
  = AInt (int_of_scanned z) :: run_format fmt r.
Proof.
  intros Hr. cbn [run_format].
  rewrite int_text_skip_ws by apply int_text_dec.
  now rewrite scan_int_dec.
Qed.

Lemma skip_ws_blank r : skip_ws (" "%char :: r) = skip_ws r.
Proof. reflexivity. Qed.

Lemma skip_ws_nonspace c r : isspace c = false -> skip_ws (c :: r) = c :: r.
Proof. intros Hc. cbn [skip_ws]. now rewrite Hc. Qed.

Lemma c_str_dec z r : c_str (dec z ++ r) = dec z ++ c_str r.
Proof. apply c_str_app, int_text_no_NUL, int_text_dec. Qed.

Lemma ci_record_scans (i x : Z) :
  CInt.INT_MIN <= x <= CInt.INT_MAX ->
  sscanf (F:=Q) (record_line "CI" i x placeholder) "CI %*d: ID=%d %f"
  = [AInt x; AFloat (1 # 2)%Q].
Proof.
  intros Hx. unfold record_line.
  rewrite (sscanf_ci_index (lit " ") (dec i)) by (reflexivity || apply int_text_dec).
  rewrite (c_str_app (lit ": ID=")) by reflexivity. rewrite c_str_dec.
  change (lit ": ID=") with [":"%char; " "%char; "I"%char; "D"%char; "="%char].
  cbn [app].
  rewrite run_format_char, Ascii.eqb_refl, run_format_space, skip_ws_blank.
  rewrite skip_ws_nonspace by reflexivity.
  rewrite !run_format_char, !Ascii.eqb_refl.
  rewrite run_format_assign by reflexivity.
  rewrite int_of_scanned_int by exact Hx. reflexivity.
Qed.

Lemma node_record_scans (i x : Z) :
  CInt.INT_MIN <= x <= CInt.INT_MAX ->
  sscanf (F:=Q) (record_line "Node" i x placeholder) " Node %*d : ID = %d %f "
  = [AInt x; AFloat (1 # 2)%Q].
Proof.
  intros Hx. unfold record_line.
  pose proof (sscanf_node_index (F:=Q) [] (lit " ") (dec i)
                (lit ": ID=" ++ dec x ++ lit " " ++ placeholder ++ [LF])
                eq_refl eq_refl (int_text_dec i) eq_refl) as E.
  rewrite app_nil_l in E. rewrite E. clear E.
  rewrite (c_str_app (lit ": ID=")) by reflexivity. rewrite c_str_dec.
  change (lit ": ID=") with [":"%char; " "%char; "I"%char; "D"%char; "="%char].
  cbn [app].
  rewrite run_format_space, skip_ws_nonspace by reflexivity.
  rewrite run_format_char, Ascii.eqb_refl, run_format_space, skip_ws_blank.
  rewrite skip_ws_nonspace by reflexivity.
  rewrite !run_format_char, !Ascii.eqb_refl.
  rewrite run_format_space, skip_ws_nonspace by reflexivity.
  rewrite run_format_char, Ascii.eqb_refl.
  rewrite run_format_space, int_text_skip_ws by apply int_text_dec.
  rewrite run_format_assign by reflexivity.
  rewrite int_of_scanned_int by exact Hx. reflexivity.
Qed.

(** X4. A record that the writer prints for the index [i] and the
    identifier [x] is a record to the loader: its format for the kind
    assigns [x] and the value one half, and the format of the other kind
    assigns nothing. *)
Theorem written_record_scans_back (i x : Z) :
  CInt.INT_MIN <= x <= CInt.INT_MAX ->
  sscanf (F:=Q) (record_line "CI" i x placeholder) "CI %*d: ID=%d %f"
  = [AInt x; AFloat (1 # 2)%Q]
  /\ sscanf (F:=Q) (record_line "Node" i x placeholder) " Node %*d : ID = %d %f "
     = [AInt x; AFloat (1 # 2)%Q]
  /\ sscanf (F:=Q) (record_line "CI" i x placeholder) " Node %*d : ID = %d %f " = []
  /\ sscanf (F:=Q) (record_line "Node" i x placeholder) "CI %*d: ID=%d %f" = [].
Proof.
  intros Hx. split; [|split; [|split]].
  - now apply ci_record_scans.
  - now apply node_record_scans.
  - unfold record_line. apply sscanf_node_on_ci.
  - unfold record_line. apply (sscanf_ci_on_node []). reflexivity.
Qed.

Lemma written_record_scans_back_witness :
  sscanf (F:=Q) (record_line "CI" 0 41 placeholder) "CI %*d: ID=%d %f"
  = [AInt 41; AFloat (1 # 2)%Q]
  /\ sscanf (F:=Q) (record_line "Node" 0 41 placeholder) " Node %*d : ID = %d %f "
     = [AInt 41; AFloat (1 # 2)%Q]
  /\ sscanf (F:=Q) (record_line "CI" 0 41 placeholder) " Node %*d : ID = %d %f " = []
  /\ sscanf (F:=Q) (record_line "Node" 0 41 placeholder) "CI %*d: ID=%d %f" = [].
Proof.
  apply (written_record_scans_back 0 41). unfold CInt.INT_MIN, CInt.INT_MAX. lia.
Defined.

(** ** The lines of a template and the buffer of the loader *)

Lemma whole_lines_fit size ls : Forall (whole_line size) ls -> fits_buffer size ls.
Proof.
  induction 1 as [|l ls (body & -> & Hb & Hl) _ IH]; cbn [fits_buffer]; [exact I|].
  split; [rewrite length_app; cbn; lia|]. split; [|exact IH].
  exists body. auto.
Qed.

Lemma no_LF_elem s : forallb (fun c => negb (Ascii.eqb c LF)) s = true -> LF ∉ s.
Proof.
  induction s as [|c s IH]; cbn [forallb]; intros Hs Hin.
  - inversion Hin.
  - apply andb_prop in Hs as [Hc Hs]. apply elem_of_cons in Hin as [<-|Hin].
    + now rewrite Ascii.eqb_refl in Hc.
    + now apply IH.
Qed.

Lemma dec_no_LF z : forallb (fun c => negb (Ascii.eqb c LF)) (dec z) = true.
Proof.
  destruct (dec_spec z) as (sign & ds & -> & Hs & _ & _ & Hd & _).
  rewrite forallb_app. apply andb_true_intro. split.
  - destruct Hs as [[-> _]|[-> _]]; reflexivity.
  - clear -Hd. induction ds as [|c ds IH]; [reflexivity|]. cbn [forallb] in *.
    apply andb_prop in Hd as [Hc Hd]. rewrite IH by exact Hd.
    destruct (Ascii.eqb c LF) eqn:E; [|reflexivity].
    apply Ascii.eqb_eq in E. subst c. discriminate.
Qed.

Lemma dec_length z : Z.abs z < 2 ^ 32 -> (length (dec z) <= 33)%nat.
Proof.
  intros Hz. destruct (dec_spec z) as (sign & ds & -> & Hs & _ & Hl & _).
  assert (Hlog : Z.log2 (Z.abs z) < 32).
  { destruct (Z.eq_dec (Z.abs z) 0) as [->|Hne]; [cbn; lia|].
    apply Z.log2_lt_pow2; lia. }
  pose proof (Z.log2_nonneg (Z.abs z)).
  rewrite length_app. destruct Hs as [[-> _]|[-> _]]; cbn [length]; lia.
Qed.

Lemma record_line_whole kind i x :
  forallb (fun c => negb (Ascii.eqb c LF)) (lit kind) = true ->
  (length (lit kind) <= 8)%nat ->
  Z.abs i < 2 ^ 32 -> Z.abs x < 2 ^ 32 ->
  whole_line 256 (record_line kind i x placeholder).
Proof.
  intros Hk Hkl Hi Hx. unfold record_line.
  exists (lit kind ++ lit " " ++ dec i ++ lit ": ID=" ++ dec x ++ lit " " ++ placeholder).
  split; [now rewrite <- !app_assoc|]. split.
  - apply no_LF_elem. rewrite !forallb_app, Hk, !dec_no_LF. reflexivity.
  - pose proof (dec_length i Hi). pose proof (dec_length x Hx).
    rewrite !length_app.
    change (length (lit " ")) with 1%nat. change (length (lit ": ID=")) with 5%nat.
    change (length placeholder) with 2%nat. lia.
Qed.

Lemma header_line_whole (prefix : text) z :
  forallb (fun c => negb (Ascii.eqb c LF)) prefix = true ->
  (length prefix <= 16)%nat -> Z.abs z < 2 ^ 32 ->
  whole_line 256 (prefix ++ dec z ++ [LF]).
Proof.
  intros Hp Hl Hz. exists (prefix ++ dec z). split; [now rewrite <- app_assoc|]. split.
  - apply no_LF_elem. now rewrite forallb_app, Hp, dec_no_LF.
  - pose proof (dec_length z Hz). rewrite length_app. lia.
Qed.

Lemma literal_line_whole (body : text) :
  forallb (fun c => negb (Ascii.eqb c LF)) body = true ->
  (length body + 2 <=? 256)%nat = true ->
  whole_line 256 (body ++ [LF]).
Proof.
  intros Hb Hl. exists body. split; [reflexivity|]. split; [now apply no_LF_elem|].
  now apply Nat.leb_le.
Qed.

Lemma valid_counts pNtk :
  valid_ntk pNtk -> 0 <= Abc_NtkObjNumMax pNtk ->
  Z.of_nat (length (vCis pNtk)) + Z.of_nat (length (Abc_AigDfs pNtk))
  <= Abc_NtkObjNumMax pNtk.
Proof.
  intros [Hm Hc Hd Hu _] H0.
  pose proof (bounded_ids_length (vCis pNtk ++ Abc_AigDfs pNtk)
                (Z.to_nat (Abc_NtkObjNumMax pNtk)) Hu) as Hlen.
  rewrite length_app in Hlen.
  assert ((length (vCis pNtk) + length (Abc_AigDfs pNtk)
           <= Z.to_nat (Abc_NtkObjNumMax pNtk))%nat); [|lia].
  apply Hlen, Forall_app. split; (eapply Forall_impl; [eassumption|]); cbn; lia.
Qed.

Lemma template_lines_whole pNtk :
  valid_ntk pNtk -> 0 <= Abc_NtkObjNumMax pNtk ->
  Forall (whole_line 256) (template_lines pNtk).
Proof.
  intros Hv H0. pose proof (valid_counts pNtk Hv H0) as Hn.
  destruct Hv as [Hm Hc Hd _ _]. unfold CInt.INT_MAX in Hm.
  unfold template_lines, header_lines.
  repeat (apply Forall_cons; split).
  - now apply (literal_line_whole (lit "# Switching Activities Template File")).
  - now apply (literal_line_whole (lit "# Format: ID [Switching Value Placeholder]")).
  - apply header_line_whole; [reflexivity|cbn; lia|]. unfold Abc_NtkCiNum. lia.
  - apply header_line_whole; [reflexivity|cbn; lia|]. lia.
  - now apply (literal_line_whole []).
  - apply Forall_app. split; apply Forall_lookup; intros i l Hl;
      rewrite list_lookup_imap in Hl;
      [destruct (vCis pNtk !! i) as [o|] eqn:Eo|destruct (Abc_AigDfs pNtk !! i) as [o|] eqn:Eo];
      try discriminate; injection Hl as <-.
    + pose proof (lookup_lt_Some _ _ _ Eo) as Hi.
      rewrite Forall_lookup in Hc. specialize (Hc _ _ Eo). cbn in Hc.
      apply record_line_whole; [reflexivity|cbn; lia|lia|lia].
    + pose proof (lookup_lt_Some _ _ _ Eo) as Hi.
      rewrite Forall_lookup in Hd. specialize (Hd _ _ Eo). cbn in Hd.
      apply record_line_whole; [reflexivity|cbn; lia|lia|lia].
Qed.

Lemma template_text_concat pNtk :
  valid_ntk pNtk -> template_text pNtk = concat (template_lines pNtk).
Proof.
  intros Hv. rewrite (template_text_lines pNtk Hv). unfold template_lines.
  rewrite !concat_app. f_equal. unfold header_text, header_lines. cbn [concat].
  rewrite <- !app_assoc. reflexivity.
Qed.

Lemma template_read_by_lines_lines pNtk :
  valid_ntk pNtk -> 0 <= Abc_NtkObjNumMax pNtk ->
  chunks 256 (template_text pNtk) = template_lines pNtk.
Proof.
  intros Hv H0. rewrite (template_text_concat pNtk Hv).
  apply chunks_fits, whole_lines_fit, template_lines_whole; assumption.
Qed.

(** X5. The loader reads a template line by line: no line that the
    writer prints is longer than the 256-character buffer, so the calls
    of [fgets] return the header lines, then the record of each
    combinational input, then the record of each node, one per call. *)
Theorem template_read_by_lines (pNtk : Abc_Ntk) :
  valid_ntk pNtk -> 0 <= Abc_NtkObjNumMax pNtk ->
  chunks 256 (template_text pNtk)
  = header_lines pNtk ++ imap ci_line (vCis pNtk) ++ imap node_line (Abc_AigDfs pNtk).
Proof.
  intros Hv H0. now apply template_read_by_lines_lines.
Qed.

Lemma template_read_by_lines_witness :
  chunks 256 (template_text Scenario.ntk)
  = header_lines Scenario.ntk ++ imap ci_line (vCis Scenario.ntk)
      ++ imap node_line (Abc_AigDfs Scenario.ntk).
Proof.
  apply (template_read_by_lines Scenario.ntk scenario_valid). cbn. lia.
Defined.

(** ** The line that the loader wants after the last record *)

Section TrailingLine.
Context {F : Type} `{FloatScan F}.
Variable mc : machine.

Lemma load_from_trailing pNtk nNodes contents l0 p l :
  nNodes = CInt.wrap (vec_address mc) ->
  Abc_AigDfs pNtk <> [] ->
  Z.of_nat (length (Abc_AigDfs pNtk)) < nNodes ->
  load_from mc pNtk (Abc_AigDfs pNtk) nNodes contents l0 = Next (p, l) ->
  (length (vCis pNtk) + length (Abc_AigDfs pNtk) < length (records contents))%nat.
Proof.
  intros HnN Hne Hlt. unfold load_from.
  destruct (negb (malloc_ok mc blk_Ci_Switching)
            || negb (malloc_ok mc blk_Node_Switching && (0 <=? nNodes))) eqn:Em;
    [discriminate|].
  assert (H0 : 0 <= nNodes) by lia.
  unfold records.
  destruct (skip_header None (chunks 256 contents)) as [buf rest].
  set (fr0 := Build_frame buf rest _ _ _).
  assert (Hp0 : pending fr0 = match buf with Some b => b :: rest | None => rest end)
    by reflexivity.
  rewrite <- Hp0. clearbody fr0. clear Hp0.
  unfold Abc_NtkCiNum. rewrite Nat2Z.id.
  set (nC := length (vCis pNtk)). set (nD := length (Abc_AigDfs pNtk)) in *.
  assert (HD : (0 < nD)%nat).
  { subst nD. destruct (Abc_AigDfs pNtk); [contradiction|cbn; lia]. }
  destruct (for_loop nC 0 _ fr0) as [fr1|] eqn:Eci; [|discriminate]. cbn [bind].
  destruct (for_loop nD 0 _ fr1) as [fr2|] eqn:End; [|discriminate]. cbn [bind].
  intros _.
  assert (Hnodes : (nD < length (pending fr1))%nat).
  { destruct (for_loop_next _ _ _ (read_node_next nNodes) _ _ _ _ End HD) as [_ Hr].
    destruct Hr as [Hl _ _ | b Hlen _ _ _ Hi]; [exact Hl|].
    rewrite (nNodes_pred mc _ H0 HnN) in Hi. apply Z.ltb_ge in Hi. lia. }
  destruct (Nat.eq_dec nC 0%nat) as [E0|HC].
  - rewrite E0 in *. cbn [for_loop] in Eci. injection Eci as <-. exact Hnodes.
  - destruct (for_loop_next _ _ _ (read_ci_next (Z.of_nat nC)) _ _ _ _ Eci ltac:(lia))
      as [_ Hr].
    destruct Hr as [Hl _ Hd | b Hlen _ Hb Hf _].
    + rewrite Hd, length_drop in Hnodes. lia.
    + assert (Hp1 : pending fr1 = [b]) by (unfold pending; now rewrite Hb, Hf).
      rewrite Hp1 in Hnodes. cbn in Hnodes. lia.
Qed.

(** X6. A file from which the loader returns a vector has a line after
    the record of the last node: when the network has a node, and fewer
    nodes than [nNodes] counts, the lines from the first record on are
    more than the records that the network calls for. *)
Theorem load_needs_trailing_line (pNtk : Abc_Ntk) (name : string) (contents : text)
    (s : sys F) (v : list (cell F)) :
  Abc_AigDfs pNtk <> [] ->
  Z.of_nat (length (Abc_AigDfs pNtk)) < CInt.wrap (vec_address mc) ->
  files s !! name = Some contents ->
  fst (Sim_NtkLoadSwitching mc pNtk (Some name) s) = Returned (Some v) ->
  (length (vCis pNtk) + length (Abc_AigDfs pNtk) < length (records contents))%nat.
Proof.
  intros Hne Hlt Hf. rewrite (load_named mc _ _ _ _ Hf).
  destruct (load_from _ _ _ _ _ _) as [[p l]|o l] eqn:E; cbn [fst].
  - intros _. eapply load_from_trailing; eauto.
  - intros ->. now destruct (load_from_no_vector mc _ _ _ _ _ _ _ E v).
Qed.

End TrailingLine.

Lemma load_needs_trailing_line_witness :
  (length (vCis Scenario.ntk) + length (Abc_AigDfs Scenario.ntk)
   < length (records (Scenario.edited ++ [LF])))%nat.
Proof.
  apply (load_needs_trailing_line (Scenario.machine_with 4) Scenario.ntk
           "net.switch" (Scenario.edited ++ [LF])
           (Scenario.disk "net.switch" (Scenario.edited ++ [LF]))
           [Some 0%Q; Some (1 # 2)%Q; Some (1 # 2)%Q; None]).
  - discriminate.
  - vm_compute. reflexivity.
  - reflexivity.
  - vm_compute. reflexivity.
Defined.

Lemma header_lines_skipped pNtk : Forall (fun h => header_line h = true) (header_lines pNtk).
Proof. unfold header_lines. repeat constructor; vm_compute; reflexivity. Qed.

Lemma record_line_not_header (kind : string) i x v :
  header_line (lit kind) = false -> lit kind <> [] ->
  header_line (record_line kind i x v) = false.
Proof.
  unfold record_line. destruct (lit kind) as [|c r]; [contradiction|]. auto.
Qed.

(** The records of a template are all that follows its header. *)
Lemma records_template pNtk :
  valid_ntk pNtk -> 0 <= Abc_NtkObjNumMax pNtk ->
  vCis pNtk ++ Abc_AigDfs pNtk <> [] ->
  records (template_text pNtk)
  = imap ci_line (vCis pNtk) ++ imap node_line (Abc_AigDfs pNtk).
Proof.
  intros Hv H0 Hne. unfold records. rewrite (template_read_by_lines_lines pNtk Hv H0).
  unfold template_lines.
  assert (Hfirst : exists l ls,
            imap ci_line (vCis pNtk) ++ imap node_line (Abc_AigDfs pNtk) = l :: ls
            /\ header_line l = false).
  { destruct (vCis pNtk) as [|o cis].
    - destruct (Abc_AigDfs pNtk) as [|o nodes]; [contradiction|].
      eexists. eexists. split; [reflexivity|].
      apply record_line_not_header; [reflexivity|discriminate].
    - eexists. eexists. split; [reflexivity|].
      apply record_line_not_header; [reflexivity|discriminate]. }
  destruct Hfirst as (l & ls & -> & Hl).
  now rewrite (skip_header_app _ _ _ _ (header_lines_skipped pNtk) Hl).
Qed.

(** ** Writing a template and loading it as it is *)

Lemma writer_success_file {F} (mc : machine) (pNtk : Abc_Ntk) (base : string) (s : sys F) :
  fst (Sim_NtkWriteSwitchingTemplate mc (Some pNtk) (Some base) s) = 0 ->
  files (snd (Sim_NtkWriteSwitchingTemplate mc (Some pNtk) (Some base) s))
    !! (base +:+ ".switch")%string
  = Some (template_text pNtk).
Proof.
  unfold Sim_NtkWriteSwitchingTemplate.
  destruct (malloc_ok mc blk_fileName); cbn [negb fst snd]; [|discriminate].
  destruct (fopen_w_ok mc _); cbn [negb fst snd files]; [|discriminate].
  intros _. apply lookup_insert_eq.
Qed.

(** X7. A template is not a file that the loader accepts: for a valid
    network with an internal node, and fewer nodes than [nNodes] counts,
    the loader never returns a vector from the file that the writer has
    just written, because no line follows the record of the last node. *)
Theorem fresh_template_never_loads {F} `{FloatScan F} (mc : machine) (pNtk : Abc_Ntk)
    (base : string) (s : sys F) :
  valid_ntk pNtk ->
  Abc_AigDfs pNtk <> [] ->
  Z.of_nat (length (Abc_AigDfs pNtk)) < CInt.wrap (vec_address mc) ->
  fst (Sim_NtkWriteSwitchingTemplate mc (Some pNtk) (Some base) s) = 0 ->
  forall v,
    fst (Sim_NtkLoadSwitching mc pNtk (Some (base +:+ ".switch")%string)
           (snd (Sim_NtkWriteSwitchingTemplate mc (Some pNtk) (Some base) s)))
    <> Returned (Some v).
Proof.
  intros Hv Hne Hlt Hw v. pose proof (writer_success_file mc pNtk base s Hw) as Hf.
  rewrite (load_named mc _ _ _ _ Hf).
  destruct (load_from _ _ _ _ _ _) as [[p l]|o l] eqn:E; cbn [fst].
  - exfalso. apply load_from_trailing in E; [|reflexivity|exact Hne|exact Hlt].
    assert (H0 : 0 <= Abc_NtkObjNumMax pNtk).
    { pose proof (valid_dfs _ Hv) as Hd. destruct (Abc_AigDfs pNtk) as [|o nodes];
        [contradiction|]. apply Forall_cons in Hd as [Ho _]. cbn in Ho. lia. }
    rewrite records_template in E; [|exact Hv|exact H0|].
    + rewrite length_app, !length_imap in E. lia.
    + intros Hnil. apply app_eq_nil in Hnil as [_ Hnil]. contradiction.
  - apply (load_from_no_vector mc _ _ _ _ _ _ _ E).
Qed.

Lemma fresh_template_never_loads_witness :
  no_vector
    (fst (Sim_NtkLoadSwitching (Scenario.machine_with 4) Scenario.ntk
            (Some ("net" +:+ ".switch")%string)
            (snd (Sim_NtkWriteSwitchingTemplate (Scenario.machine_with 4)
                    (Some Scenario.ntk) (Some "net"%string) (Scenario.disk "x" []))))).
Proof.
  unfold no_vector.
  apply (fresh_template_never_loads (Scenario.machine_with 4) Scenario.ntk "net"
           (Scenario.disk "x" []) scenario_valid).
  - discriminate.
  - vm_compute. reflexivity.
  - reflexivity.
Defined.

(** ** The loader and the files *)

(** X8. Given a file name, the loader changes no file; when no file has
    that name it returns NULL after the message, having allocated neither
    array, and what lines 122-123 allocated is not freed. *)
Theorem load_keeps_files {F} `{FloatScan F} (mc : machine) (pNtk : Abc_Ntk)
    (name : string) (s : sys F) :
  files (snd (Sim_NtkLoadSwitching mc pNtk (Some name) s)) = files s
  /\ (files s !! name = None ->
      Sim_NtkLoadSwitching mc pNtk (Some name) s
      = (Returned None,
         {| files := files s;
            trace := trace s ++ [EAlloc blk_vNodes; EAlloc blk_nNodes]
                     ++ [EPrint Stderr "Error: Could not open file %s for reading.\n"
                           [PStr (list_ascii_of_string name)]] |})).
Proof.
  unfold Sim_NtkLoadSwitching. cbn [emit files trace].
  destruct (files s !! name) as [contents|] eqn:Ef.
  - split; [|discriminate].
    destruct (load_from _ _ _ _ _ _) as [[p l]|o l]; reflexivity.
  - split; [reflexivity|]. intros _. unfold emit. cbn [files trace].
    now rewrite <- app_assoc.
Qed.

(** ** The header of a file *)

Lemma fits_buffer_suffix size hs : forall ls,
  fits_buffer size (hs ++ ls) -> fits_buffer size ls.
Proof.
  induction hs as [|h hs IH]; intros ls; cbn [app fits_buffer]; [auto|].
  intros (_ & _ & Hf). now apply IH.
Qed.

(** X9. Lines that start with [#] or are empty, put before the first
    record, change nothing: the loader ends the same way and leaves the
    same run behind, as long as every line fits the buffer. *)
Theorem header_lines_ignored {F} `{FloatScan F} (mc : machine) (pNtk : Abc_Ntk)
    (name : string) (s1 s2 : sys F) (hs : list text) (l : text) (ls : list text) :
  Forall (fun h => header_line h = true) hs ->
  header_line l = false ->
  fits_buffer 256 (hs ++ l :: ls) ->
  files s1 !! name = Some (concat (hs ++ l :: ls)) ->
  files s2 !! name = Some (concat (l :: ls)) ->
  fst (Sim_NtkLoadSwitching mc pNtk (Some name) s1)
  = fst (Sim_NtkLoadSwitching mc pNtk (Some name) s2)
  /\ (trace s1 = trace s2 ->
      trace (snd (Sim_NtkLoadSwitching mc pNtk (Some name) s1))
      = trace (snd (Sim_NtkLoadSwitching mc pNtk (Some name) s2))).
Proof.
  intros Hh Hl Hfit Hf1 Hf2.
  rewrite (load_named mc _ _ _ _ Hf1), (load_named mc _ _ _ _ Hf2).
  assert (E : load_from mc pNtk (Abc_AigDfs pNtk) (CInt.wrap (vec_address mc))
                (concat (hs ++ l :: ls)) [EFopen name]
              = load_from mc pNtk (Abc_AigDfs pNtk) (CInt.wrap (vec_address mc))
                  (concat (l :: ls)) [EFopen name]).
  { unfold load_from.
    rewrite (chunks_fits 256 (hs ++ l :: ls)) by exact Hfit.
    rewrite (chunks_fits 256 (l :: ls)) by (eapply fits_buffer_suffix; exact Hfit).
    rewrite (skip_header_app hs None l ls Hh Hl).
    pose proof (skip_header_app [] None l ls (List.Forall_nil _) Hl) as E0.
    cbn [app] in E0. now rewrite E0. }
  rewrite E. clear E.
  destruct (load_from _ _ _ _ _ _) as [[p lg]|o lg]; cbn [fst snd];
    (split; [reflexivity|]); intros Ht; unfold emit; cbn [trace]; now rewrite Ht.
Qed.

Lemma header_lines_ignored_witness :
  Scenario.load_with 4
    (concat ([lit "# a comment\n"; [LF]]
             ++ record_line "CI" 0 0 (lit "0.5") :: Scenario.rest_of_file))
  = Scenario.load_with 4 (concat (record_line "CI" 0 0 (lit "0.5") :: Scenario.rest_of_file)).
Proof.
  refine (proj1 (header_lines_ignored (Scenario.machine_with 4) Scenario.ntk "net.switch"
           (Scenario.disk "net.switch" _) (Scenario.disk "net.switch" _)
           [lit "# a comment\n"; [LF]] (record_line "CI" 0 0 (lit "0.5"))
           Scenario.rest_of_file _ _ _ _ _)).
  - repeat constructor.
  - reflexivity.
  - cbn [app fits_buffer Scenario.rest_of_file].
    repeat (split; [vm_compute; lia | split; [line_shape|]]). exact I.
  - reflexivity.
  - reflexivity.
Defined.

(** ** The vector that the loader returns *)

Section LoadedVector.
Context {F : Type} `{FloatScan F}.
Variable mc : machine.

Lemma store_other {A} (a a' : list A) i v k :
  store a i v = Some a' -> i <> Z.of_nat k -> a' !! k = a !! k.
Proof.
  unfold store. destruct (_ && _) eqn:E; [|discriminate]. intros [= <-] Hne.
  apply list_lookup_insert_ne. apply andb_prop in E as [E _]. lia.
Qed.

Lemma assign_cis_frame cis : forall i (Ci p p' : list (cell F)),
  assign_cis cis i Ci p = Next p' ->
  Forall (fun o => 0 <= Id o < Z.of_nat (length p)) cis
  /\ forall k, (forall o, o ∈ cis -> Id o <> Z.of_nat k) -> p' !! k = p !! k.
Proof.
  induction cis as [|o cis IH]; intros i Ci p p'; cbn [assign_cis].
  - intros [= <-]. split; [constructor|reflexivity].
  - destruct (load Ci i) as [v|]; [|discriminate].
    destruct (store p (Id o) v) as [p1|] eqn:Es; [|discriminate].
    intros Hr. apply IH in Hr as [Hf Hk]. pose proof (store_Some _ _ _ _ Es) as [Hl Hi].
    split; [constructor; [exact Hi|now rewrite Hl in Hf]|].
    intros k Hne. rewrite Hk by (intros o' Ho'; apply Hne; now right).
    eapply store_other; [exact Es|]. apply Hne. now left.
Qed.

Lemma assign_nodes_frame vNodes : forall (Node p : list (cell F)) l p' l',
  assign_nodes vNodes Node p l = Next (p', l') ->
  forall k, (forall o, o ∈ vNodes -> Id o <> Z.of_nat k) -> p' !! k = p !! k.
Proof.
  induction vNodes as [|o vs IH]; intros Node p l p' l'; cbn [assign_nodes].
  - now intros [= <- _].
  - destruct (load Node (Id o)) as [v|]; [|discriminate].
    destruct (store p (Id o) v) as [p1|] eqn:Es; [|discriminate].
    intros Hr k Hne. rewrite (IH _ _ _ _ _ Hr) by (intros o' Ho'; apply Hne; now right).
    eapply store_other; [exact Es|]. apply Hne. now left.
Qed.

Lemma load_from_vector pNtk vNodes nNodes contents l0 v l :
  load_from mc pNtk vNodes nNodes contents l0 = Next (v, l) ->
  length v = Z.to_nat nNodes
  /\ Forall (fun o => 0 <= Id o < nNodes) (vCis pNtk ++ Abc_AigDfs pNtk)
  /\ forall k, (k < length v)%nat ->
       (forall o, o ∈ vCis pNtk ++ Abc_AigDfs pNtk -> Id o <> Z.of_nat k) ->
       v !! k = Some (Some f_bits0).
Proof.
  unfold load_from.
  destruct (negb (malloc_ok mc blk_Ci_Switching)
            || negb (malloc_ok mc blk_Node_Switching && (0 <=? nNodes))) eqn:Em;
    [discriminate|].
  assert (H0 : 0 <= nNodes).
  { apply orb_false_elim in Em as [_ Em]. apply negb_false_iff in Em.
    apply andb_prop in Em as [_ Em]. lia. }
  destruct (skip_header None (chunks 256 contents)) as [buf rest].
  destruct (for_loop _ 0 (read_ci _) _) as [fr1|] eqn:Eci; [|discriminate]. cbn [bind].
  destruct (for_loop _ 0 (read_node _) _) as [fr2|] eqn:End; [|discriminate]. cbn [bind].
  destruct (negb (malloc_ok mc blk_vSwitching)); [discriminate|].
  destruct (assign_cis _ _ _ _) as [p1|] eqn:Eac; [|discriminate].
  destruct (assign_nodes _ _ _ _) as [[p2 l2]|] eqn:Ean; [|discriminate].
  cbn [bind]. intros [= <- _].
  pose proof (assign_cis_next _ _ _ _ _ Eac) as Hl1.
  pose proof (assign_cis_frame _ _ _ _ _ Eac) as [Hc Hk1].
  pose proof (assign_nodes_next _ _ _ _ _ _ Ean) as [Hl2 Hd].
  pose proof (assign_nodes_frame _ _ _ _ _ _ Ean) as Hk2.
  rewrite length_replicate in Hl1, Hc. rewrite Hl1 in Hl2, Hd.
  split; [exact Hl2|]. split.
  - apply Forall_app. split; (eapply Forall_impl; [eassumption|]); cbn; lia.
  - intros k Hk Hne.
    rewrite Hk2 by (intros o Ho; apply Hne, elem_of_app; now right).
    rewrite Hk1 by (intros o Ho; apply Hne, elem_of_app; now left).
    apply lookup_replicate_2. lia.
Qed.

(** X10. A vector that the loader returns has [nNodes] entries, every
    identifier of a combinational input or node is an index of it, and
    the entries of all other identifiers hold zero bits, as
    [Vec_IntStart] left them. *)
Theorem loaded_vector_shape (pNtk : Abc_Ntk) (name : string) (s : sys F)
    (v : list (cell F)) :
  fst (Sim_NtkLoadSwitching mc pNtk (Some name) s) = Returned (Some v) ->
  length v = Z.to_nat (CInt.wrap (vec_address mc))
  /\ Forall (fun o => 0 <= Id o < CInt.wrap (vec_address mc))
       (vCis pNtk ++ Abc_AigDfs pNtk)
  /\ forall k, (k < length v)%nat ->
       (forall o, o ∈ vCis pNtk ++ Abc_AigDfs pNtk -> Id o <> Z.of_nat k) ->
       v !! k = Some (Some f_bits0).
Proof.
  destruct (files s !! name) as [contents|] eqn:Hf.
  - rewrite (load_named mc _ _ _ _ Hf).
    destruct (load_from _ _ _ _ _ _) as [[p l]|o l] eqn:E; cbn [fst].
    + intros [= <-]. eapply load_from_vector, E.
    + intros ->. now destruct (load_from_no_vector mc _ _ _ _ _ _ _ E v).
  - unfold Sim_NtkLoadSwitching. cbn [emit files]. rewrite Hf. discriminate.
Qed.

End LoadedVector.

Lemma loaded_vector_shape_witness :
  length [Some 0%Q; Some (1 # 2)%Q; Some (1 # 2)%Q; None]
  = Z.to_nat (CInt.wrap (vec_address (Scenario.machine_with 4)))
  /\ Forall (fun o => 0 <= Id o < CInt.wrap (vec_address (Scenario.machine_with 4)))
       (vCis Scenario.ntk ++ Abc_AigDfs Scenario.ntk)
  /\ forall k, (k < length [Some 0%Q; Some (1 # 2)%Q; Some (1 # 2)%Q; None])%nat ->
       (forall o, o ∈ vCis Scenario.ntk ++ Abc_AigDfs Scenario.ntk -> Id o <> Z.of_nat k) ->
       [Some 0%Q; Some (1 # 2)%Q; Some (1 # 2)%Q; None] !! k = Some (Some f_bits0).
Proof.
  apply (loaded_vector_shape (Scenario.machine_with 4) Scenario.ntk "net.switch"
           (Scenario.disk "net.switch" (Scenario.edited ++ [LF]))).
  vm_compute. reflexivity.
Defined.

(** ** What the loader allocates, opens, frees and closes *)

Section Resources.
Context {F : Type} `{FloatScan F}.
Variable mc : machine.

Lemma resources_app (l1 l2 : list (event F)) :
  resources (l1 ++ l2) = resources l1 ++ resources l2.
Proof. apply List.filter_app. Qed.

Lemma read_ci_resources nCis i (fr : frame F) :
  match read_ci nCis i fr with
  | Next fr' => resources (log fr') = resources (log fr)
  | Leave (Returned x) l => x = None /\ resources l = resources (log fr) ++ bail_out
  | Leave (Faulted _) _ => True
  end.
Proof.
  unfold read_ci. destruct (buffer fr) as [b|]; [|exact I].
  cbn [say log Ci_Switching pFile buffer Node_Switching].
  destruct (sscanf b _) as [|[id|?] [|[?|v] [|? ?]]];
    try (split; [reflexivity|]; rewrite !resources_app; cbn; now rewrite app_nil_r).
  destruct (store _ id _) as [a|]; [|exact I].
  unfold read_line. cbn [pFile log].
  destruct (pFile fr) as [|l rest].
  - destruct (i <? _); cbn [log]; [split; [reflexivity|]|];
      rewrite !resources_app; cbn; now rewrite app_nil_r.
  - cbn [log]. rewrite resources_app. cbn. now rewrite app_nil_r.
Qed.

Lemma read_node_resources nNodes i (fr : frame F) :
  match read_node nNodes i fr with
  | Next fr' => resources (log fr') = resources (log fr)
  | Leave (Returned x) l => x = None /\ resources l = resources (log fr) ++ bail_out
  | Leave (Faulted _) _ => True
  end.
Proof.
  unfold read_node. destruct (buffer fr) as [b|]; [|exact I].
  cbn [say log Ci_Switching pFile buffer Node_Switching].
  destruct (sscanf b _) as [|[id|?] [|[?|v] [|? ?]]];
    try (split; [reflexivity|]; rewrite !resources_app; cbn; now rewrite app_nil_r).
  destruct (store _ id _) as [a|]; [|exact I].
  unfold read_line. cbn [pFile log].
  destruct (pFile fr) as [|l rest].
  - destruct (i <? _); cbn [log]; [split; [reflexivity|]|];
      rewrite !resources_app; cbn; now rewrite app_nil_r.
  - cbn [log]. rewrite resources_app. cbn. now rewrite app_nil_r.
Qed.

Lemma for_loop_resources (body : Z -> frame F -> flow F (frame F)) :
  (forall i fr,
     match body i fr with
     | Next fr' => resources (log fr') = resources (log fr)
     | Leave (Returned x) l => x = None /\ resources l = resources (log fr) ++ bail_out
     | Leave (Faulted _) _ => True
     end) ->
  forall n i fr,
    match for_loop n i body fr with
    | Next fr' => resources (log fr') = resources (log fr)
    | Leave (Returned x) l => x = None /\ resources l = resources (log fr) ++ bail_out
    | Leave (Faulted _) _ => True
    end.
Proof.
  intros Hbody. induction n as [|n IH]; intros i fr; cbn [for_loop]; [reflexivity|].
  specialize (Hbody i fr). destruct (body i fr) as [fr1|o l]; cbn [bind]; [|exact Hbody].
  specialize (IH (i + 1) fr1).
  destruct (for_loop n (i + 1) body fr1) as [fr2|[x|f] l]; [| |exact I].
  - congruence.
  - destruct IH as [-> ->]. now rewrite Hbody.
Qed.

Lemma assign_nodes_resources vNodes : forall (Node p : list (cell F)) l p' l',
  assign_nodes vNodes Node p l = Next (p', l') -> resources l' = resources l.
Proof.
  induction vNodes as [|o vs IH]; intros Node p l p' l'; cbn [assign_nodes].
  - now intros [= _ <-].
  - destruct (load Node (Id o)) as [v|]; [|discriminate].
    destruct (store p (Id o) v) as [p1|]; [|discriminate].
    intros Hr. apply IH in Hr. rewrite Hr, resources_app. cbn. now rewrite app_nil_r.
Qed.

Lemma load_from_resources pNtk vNodes nNodes contents l0 :
  malloc_ok mc blk_Ci_Switching = true ->
  malloc_ok mc blk_Node_Switching = true ->
  0 <= nNodes ->
  match load_from mc pNtk vNodes nNodes contents l0 with
  | Next (_, l) => resources l = resources l0 ++ arrays_loaded
  | Leave (Returned x) l =>
      x = None
      /\ (resources l = resources l0 ++ arrays_read_failed
          \/ resources l = resources l0 ++ arrays_no_vector)
  | Leave (Faulted _) _ => True
  end.
Proof.
  intros Hci Hnode H0. unfold load_from.
  rewrite Hci, Hnode. apply Z.leb_le in H0. rewrite H0. cbn [negb andb orb].
  destruct (skip_header None (chunks 256 contents)) as [buf rest].
  set (fr0 := Build_frame _ _ _ _ _).
  assert (Hl0 : resources (log fr0)
                = resources l0 ++ [EAlloc blk_Ci_Switching; EAlloc blk_Node_Switching]).
  { subst fr0. cbn [log]. now rewrite !resources_app. }
  clearbody fr0.
  pose proof (for_loop_resources _ (read_ci_resources (Abc_NtkCiNum pNtk))
                (Z.to_nat (Abc_NtkCiNum pNtk)) 0 fr0) as H1.
  destruct (for_loop _ 0 (read_ci _) fr0) as [fr1|[x|f] l1]; cbn [bind]; [| |exact I].
  2:{ destruct H1 as [-> ->]. split; [reflexivity|left].
      now rewrite Hl0, <- app_assoc. }
  pose proof (for_loop_resources _ (read_node_resources nNodes)
                (length vNodes) 0 fr1) as H2.
  destruct (for_loop _ 0 (read_node _) fr1) as [fr2|[x|f] l2]; cbn [bind]; [| |exact I].
  2:{ destruct H2 as [-> ->]. split; [reflexivity|left].
      now rewrite H1, Hl0, <- app_assoc. }
  rewrite H1, Hl0 in H2.
  destruct (negb (malloc_ok mc blk_vSwitching)).
  { split; [reflexivity|right]. rewrite !resources_app, H2, <- !app_assoc. reflexivity. }
  destruct (assign_cis _ _ _ _) as [p1|[x|f] l3] eqn:Eac; [| |exact I].
  2:{ apply assign_cis_leave in Eac as [f Hf]. discriminate. }
  destruct (assign_nodes _ _ _ _) as [[p2 l4]|[x|f] l4] eqn:Ean; cbn [bind]; [| |exact I].
  2:{ apply assign_nodes_leave in Ean as [f Hf]. discriminate. }
  apply assign_nodes_resources in Ean.
  rewrite !resources_app, Ean, !resources_app, H2, <- !app_assoc. reflexivity.
Qed.

Lemma count_resources (p : event F -> bool) (l : list (event F)) :
  (forall e, is_print e = true -> p e = false) ->
  count p l = count p (resources l).
Proof.
  intros Hp. unfold count, resources. induction l as [|e l IH]; [reflexivity|].
  cbn [List.filter]. destruct (is_print e) eqn:Ee; cbn [negb].
  - now rewrite (Hp e Ee).
  - cbn [List.filter]. destruct (p e); cbn [length]; now rewrite IH.
Qed.

Lemma count_app (p : event F -> bool) (l1 l2 : list (event F)) :
  count p (l1 ++ l2) = (count p l1 + count p l2)%nat.
Proof. unfold count. now rewrite List.filter_app, length_app. Qed.

End Resources.

Section Protocol.
Context {F : Type} `{FloatScan F}.
Variable mc : machine.

(** Counting the events of a run of the loader: what it prints does
    not count. *)
Local Ltac count_cases :=
  repeat split;
  repeat match goal with
    | Hr : resources ?l = _
      |- context [count ?p ([EAlloc blk_vNodes; EAlloc blk_nNodes] ++ ?l)] =>
        rewrite (count_resources p ([EAlloc blk_vNodes; EAlloc blk_nNodes] ++ l))
          by (intros [] ?; (discriminate || reflexivity));
        rewrite (resources_app [EAlloc blk_vNodes; EAlloc blk_nNodes] l), Hr
    end;
  first [reflexivity | cbn; lia].

(** X11. A run of the loader that got its two arrays and returns, with a
    vector or with NULL, has opened the file once and closed it once, and
    has freed each of the two arrays once; it has not freed the vector of
    line 123, nor the node list of line 122. *)
Theorem load_resource_protocol (pNtk : Abc_Ntk) (name : string) (contents : text)
    (s : sys F) (x : option (list (cell F))) :
  files s !! name = Some contents ->
  malloc_ok mc blk_Ci_Switching = true ->
  malloc_ok mc blk_Node_Switching = true ->
  0 <= CInt.wrap (vec_address mc) ->
  fst (Sim_NtkLoadSwitching mc pNtk (Some name) s) = Returned x ->
  exists es,
    trace (snd (Sim_NtkLoadSwitching mc pNtk (Some name) s)) = trace s ++ es
    /\ count is_fopen es = 1%nat /\ count is_fclose es = 1%nat
    /\ count (is_alloc blk_Ci_Switching) es = 1%nat
    /\ count (is_free blk_Ci_Switching) es = 1%nat
    /\ count (is_alloc blk_Node_Switching) es = 1%nat
    /\ count (is_free blk_Node_Switching) es = 1%nat
    /\ count (is_alloc blk_nNodes) es = 1%nat
    /\ count (is_free blk_nNodes) es = 0%nat
    /\ (count (is_free blk_vNodes) es < count (is_alloc blk_vNodes) es)%nat.
Proof.
  intros Hf Hci Hnode H0. rewrite (load_named mc _ _ _ _ Hf).
  pose proof (load_from_resources mc pNtk (Abc_AigDfs pNtk) _ contents [EFopen name]
                Hci Hnode H0) as Hr.
  destruct (load_from _ _ _ _ _ _) as [[p l]|[y|f] l]; cbn [fst snd]; [| |discriminate];
    intros _; unfold emit; cbn [trace];
    exists ([EAlloc blk_vNodes; EAlloc blk_nNodes] ++ l);
    (split; [now rewrite app_assoc|]).
  - count_cases.
  - destruct Hr as [_ [Hr|Hr]]; count_cases.
Qed.

(** X12. When one of the two arrays is not granted the loader returns
    NULL and closes the file, but frees nothing: the array that was
    granted, if any, stays allocated. *)
Theorem load_allocation_failure (pNtk : Abc_Ntk) (name : string) (contents : text)
    (s : sys F) :
  files s !! name = Some contents ->
  malloc_ok mc blk_Ci_Switching = false \/ malloc_ok mc blk_Node_Switching = false ->
  fst (Sim_NtkLoadSwitching mc pNtk (Some name) s) = Returned None
  /\ exists es,
       trace (snd (Sim_NtkLoadSwitching mc pNtk (Some name) s)) = trace s ++ es
       /\ count is_fopen es = 1%nat /\ count is_fclose es = 1%nat
       /\ (forall b, count (is_free b) es = 0%nat)
       /\ count (is_alloc blk_Ci_Switching) es
          = (if malloc_ok mc blk_Ci_Switching then 1%nat else 0%nat)
       /\ count (is_alloc blk_Node_Switching) es
          = (if malloc_ok mc blk_Node_Switching && (0 <=? CInt.wrap (vec_address mc))
             then 1%nat else 0%nat).
Proof.
  intros Hf Hfail. rewrite (load_named mc _ _ _ _ Hf). unfold load_from.
  destruct (negb (malloc_ok mc blk_Ci_Switching)
            || negb (malloc_ok mc blk_Node_Switching && (0 <=? CInt.wrap (vec_address mc))))
    eqn:Em.
  - cbn [fst snd]. split; [reflexivity|]. unfold emit. cbn [trace].
    eexists. split; [rewrite <- app_assoc; reflexivity|].
    destruct (malloc_ok mc blk_Ci_Switching),
             (malloc_ok mc blk_Node_Switching && (0 <=? CInt.wrap (vec_address mc)));
      repeat split; try (intros []); reflexivity.
  - exfalso. apply orb_false_elim in Em as [E1 E2].
    apply negb_false_iff in E1, E2. apply andb_prop in E2 as [E2 _].
    destruct Hfail; congruence.
Qed.

End Protocol.

Lemma load_resource_protocol_witness :
  exists es,
    trace (snd (Sim_NtkLoadSwitching (Scenario.machine_with 4) Scenario.ntk
                  (Some "net.switch"%string)
                  (Scenario.disk "net.switch" (Scenario.edited ++ [LF]))))
    = trace (Scenario.disk "net.switch" (Scenario.edited ++ [LF])) ++ es
    /\ count is_fopen es = 1%nat /\ count is_fclose es = 1%nat
    /\ count (is_alloc blk_Ci_Switching) es = 1%nat
    /\ count (is_free blk_Ci_Switching) es = 1%nat
    /\ count (is_alloc blk_Node_Switching) es = 1%nat
    /\ count (is_free blk_Node_Switching) es = 1%nat
    /\ count (is_alloc blk_nNodes) es = 1%nat
    /\ count (is_free blk_nNodes) es = 0%nat
    /\ (count (is_free blk_vNodes) es < count (is_alloc blk_vNodes) es)%nat.
Proof.
  apply (load_resource_protocol (Scenario.machine_with 4) Scenario.ntk "net.switch"
           (Scenario.edited ++ [LF]) _
           (Some [Some 0%Q; Some (1 # 2)%Q; Some (1 # 2)%Q; None])).
  - reflexivity.
  - reflexivity.
  - reflexivity.
  - vm_compute. discriminate.
  - vm_compute. reflexivity.
Defined.

Lemma load_allocation_failure_witness :
  fst (Sim_NtkLoadSwitching
         {| malloc_ok := fun b => negb (same_block b blk_Node_Switching);
            fopen_w_ok := fun _ => true; vec_address := 4 |}
         Scenario.ntk (Some "net.switch"%string)
         (Scenario.disk "net.switch" Scenario.edited))
  = Returned None.
Proof.
  refine (proj1 (load_allocation_failure _ Scenario.ntk "net.switch" Scenario.edited
                   (Scenario.disk "net.switch" Scenario.edited) _ _)).
  - reflexivity.
  - right. reflexivity.
Defined.

(** ** A file that the loader accepts *)

Section Accepting.
Context {F : Type} `{FloatScan F}.
Variable mc : machine.

Lemma fill_length_from (recs : list (Z * F)) : forall (a : list (cell F)),
  length (foldl (fun a r => <[Z.to_nat (fst r) := Some (snd r)]> a) a recs) = length a.
Proof.
  induction recs as [|r recs IH]; intros a; cbn [foldl]; [reflexivity|].
  now rewrite IH, length_insert.
Qed.

Lemma read_ci_run nCis i (fr : frame F) b r l' rest :
  buffer fr = Some b -> scans_as "CI %*d: ID=%d %f" b r ->
  0 <= fst r < Z.of_nat (length (Ci_Switching fr)) ->
  pFile fr = l' :: rest ->
  exists lg,
    read_ci nCis i fr
    = Next {| buffer := Some l'; pFile := rest;
              Ci_Switching := <[Z.to_nat (fst r) := Some (snd r)]> (Ci_Switching fr);
              Node_Switching := Node_Switching fr; log := lg |}.
Proof.
  intros Hb Hs Hr Hp. unfold read_ci. rewrite Hb.
  cbn [say Ci_Switching Node_Switching buffer pFile log].
  unfold scans_as in Hs. rewrite Hs. rewrite (store_in _ _ _ Hr).
  unfold read_line. cbn [pFile]. rewrite Hp. eauto.
Qed.

Lemma read_node_run nNodes i (fr : frame F) b r l' rest :
  buffer fr = Some b -> scans_as " Node %*d : ID = %d %f " b r ->
  0 <= fst r < Z.of_nat (length (Node_Switching fr)) ->
  pFile fr = l' :: rest ->
  exists lg,
    read_node nNodes i fr
    = Next {| buffer := Some l'; pFile := rest;
              Ci_Switching := Ci_Switching fr;
              Node_Switching := <[Z.to_nat (fst r) := Some (snd r)]> (Node_Switching fr);
              log := lg |}.
Proof.
  intros Hb Hs Hr Hp. unfold read_node. rewrite Hb.
  cbn [say Ci_Switching Node_Switching buffer pFile log].
  unfold scans_as in Hs. rewrite Hs. rewrite (store_in _ _ _ Hr).
  unfold read_line. cbn [pFile]. rewrite Hp. eauto.
Qed.

Lemma cis_loop_run nCis (cl : list text) : forall (recs : list (Z * F)) i (fr : frame F) b l' rest,
  Forall2 (scans_as "CI %*d: ID=%d %f") cl recs ->
  Forall (fun r => 0 <= fst r < Z.of_nat (length (Ci_Switching fr))) recs ->
  buffer fr = Some b -> b :: pFile fr = cl ++ l' :: rest ->
  exists lg,
    for_loop (length cl) i (read_ci nCis) fr
    = Next {| buffer := Some l'; pFile := rest;
              Ci_Switching :=
                foldl (fun a r => <[Z.to_nat (fst r) := Some (snd r)]> a) (Ci_Switching fr) recs;
              Node_Switching := Node_Switching fr; log := lg |}.
Proof.
  induction cl as [|l cl IH]; intros recs i fr b l' rest Hs Hr Hb Hp.
  - apply Forall2_nil_inv_l in Hs as ->. cbn [app] in Hp. injection Hp as -> Hp.
    cbn [length for_loop foldl]. exists (log fr). destruct fr; cbn in *. congruence.
  - apply Forall2_cons_inv_l in Hs as (r & recs' & Hs1 & Hs & ->).
    apply Forall_cons in Hr as [Hr1 Hr]. cbn [app] in Hp. injection Hp as -> Hp.
    assert (Hq : exists b2 q2, pFile fr = b2 :: q2 /\ b2 :: q2 = cl ++ l' :: rest).
    { rewrite Hp. destruct cl; cbn [app]; eauto. }
    destruct Hq as (b2 & q2 & Hq & Hq2).
    destruct (read_ci_run nCis i fr l r b2 q2 Hb Hs1 Hr1 Hq) as [lg Hrun].
    cbn [length for_loop]. rewrite Hrun. cbn [bind].
    match goal with |- context [for_loop _ _ _ ?fr1] =>
      destruct (IH recs' (i + 1) fr1 b2 l' rest Hs) as [lg' Hrun'] end;
      cbn [Ci_Switching buffer pFile];
      [now rewrite length_insert|reflexivity|exact Hq2|].
    rewrite Hrun'. cbn [foldl Ci_Switching Node_Switching]. eauto.
Qed.

Lemma nodes_loop_run nNodes (nl : list text) :
  forall (recs : list (Z * F)) i (fr : frame F) b l' rest,
  Forall2 (scans_as " Node %*d : ID = %d %f ") nl recs ->
  Forall (fun r => 0 <= fst r < Z.of_nat (length (Node_Switching fr))) recs ->
  buffer fr = Some b -> b :: pFile fr = nl ++ l' :: rest ->
  exists lg,
    for_loop (length nl) i (read_node nNodes) fr
    = Next {| buffer := Some l'; pFile := rest;
              Ci_Switching := Ci_Switching fr;
              Node_Switching :=
                foldl (fun a r => <[Z.to_nat (fst r) := Some (snd r)]> a)
                      (Node_Switching fr) recs;
              log := lg |}.
Proof.
  induction nl as [|l nl IH]; intros recs i fr b l' rest Hs Hr Hb Hp.
  - apply Forall2_nil_inv_l in Hs as ->. cbn [app] in Hp. injection Hp as -> Hp.
    cbn [length for_loop foldl]. exists (log fr). destruct fr; cbn in *. congruence.
  - apply Forall2_cons_inv_l in Hs as (r & recs' & Hs1 & Hs & ->).
    apply Forall_cons in Hr as [Hr1 Hr]. cbn [app] in Hp. injection Hp as -> Hp.
    assert (Hq : exists b2 q2, pFile fr = b2 :: q2 /\ b2 :: q2 = nl ++ l' :: rest).
    { rewrite Hp. destruct nl; cbn [app]; eauto. }
    destruct Hq as (b2 & q2 & Hq & Hq2).
    destruct (read_node_run nNodes i fr l r b2 q2 Hb Hs1 Hr1 Hq) as [lg Hrun].
    cbn [length for_loop]. rewrite Hrun. cbn [bind].
    match goal with |- context [for_loop _ _ _ ?fr1] =>
      destruct (IH recs' (i + 1) fr1 b2 l' rest Hs) as [lg' Hrun'] end;
      cbn [Node_Switching buffer pFile];
      [now rewrite length_insert|reflexivity|exact Hq2|].
    rewrite Hrun'. cbn [foldl Ci_Switching Node_Switching]. eauto.
Qed.

Lemma assign_cis_run (cis : list Abc_Obj) : forall i (Ci p : list (cell F)),
  Forall (fun o => 0 <= Id o < Z.of_nat (length p)) cis ->
  (i + length cis <= length Ci)%nat ->
  exists p',
    assign_cis cis (Z.of_nat i) Ci p = Next p'
    /\ (NoDup (Id <$> cis) ->
        forall j o, cis !! j = Some o -> p' !! Z.to_nat (Id o) = Ci !! (i + j)%nat).
Proof.
  induction cis as [|c cis IH]; intros i Ci p Hc Hlen.
  - exists p. split; [reflexivity|]. intros _ j o Hj. discriminate.
  - apply Forall_cons in Hc as [Hid Hc]. cbn [length] in Hlen. cbn [assign_cis].
    unfold load at 1. replace (0 <=? Z.of_nat i) with true by (symmetry; apply Z.leb_le; lia).
    rewrite Nat2Z.id.
    destruct (lookup_lt_is_Some_2 Ci i ltac:(lia)) as [v Hv]. rewrite Hv.
    pose proof (store_in p (Id c) v Hid) as Es. rewrite Es.
    replace (Z.of_nat i + 1) with (Z.of_nat (S i)) by lia.
    destruct (IH (S i) Ci (<[Z.to_nat (Id c) := v]> p)) as (p' & Hrun & Hent);
      [now rewrite length_insert|lia|].
    exists p'. split; [exact Hrun|].
    intros Hnd j o Hj. cbn [fmap list_fmap] in Hnd. apply NoDup_cons in Hnd as [Hnc Hnd].
    destruct j as [|j]; cbn in Hj.
    + injection Hj as <-. rewrite Nat.add_0_r, Hv.
      destruct (assign_cis_frame _ _ _ _ _ Hrun) as [_ Hfr].
      rewrite Hfr.
      * apply list_lookup_insert_eq. lia.
      * intros o' Ho' E. apply Hnc. rewrite Z2Nat.id in E by lia. rewrite <- E.
        now apply list_elem_of_fmap_2.
    + rewrite (Hent Hnd j o Hj). f_equal. lia.
Qed.

Lemma assign_nodes_run (vNodes : list Abc_Obj) : forall (Node p : list (cell F)) l,
  Forall (fun o => 0 <= Id o < Z.of_nat (length p)) vNodes ->
  length Node = length p ->
  exists p' l',
    assign_nodes vNodes Node p l = Next (p', l')
    /\ (NoDup (Id <$> vNodes) ->
        forall o, o ∈ vNodes -> p' !! Z.to_nat (Id o) = Node !! Z.to_nat (Id o)).
Proof.
  induction vNodes as [|c vs IH]; intros Node p l Hc Hlen.
  - exists p, l. split; [reflexivity|]. intros _ o Ho. inversion Ho.
  - apply Forall_cons in Hc as [Hid Hc]. cbn [assign_nodes].
    unfold load at 1. replace (0 <=? Id c) with true by (symmetry; apply Z.leb_le; lia).
    destruct (lookup_lt_is_Some_2 Node (Z.to_nat (Id c)) ltac:(lia)) as [v Hv]. rewrite Hv.
    pose proof (store_in p (Id c) v Hid) as Es. rewrite Es.
    match goal with |- context [assign_nodes vs Node ?q ?lg] =>
      destruct (IH Node q lg) as (p' & l' & Hrun & Hent) end;
      [now rewrite length_insert|now rewrite length_insert|].
    exists p', l'. split; [exact Hrun|].
    intros Hnd o Ho. cbn [fmap list_fmap] in Hnd. apply NoDup_cons in Hnd as [Hnc Hnd].
    apply elem_of_cons in Ho as [->|Ho].
    + rewrite Hv. rewrite (assign_nodes_frame _ _ _ _ _ _ Hrun).
      * apply list_lookup_insert_eq. lia.
      * intros o' Ho' E. apply Hnc. rewrite Z2Nat.id in E by lia. rewrite <- E.
        now apply list_elem_of_fmap_2.
    + now apply Hent.
Qed.

End Accepting.

Section Accepted.
Context {F : Type} `{FloatScan F}.
Variable mc : machine.

Lemma load_from_accepts (pNtk : Abc_Ntk) (l0 : list (event F))
    (hs cl nl : list text) (t : text) (tl : list text) (crecs nrecs : list (Z * F)) :
  let nNodes := CInt.wrap (vec_address mc) in
  fits_buffer 256 (hs ++ cl ++ nl ++ t :: tl) ->
  Forall (fun h => header_line h = true) hs ->
  vCis pNtk <> [] ->
  length cl = length (vCis pNtk) -> length nl = length (Abc_AigDfs pNtk) ->
  Forall2 (scans_as "CI %*d: ID=%d %f") cl crecs ->
  Forall2 (scans_as " Node %*d : ID = %d %f ") nl nrecs ->
  Forall (fun r => 0 <= fst r < Abc_NtkCiNum pNtk) crecs ->
  Forall (fun r => 0 <= fst r < nNodes) nrecs ->
  (forall b, malloc_ok mc b = true) ->
  Forall (fun o => 0 <= Id o < nNodes) (vCis pNtk ++ Abc_AigDfs pNtk) ->
  NoDup (Id <$> vCis pNtk ++ Abc_AigDfs pNtk) ->
  exists v l,
    load_from mc pNtk (Abc_AigDfs pNtk) nNodes (concat (hs ++ cl ++ nl ++ t :: tl)) l0
    = Next (v, l)
    /\ (forall i o, vCis pNtk !! i = Some o ->
          load v (Id o) = fill (length (vCis pNtk)) crecs !! i)
    /\ (forall o, o ∈ Abc_AigDfs pNtk ->
          load v (Id o) = load (fill (Z.to_nat nNodes) nrecs) (Id o)).
Proof.
  intros nNodes Hfit Hh Hne Hlc Hln Hsc Hsn Hrc Hrn Hm Hids Hnd.
  apply Forall_app in Hids as [Hidc Hidd].
  assert (H0 : 0 <= nNodes).
  { destruct (vCis pNtk) as [|o cis]; [contradiction|].
    apply Forall_cons in Hidc as [Ho _]. lia. }
  unfold load_from.
  rewrite !Hm. replace (0 <=? nNodes) with true by (symmetry; now apply Z.leb_le).
  cbn [negb andb orb]. rewrite (chunks_fits _ _ Hfit).
  destruct cl as [|c0 cl'].
  { destruct (vCis pNtk); [contradiction|discriminate]. }
  assert (Hc0 : header_line c0 = false).
  { apply Forall2_cons_inv_l in Hsc as (r & ? & Hs & _). eapply ci_record_not_header, Hs. }
  cbn [app]. rewrite (skip_header_app hs None c0 _ Hh Hc0).
  unfold Abc_NtkCiNum in *. rewrite Nat2Z.id.
  assert (Hq : exists l' rest, nl ++ t :: tl = l' :: rest) by (destruct nl; cbn; eauto).
  destruct Hq as (l' & rest & Hq).
  match goal with |- context [for_loop _ 0 (read_ci ?n) ?fr0] =>
    destruct (cis_loop_run n (c0 :: cl') crecs 0 fr0 c0 l' rest Hsc) as [lg1 Hrun1] end;
    cbn [Ci_Switching buffer pFile].
  { rewrite length_replicate. exact Hrc. }
  { reflexivity. }
  { cbn [app]. now rewrite Hq. }
  rewrite Hlc in Hrun1. cbn [Ci_Switching Node_Switching buffer pFile log] in Hrun1 |- *.
  rewrite Hrun1. cbn [bind].
  match goal with |- context [for_loop _ 0 (read_node nNodes) ?fr1] =>
    destruct (nodes_loop_run nNodes nl nrecs 0 fr1 l' t tl Hsn) as [lg2 Hrun2] end;
    cbn [Node_Switching buffer pFile].
  { rewrite length_replicate, Z2Nat.id by lia. exact Hrn. }
  { reflexivity. }
  { now rewrite Hq. }
  rewrite Hln in Hrun2. cbn [Ci_Switching Node_Switching buffer pFile log] in Hrun2 |- *.
  rewrite Hrun2. cbn [bind Ci_Switching Node_Switching log].
  change (foldl _ (replicate (length (vCis pNtk)) None) crecs)
    with (fill (length (vCis pNtk)) crecs).
  change (foldl _ (replicate (Z.to_nat nNodes) None) nrecs)
    with (fill (Z.to_nat nNodes) nrecs).
  set (Ci := fill (length (vCis pNtk)) crecs).
  set (Nd := fill (Z.to_nat nNodes) nrecs).
  set (p0 := replicate (Z.to_nat nNodes) (Some f_bits0)).
  assert (Hp0 : length p0 = Z.to_nat nNodes) by apply length_replicate.
  destruct (assign_cis_run (vCis pNtk) 0%nat Ci p0) as (p1 & Hrun3 & Hent3).
  { eapply Forall_impl; [exact Hidc|]. intros o Ho. cbv beta in Ho |- *.
    unfold cell in *. lia. }
  { subst Ci. unfold fill. rewrite fill_length_from, length_replicate. lia. }
  change (Z.of_nat 0) with 0 in Hrun3. rewrite Hrun3.
  pose proof (assign_cis_next _ _ _ _ _ Hrun3) as Hl1.
  match goal with |- context [assign_nodes _ Nd p1 ?lg] =>
    destruct (assign_nodes_run (Abc_AigDfs pNtk) Nd p1 lg) as (p2 & l2 & Hrun4 & Hent4) end.
  { eapply Forall_impl; [exact Hidd|]. intros o Ho. cbv beta in Ho |- *.
    unfold cell in *. lia. }
  { subst Nd. unfold fill. rewrite fill_length_from, length_replicate.
    unfold cell in *. lia. }
  rewrite Hrun4. cbn [bind]. eexists p2, _. split; [reflexivity|].
  rewrite fmap_app in Hnd. apply NoDup_app in Hnd as (Hndc & Hdis & Hndd).
  split.
  - intros i o Hi.
    assert (Ho : 0 <= Id o).
    { rewrite Forall_forall in Hidc. apply (Hidc o). eapply list_elem_of_lookup_2, Hi. }
    unfold load. replace (0 <=? Id o) with true by (symmetry; now apply Z.leb_le).
    rewrite (assign_nodes_frame _ _ _ _ _ _ Hrun4).
    + apply (Hent3 Hndc i o Hi).
    + intros o' Ho' E. rewrite Z2Nat.id in E by lia. apply (Hdis (Id o)).
      * apply list_elem_of_fmap_2. eapply list_elem_of_lookup_2, Hi.
      * rewrite <- E. now apply list_elem_of_fmap_2.
  - intros o Ho.
    assert (Ho0 : 0 <= Id o).
    { rewrite Forall_forall in Hidd. apply (Hidd o Ho). }
    unfold load. replace (0 <=? Id o) with true by (symmetry; now apply Z.leb_le).
    now apply Hent4.
Qed.


(** X13. What the loader makes of a file that it accepts. The file is
    some header lines, one CI record per combinational input, one Node
    record per node and at least one more line, every line within the
    buffer; the identifiers of the CI records index the array of the
    inputs and those of the Node records the array of [nNodes] cells;
    all allocations succeed. Then the loader returns a vector in which
    the [i]-th combinational input has what the CI records left in cell
    [i], and a node of identifier [Id] has what the Node records left in
    cell [Id]: a CI record addresses an input by its position, a Node
    record addresses a node by its identifier. *)
Theorem load_accepts (pNtk : Abc_Ntk) (name : string) (s : sys F)
    (hs cl nl : list text) (t : text) (tl : list text) (crecs nrecs : list (Z * F)) :
  let nNodes := CInt.wrap (vec_address mc) in
  files s !! name = Some (concat (hs ++ cl ++ nl ++ t :: tl)) ->
  fits_buffer 256 (hs ++ cl ++ nl ++ t :: tl) ->
  Forall (fun h => header_line h = true) hs ->
  vCis pNtk <> [] ->
  length cl = length (vCis pNtk) -> length nl = length (Abc_AigDfs pNtk) ->
  Forall2 (scans_as "CI %*d: ID=%d %f") cl crecs ->
  Forall2 (scans_as " Node %*d : ID = %d %f ") nl nrecs ->
  Forall (fun r => 0 <= fst r < Abc_NtkCiNum pNtk) crecs ->
  Forall (fun r => 0 <= fst r < nNodes) nrecs ->
  (forall b, malloc_ok mc b = true) ->
  Forall (fun o => 0 <= Id o < nNodes) (vCis pNtk ++ Abc_AigDfs pNtk) ->
  NoDup (Id <$> vCis pNtk ++ Abc_AigDfs pNtk) ->
  exists v,
    fst (Sim_NtkLoadSwitching mc pNtk (Some name) s) = Returned (Some v)
    /\ (forall i o, vCis pNtk !! i = Some o ->
          load v (Id o) = fill (length (vCis pNtk)) crecs !! i)
    /\ (forall o, o ∈ Abc_AigDfs pNtk ->
          load v (Id o) = load (fill (Z.to_nat nNodes) nrecs) (Id o)).
Proof.
  intros nNodes Hf Hfit Hh Hne Hlc Hln Hsc Hsn Hrc Hrn Hm Hids Hnd.
  destruct (load_from_accepts pNtk [EFopen name] hs cl nl t tl crecs nrecs
              Hfit Hh Hne Hlc Hln Hsc Hsn Hrc Hrn Hm Hids Hnd) as (v & l & Hrun & Hent).
  exists v. split; [|exact Hent].
  rewrite (load_named mc _ _ _ _ Hf). subst nNodes. cbv zeta in Hrun.
  now rewrite Hrun.
Qed.

End Accepted.

Lemma load_accepts_witness :
  exists v,
    fst (Sim_NtkLoadSwitching (Scenario.machine_with 4) Scenario.ntk
           (Some "net.switch"%string)
           (Scenario.disk "net.switch" (concat accepted_lines)))
    = Returned (Some v)
    /\ (forall i o, vCis Scenario.ntk !! i = Some o ->
          load v (Id o)
          = fill (length (vCis Scenario.ntk)) [(0, (1 # 2)%Q); (1, (1 # 2)%Q)] !! i)
    /\ (forall o, o ∈ Abc_AigDfs Scenario.ntk ->
          load v (Id o)
          = load (fill (Z.to_nat (CInt.wrap (vec_address (Scenario.machine_with 4))))
                    [(2, (3 # 4)%Q)]) (Id o)).
Proof.
  apply (load_accepts (Scenario.machine_with 4) Scenario.ntk "net.switch"
           (Scenario.disk "net.switch" (concat accepted_lines))
           (header_lines Scenario.ntk)
           [record_line "CI" 0 0 (lit "0.5"); record_line "CI" 1 1 (lit "0.5")]
           [record_line "Node" 0 2 (lit "0.75")] [LF] []
           [(0, (1 # 2)%Q); (1, (1 # 2)%Q)] [(2, (3 # 4)%Q)]).
  - reflexivity.
  - apply whole_lines_fit. unfold header_lines. cbn [app].
    repeat (apply List.Forall_cons;
            [match goal with |- whole_line _ ?l =>
               exists (removelast l); split;
               [vm_compute; reflexivity
               |split; [apply no_LF_elem; vm_compute; reflexivity|vm_compute; lia]]
             end|]).
    apply List.Forall_nil.
  - apply header_lines_skipped.
  - discriminate.
  - reflexivity.
  - reflexivity.
  - repeat constructor; vm_compute; reflexivity.
  - repeat constructor; vm_compute; reflexivity.
  - repeat constructor; vm_compute; (discriminate || reflexivity).
  - repeat constructor; vm_compute; (discriminate || reflexivity).
  - reflexivity.
  - repeat constructor; vm_compute; (discriminate || reflexivity).
  - exact (valid_unique _ scenario_valid).
Defined.

(** ** A template with a line after it *)

Lemma fill_from_lookup (u : Q) (ids : list Z) : forall (a : list (cell Q)) (k : nat),
  Forall (fun id => 0 <= id) ids -> (k < length a)%nat ->
  foldl (fun a r => <[Z.to_nat (fst r) := Some (snd r)]> a) a ((fun id => (id, u)) <$> ids) !! k
  = if bool_decide (Z.of_nat k ∈ ids) then Some (Some u) else a !! k.
Proof.
  induction ids as [|id ids IH]; intros a k Hpos Hk; cbn [fmap list_fmap foldl].
  - rewrite bool_decide_eq_false_2; [reflexivity|]. intros Hin. inversion Hin.
  - apply Forall_cons in Hpos as [H0 Hpos]. cbn [fst snd].
    rewrite IH by (rewrite ?length_insert; assumption).
    destruct (bool_decide (Z.of_nat k ∈ ids)) eqn:E.
    + apply bool_decide_eq_true_1 in E. rewrite bool_decide_eq_true_2; [reflexivity|].
      now right.
    + apply bool_decide_eq_false_1 in E.
      destruct (Z.eq_dec (Z.of_nat k) id) as [Ek|Nk].
      * rewrite bool_decide_eq_true_2 by (rewrite Ek; now left).
        subst id. rewrite Nat2Z.id. now apply list_lookup_insert_eq.
      * rewrite bool_decide_eq_false_2
          by (intros Hin; apply elem_of_cons in Hin as [?|?]; contradiction).
        apply list_lookup_insert_ne. lia.
Qed.

(** Identifiers that are all different and all below their number take
    every value below it. *)
Lemma ids_cover (ids : list Z) (k : nat) :
  NoDup ids -> Forall (fun id => 0 <= id < Z.of_nat (length ids)) ids ->
  (k < length ids)%nat -> Z.of_nat k ∈ ids.
Proof.
  intros Hnd Hr Hk.
  assert (Hnd' : NoDup (Z.to_nat <$> ids)).
  { apply NoDup_fmap_2_strong; [|exact Hnd]. intros x y Hx Hy Hxy.
    rewrite Forall_forall in Hr. pose proof (Hr _ Hx). pose proof (Hr _ Hy). lia. }
  assert (Hsub : Z.to_nat <$> ids ⊆+ seq 0 (length ids)).
  { apply NoDup_submseteq; [exact Hnd'|]. intros x Hx.
    apply list_elem_of_fmap in Hx as (z & -> & Hz).
    rewrite Forall_forall in Hr. pose proof (Hr _ Hz). apply elem_of_seq. lia. }
  apply submseteq_length_Permutation in Hsub; [|rewrite length_fmap, length_seq; lia].
  assert (Hin : k ∈ Z.to_nat <$> ids) by (rewrite Hsub; apply elem_of_seq; lia).
  apply list_elem_of_fmap in Hin as (z & -> & Hz).
  rewrite Forall_forall in Hr. pose proof (Hr _ Hz). now rewrite Z2Nat.id by lia.
Qed.

Lemma records_scan (kind fmt : string) (line : nat -> Abc_Obj -> text) (l : list Abc_Obj) :
  (forall i o, o ∈ l -> scans_as (F:=Q) fmt (line i o) (Id o - 1, (1 # 2)%Q)) ->
  forall i, Forall2 (scans_as (F:=Q) fmt) (imap (fun j o => line (i + j)%nat o) l)
              ((fun o => (Id o - 1, (1 # 2)%Q)) <$> l).
Proof.
  induction l as [|o l IH]; intros Hs i; cbn [imap fmap list_fmap]; constructor.
  - apply Hs. now left.
  - specialize (IH (fun i o Ho => Hs i o (list_elem_of_further _ _ _ Ho)) (S i)).
    erewrite imap_ext; [exact IH|]. intros j y _. cbn [compose]. f_equal. lia.
Qed.

(** X14. Writing a template and loading it back, once a line has been
    put after it. For a valid network whose inputs have the identifiers
    1 to their number and whose nodes have identifiers from 1 on, with
    [nNodes] the number of objects, the loader accepts the template
    followed by an empty line. Every combinational input then has the
    placeholder one half. A node has it only if another node has the
    next identifier; otherwise its entry is a cell of [Node_Switching]
    that was never written: the writer stores under [Id - 1] and the
    loader fetches at [Id]. *)
Theorem template_with_line_loads (mc : machine) (pNtk : Abc_Ntk) (name : string)
    (s : sys Q) :
  valid_ntk pNtk ->
  vCis pNtk <> [] ->
  Forall (fun o => 1 <= Id o <= Abc_NtkCiNum pNtk) (vCis pNtk) ->
  Forall (fun o => 1 <= Id o) (Abc_AigDfs pNtk) ->
  (forall b, malloc_ok mc b = true) ->
  CInt.wrap (vec_address mc) = Abc_NtkObjNumMax pNtk ->
  files s !! name = Some (template_text pNtk ++ [LF]) ->
  exists v,
    fst (Sim_NtkLoadSwitching mc pNtk (Some name) s) = Returned (Some v)
    /\ (forall o, o ∈ vCis pNtk -> load v (Id o) = Some (Some (1 # 2)%Q))
    /\ (forall o, o ∈ Abc_AigDfs pNtk ->
          (exists o', o' ∈ Abc_AigDfs pNtk /\ Id o' = Id o + 1) ->
          load v (Id o) = Some (Some (1 # 2)%Q))
    /\ (forall o, o ∈ Abc_AigDfs pNtk ->
          (forall o', o' ∈ Abc_AigDfs pNtk -> Id o' <> Id o + 1) ->
          load v (Id o) = Some None).
Proof.
  intros Hv Hne Hci Hnode Hm HnN Hf.
  pose proof Hv as [Hmax Hc Hd Hu _].
  assert (H0 : 0 <= Abc_NtkObjNumMax pNtk).
  { destruct (vCis pNtk) as [|o cis]; [contradiction|].
    apply Forall_cons in Hc as [Ho _]. cbn in Ho. lia. }
  set (crecs := (fun o => (Id o - 1, (1 # 2)%Q)) <$> vCis pNtk).
  set (nrecs := (fun o => (Id o - 1, (1 # 2)%Q)) <$> Abc_AigDfs pNtk).
  assert (Hint : forall o, o ∈ vCis pNtk ++ Abc_AigDfs pNtk ->
            CInt.INT_MIN <= Id o - 1 <= CInt.INT_MAX).
  { intros o Ho. unfold CInt.INT_MIN, CInt.INT_MAX in *.
    apply elem_of_app in Ho as [Ho|Ho];
      [rewrite Forall_forall in Hc; specialize (Hc _ Ho)
      |rewrite Forall_forall in Hd; specialize (Hd _ Ho)]; cbn in *; lia. }
  destruct (load_from_accepts mc pNtk [EFopen name] (header_lines pNtk)
              (imap ci_line (vCis pNtk)) (imap node_line (Abc_AigDfs pNtk)) [LF] []
              crecs nrecs) as (v & l & Hrun & Hentc & Hentd).
  - apply whole_lines_fit.
    pose proof (template_lines_whole pNtk Hv H0) as Hw. unfold template_lines in Hw.
    rewrite !app_assoc. apply Forall_app. split; [now rewrite <- !app_assoc|].
    repeat constructor. now apply (literal_line_whole []).
  - apply header_lines_skipped.
  - exact Hne.
  - apply length_imap.
  - apply length_imap.
  - apply (records_scan "CI" _ ci_line _) with (i := 0%nat).
    intros i o Ho. unfold scans_as, ci_line. cbn [fst snd].
    apply ci_record_scans, Hint, elem_of_app. now left.
  - apply (records_scan "Node" _ node_line _) with (i := 0%nat).
    intros i o Ho. unfold scans_as, node_line. cbn [fst snd].
    apply node_record_scans, Hint, elem_of_app. now right.
  - subst crecs. apply Forall_fmap. eapply Forall_impl; [exact Hci|].
    intros o Ho. cbn in *. lia.
  - subst nrecs. apply Forall_fmap. rewrite HnN. apply Forall_forall. intros o Ho.
    rewrite Forall_forall in Hd, Hnode. specialize (Hd o Ho). specialize (Hnode o Ho).
    cbn in *. lia.
  - exact Hm.
  - rewrite HnN. apply Forall_app. split; assumption.
  - exact Hu.
  - exists v. split.
    { rewrite (load_named mc _ _ _ _ Hf).
      rewrite (template_text_concat pNtk Hv). unfold template_lines.
      replace (concat (header_lines pNtk ++ imap ci_line (vCis pNtk)
                       ++ imap node_line (Abc_AigDfs pNtk)) ++ [LF])
        with (concat (header_lines pNtk ++ imap ci_line (vCis pNtk)
                      ++ imap node_line (Abc_AigDfs pNtk) ++ [[LF]])).
      - cbv zeta in Hrun.
        match goal with |- context [load_from ?a ?b ?c ?d ?e ?f] =>
          replace (load_from a b c d e f) with (@Next Q _ (v, l)) by (symmetry; exact Hrun)
        end.
        reflexivity.
      - rewrite !app_assoc, concat_app. cbn [concat]. now rewrite app_nil_r. }
    assert (Hcr : crecs = (fun id => (id, (1 # 2)%Q)) <$> ((fun o => Id o - 1) <$> vCis pNtk))
      by (subst crecs; now rewrite <- list_fmap_compose).
    assert (Hnr : nrecs = (fun id => (id, (1 # 2)%Q))
                          <$> ((fun o => Id o - 1) <$> Abc_AigDfs pNtk))
      by (subst nrecs; now rewrite <- list_fmap_compose).
    rewrite fmap_app in Hu. apply NoDup_app in Hu as (Hndc & _ & _).
    split; [|split].
    + intros o Ho. apply list_elem_of_lookup_1 in Ho as [i Hi].
      rewrite (Hentc i o Hi), Hcr. unfold fill.
      pose proof (lookup_lt_Some _ _ _ Hi) as Hlt.
      rewrite fill_from_lookup.
      * rewrite bool_decide_eq_true_2; [reflexivity|].
        replace i with (Z.to_nat (Z.of_nat i)) at 1 by lia.
        rewrite Nat2Z.id.
        apply ids_cover; [| |now rewrite length_fmap].
        -- replace ((fun o => Id o - 1) <$> vCis pNtk)
             with ((fun z => z - 1) <$> (Id <$> vCis pNtk))
             by (now rewrite <- list_fmap_compose).
           apply NoDup_fmap_2_strong; [intros x y _ _ Hxy; lia|exact Hndc].
        -- apply Forall_fmap. rewrite length_fmap. eapply Forall_impl; [exact Hci|].
           intros o' Ho'. unfold Abc_NtkCiNum in Ho'. cbn in *. lia.
      * apply Forall_fmap. eapply Forall_impl; [exact Hci|]. intros o' Ho'. cbn in *. lia.
      * now rewrite length_replicate.
    + intros o Ho (o' & Ho' & Enext).
      rewrite Forall_forall in Hd. pose proof (Hd o Ho) as Hido. cbn in Hido.
      rewrite (Hentd o Ho), Hnr, HnN. unfold fill, load.
      replace (0 <=? Id o) with true by (symmetry; apply Z.leb_le; lia).
      rewrite fill_from_lookup.
      * rewrite bool_decide_eq_true_2; [reflexivity|].
        rewrite Z2Nat.id by lia. apply list_elem_of_fmap.
        exists o'. split; [lia|exact Ho'].
      * apply Forall_fmap. eapply Forall_impl; [exact Hnode|]. intros x Hx. cbn in *. lia.
      * rewrite length_replicate. lia.
    + intros o Ho Hnone.
      rewrite Forall_forall in Hd. pose proof (Hd o Ho) as Hido. cbn in Hido.
      rewrite (Hentd o Ho), Hnr, HnN. unfold fill, load.
      replace (0 <=? Id o) with true by (symmetry; apply Z.leb_le; lia).
      rewrite fill_from_lookup.
      * rewrite bool_decide_eq_false_2.
        -- rewrite lookup_replicate_2 by lia. reflexivity.
        -- rewrite Z2Nat.id by lia. intros Hin.
           apply list_elem_of_fmap in Hin as (o' & E & Ho').
           apply (Hnone o' Ho'). lia.
      * apply Forall_fmap. eapply Forall_impl; [exact Hnode|]. intros x Hx. cbn in *. lia.
      * rewrite length_replicate. lia.
Qed.

Lemma template_with_line_loads_witness :
  exists v,
    fst (Sim_NtkLoadSwitching (Scenario.machine_with 4) Scenario.ntk
           (Some "net.switch"%string)
           (Scenario.disk "net.switch" (template_text Scenario.ntk ++ [LF])))
    = Returned (Some v)
    /\ (forall o, o ∈ vCis Scenario.ntk -> load v (Id o) = Some (Some (1 # 2)%Q))
    /\ (forall o, o ∈ Abc_AigDfs Scenario.ntk ->
          (exists o', o' ∈ Abc_AigDfs Scenario.ntk /\ Id o' = Id o + 1) ->
          load v (Id o) = Some (Some (1 # 2)%Q))
    /\ (forall o, o ∈ Abc_AigDfs Scenario.ntk ->
          (forall o', o' ∈ Abc_AigDfs Scenario.ntk -> Id o' <> Id o + 1) ->
          load v (Id o) = Some None).
Proof.
  apply (template_with_line_loads (Scenario.machine_with 4) Scenario.ntk "net.switch"
           (Scenario.disk "net.switch" (template_text Scenario.ntk ++ [LF]))
           scenario_valid).
  - discriminate.
  - repeat constructor; vm_compute; discriminate.
  - repeat constructor; vm_compute; discriminate.
  - reflexivity.
  - reflexivity.
  - reflexivity.
Defined.

(** The identifiers of an object and of its fanins are indices of an
    array of [n] entries. *)
(** The words that the generator hands to the [i]-th combinational input. *)
(** Every fanin of a node has its simulation words written before the
    node is simulated: it is a combinational input or an earlier node. *)
Lemma store_iff {A} (a : list A) (i : Z) (v : A) :
  (exists a', store a i v = Some a') <-> 0 <= i < Z.of_nat (length a).
Proof.
  split.
  - intros [a' Hs]. now apply store_Some in Hs.
  - intros Hi. exists (<[Z.to_nat i := v]> a). now apply store_in.
Qed.

Lemma load_Some {A} (a : list A) (i : Z) (v : A) :
  load a i = Some v -> 0 <= i < Z.of_nat (length a).
Proof.
  unfold load. destruct (0 <=? i) eqn:E; [|discriminate].
  intros Hl. apply lookup_lt_Some in Hl. lia.
Qed.

Section Bounds.
Context {F : Type} `{FloatOps F}.
Variables (nSimWords : Z) (N : nat).

Lemma simulate_cis_Some (cis : list Abc_Obj) :
  forall rand pos (vSimInfo : list (list Z)) (pSwitching : list F),
    length vSimInfo = N -> length pSwitching = N ->
    Forall (id_in (Z.of_nat N)) cis ->
    exists vSimInfo' pSwitching',
      simulate_cis cis nSimWords rand pos vSimInfo pSwitching = Some (vSimInfo', pSwitching')
      /\ length vSimInfo' = N /\ length pSwitching' = N.
Proof.
  induction cis as [|o cis IH]; intros rand pos vs ps Hvs Hps Hc.
  - exists vs, ps. auto.
  - apply Forall_cons in Hc as [Hid Hc]. cbn [simulate_cis]. unfold Sim_UtilSetRandom.
    rewrite (store_in vs) by (rewrite Hvs; exact Hid).
    rewrite (store_in ps) by (rewrite Hps; exact Hid).
    apply IH; [now rewrite length_insert..|exact Hc].
Qed.

Lemma simulate_cis_inv (cis : list Abc_Obj) :
  forall rand pos (vSimInfo vSimInfo' : list (list Z)) (pSwitching pSwitching' : list F),
    length vSimInfo = N -> length pSwitching = N ->
    simulate_cis cis nSimWords rand pos vSimInfo pSwitching = Some (vSimInfo', pSwitching') ->
    Forall (id_in (Z.of_nat N)) cis /\ length vSimInfo' = N /\ length pSwitching' = N.
Proof.
  induction cis as [|o cis IH]; intros rand pos vs vs' ps ps' Hvs Hps; cbn [simulate_cis].
  - intros [= <- <-]. auto.
  - unfold Sim_UtilSetRandom.
    destruct (store vs (Id o) _) as [vs1|] eqn:E1; [|discriminate].
    destruct (store ps (Id o) _) as [ps1|] eqn:E2; [|discriminate].
    apply store_Some in E1 as [L1 I1]. apply store_Some in E2 as [L2 I2].
    intros Hr. apply IH in Hr as (Hc & ? & ?); [|lia..].
    split; [|auto]. constructor; [|exact Hc]. unfold id_in. lia.
Qed.

Lemma simulate_nodes_Some (vNodes : list Abc_Obj) :
  forall (vSimInfo : list (list Z)) (pSwitching : list F),
    length vSimInfo = N -> length pSwitching = N ->
    Forall (id_in (Z.of_nat N)) vNodes -> Forall (fanins_in (Z.of_nat N)) vNodes ->
    exists pSwitching',
      simulate_nodes vNodes nSimWords vSimInfo pSwitching = Some pSwitching'
      /\ length pSwitching' = N.
Proof.
  induction vNodes as [|o vNodes IH]; intros vs ps Hvs Hps Hc Hf.
  - exists ps. auto.
  - apply Forall_cons in Hc as [Hid Hc]. apply Forall_cons in Hf as [[Hf0 Hf1] Hf].
    cbn [simulate_nodes]. unfold Sim_UtilSimulateNodeOne.
    destruct (load_in vs (FaninId0 o)) as (p1 & ->); [rewrite Hvs; exact Hf0|].
    destruct (load_in vs (FaninId1 o)) as (p2 & ->); [rewrite Hvs; exact Hf1|].
    rewrite (store_in vs) by (rewrite Hvs; exact Hid).
    match goal with |- context [load ?a (Id o)] =>
      destruct (load_in a (Id o)) as (pSimInfo & ->);
        [rewrite length_insert, Hvs; exact Hid|] end.
    rewrite (store_in ps) by (rewrite Hps; exact Hid).
    apply IH; [now rewrite length_insert..|exact Hc|exact Hf].
Qed.

Lemma simulate_nodes_inv (vNodes : list Abc_Obj) :
  forall (vSimInfo : list (list Z)) (pSwitching pSwitching' : list F),
    length vSimInfo = N -> length pSwitching = N ->
    simulate_nodes vNodes nSimWords vSimInfo pSwitching = Some pSwitching' ->
    Forall (id_in (Z.of_nat N)) vNodes /\ Forall (fanins_in (Z.of_nat N)) vNodes
    /\ length pSwitching' = N.
Proof.
  induction vNodes as [|o vNodes IH]; intros vs ps ps' Hvs Hps; cbn [simulate_nodes].
  - intros [= <-]. auto.
  - unfold Sim_UtilSimulateNodeOne.
    destruct (load vs (FaninId0 o)) as [p1|] eqn:L0; [|discriminate].
    destruct (load vs (FaninId1 o)) as [p2|] eqn:L1; [|discriminate].
    destruct (store vs (Id o) _) as [vs1|] eqn:E1; [|discriminate].
    destruct (load vs1 (Id o)) as [pSimInfo|]; [|discriminate].
    destruct (store ps (Id o) _) as [ps1|] eqn:E2; [|discriminate].
    apply load_Some in L0, L1.
    apply store_Some in E1 as [S1 I1]. apply store_Some in E2 as [S2 I2].
    intros Hr. apply IH in Hr as (Hc & Hf & ?); [|lia..].
    split; [constructor; [unfold id_in; lia|exact Hc]|].
    split; [constructor; [unfold fanins_in; lia|exact Hf]|assumption].
Qed.

End Bounds.

Lemma id_in_to_nat n o : id_in (Z.of_nat (Z.to_nat n)) o <-> id_in n o.
Proof. unfold id_in. lia. Qed.

Lemma fanins_in_to_nat n o : fanins_in (Z.of_nat (Z.to_nat n)) o <-> fanins_in n o.
Proof. unfold fanins_in. lia. Qed.

(** X15. The simulation stays inside its arrays exactly when the
    identifier of every combinational input and node, and the fanin
    identifiers of every node, are below [Abc_NtkObjNumMax]; the vector
    then has that many entries. No identifier is checked. *)
Theorem simulation_in_bounds {F} `{FloatOps F} (f_zero : F) (pNtk : Abc_Ntk)
    (nPatterns : Z) (rand : nat -> Z) (junk : list (list Z)) :
  length junk = Z.to_nat (Abc_NtkObjNumMax pNtk) ->
  ((exists v, Sim_NtkComputeSwitching f_zero pNtk nPatterns rand junk = Some v)
   <-> Forall (id_in (Abc_NtkObjNumMax pNtk)) (vCis pNtk ++ Abc_AigDfs pNtk)
       /\ Forall (fanins_in (Abc_NtkObjNumMax pNtk)) (Abc_AigDfs pNtk))
  /\ forall v, Sim_NtkComputeSwitching f_zero pNtk nPatterns rand junk = Some v ->
       length v = Z.to_nat (Abc_NtkObjNumMax pNtk).
Proof.
  intros Hj. unfold Sim_NtkComputeSwitching. cbv zeta.
  set (N := Z.to_nat (Abc_NtkObjNumMax pNtk)) in *.
  set (w := SIM_NUM_WORDS nPatterns).
  assert (Hrep : length (replicate N f_zero) = N) by apply length_replicate.
  split; [split|].
  - intros [v Hv].
    destruct (simulate_cis _ _ _ _ _ _) as [[vs ps]|] eqn:Ec; [|discriminate].
    apply (simulate_cis_inv w N) in Ec as (Hc & Hvs & Hps); [|assumption..].
    apply (simulate_nodes_inv w N) in Hv as (Hd & Hf & _); [|assumption..].
    split.
    + apply Forall_app. split; [eapply Forall_impl; [exact Hc|]|eapply Forall_impl; [exact Hd|]];
        intros o Ho; apply (id_in_to_nat (Abc_NtkObjNumMax pNtk) o); exact Ho.
    + eapply Forall_impl; [exact Hf|]. intros o Ho; apply (fanins_in_to_nat (Abc_NtkObjNumMax pNtk) o); exact Ho.
  - intros [Hids Hf]. apply Forall_app in Hids as [Hc Hd].
    destruct (simulate_cis_Some w N (vCis pNtk) rand 0%nat junk (replicate N f_zero))
      as (vs & ps & -> & Hvs & Hps); [assumption..| |].
    { eapply Forall_impl; [exact Hc|]. intros o Ho; apply (id_in_to_nat (Abc_NtkObjNumMax pNtk) o); exact Ho. }
    destruct (simulate_nodes_Some w N (Abc_AigDfs pNtk) vs ps) as (ps' & -> & _);
      [assumption..| | |eauto].
    + eapply Forall_impl; [exact Hd|]. intros o Ho; apply (id_in_to_nat (Abc_NtkObjNumMax pNtk) o); exact Ho.
    + eapply Forall_impl; [exact Hf|]. intros o Ho; apply (fanins_in_to_nat (Abc_NtkObjNumMax pNtk) o); exact Ho.
  - intros v Hv.
    destruct (simulate_cis _ _ _ _ _ _) as [[vs ps]|] eqn:Ec; [|discriminate].
    apply (simulate_cis_inv w N) in Ec as (Hc & Hvs & Hps); [|assumption..].
    now apply (simulate_nodes_inv w N) in Hv as (_ & _ & Hl).
Qed.

Lemma simulation_in_bounds_witness :
  ((exists v, Sim_NtkComputeSwitching B32.zero Scenario.ntk 40
                (fun n => Z.of_nat n) (replicate 4 []) = Some v)
   <-> Forall (id_in 4) (vCis Scenario.ntk ++ Abc_AigDfs Scenario.ntk)
       /\ Forall (fanins_in 4) (Abc_AigDfs Scenario.ntk))
  /\ forall v, Sim_NtkComputeSwitching B32.zero Scenario.ntk 40
                 (fun n => Z.of_nat n) (replicate 4 []) = Some v ->
       length v = Z.to_nat 4.
Proof.
  apply (simulation_in_bounds B32.zero Scenario.ntk 40 (fun n => Z.of_nat n)
           (replicate 4 [])).
  reflexivity.
Defined.

(** ** What the entries of the vector are *)

Lemma store_same {A} (a a' : list A) i v :
  store a i v = Some a' -> a' !! Z.to_nat i = Some v.
Proof.
  intros Hs. pose proof (store_Some _ _ _ _ Hs) as [_ Hi].
  unfold store in Hs. destruct (_ && _); [|discriminate]. injection Hs as <-.
  apply list_lookup_insert_eq. lia.
Qed.

Section Entries.
Context {F : Type} `{FloatOps F}.
Variable nSimWords : Z.

Lemma simulate_cis_frame (cis : list Abc_Obj) :
  forall rand pos (vSimInfo vSimInfo' : list (list Z)) (pSwitching pSwitching' : list F),
    simulate_cis cis nSimWords rand pos vSimInfo pSwitching = Some (vSimInfo', pSwitching') ->
    forall k, (forall o, o ∈ cis -> Id o <> Z.of_nat k) -> pSwitching' !! k = pSwitching !! k.
Proof.
  induction cis as [|o cis IH]; intros rand pos vs vs' ps ps'; cbn [simulate_cis].
  - now intros [= _ <-].
  - unfold Sim_UtilSetRandom.
    destruct (store vs (Id o) _) as [vs1|]; [|discriminate].
    destruct (store ps (Id o) _) as [ps1|] eqn:E2; [|discriminate].
    intros Hr k Hne. rewrite (IH _ _ _ _ _ _ Hr) by (intros o' Ho'; apply Hne; now right).
    eapply store_other; [exact E2|]. apply Hne. now left.
Qed.

Lemma simulate_nodes_frame (vNodes : list Abc_Obj) :
  forall (vSimInfo : list (list Z)) (pSwitching pSwitching' : list F),
    simulate_nodes vNodes nSimWords vSimInfo pSwitching = Some pSwitching' ->
    forall k, (forall o, o ∈ vNodes -> Id o <> Z.of_nat k) -> pSwitching' !! k = pSwitching !! k.
Proof.
  induction vNodes as [|o vNodes IH]; intros vs ps ps'; cbn [simulate_nodes].
  - now intros [= <-].
  - destruct (Sim_UtilSimulateNodeOne o vs) as [vs1|]; [|discriminate].
    destruct (load vs1 (Id o)) as [pSimInfo|]; [|discriminate].
    destruct (store ps (Id o) _) as [ps1|] eqn:E2; [|discriminate].
    intros Hr k Hne. rewrite (IH _ _ _ Hr) by (intros o' Ho'; apply Hne; now right).
    eapply store_other; [exact E2|]. apply Hne. now left.
Qed.

Lemma simulate_cis_entry (cis : list Abc_Obj) :
  forall rand pos (vSimInfo vSimInfo' : list (list Z)) (pSwitching pSwitching' : list F),
    simulate_cis cis nSimWords rand pos vSimInfo pSwitching = Some (vSimInfo', pSwitching') ->
    NoDup (Id <$> cis) ->
    forall i o, cis !! i = Some o ->
      0 <= Id o
      /\ pSwitching' !! Z.to_nat (Id o)
         = Some (Sim_ComputeSwitching
                   (fst (Sim_UtilSetRandom rand (pos + i * Z.to_nat nSimWords) nSimWords))
                   nSimWords).
Proof.
  induction cis as [|c cis IH]; intros rand pos vs vs' ps ps'; cbn [simulate_cis];
    [intros _ _ i o Hi; discriminate|].
  unfold Sim_UtilSetRandom at 1.
  destruct (store vs (Id c) _) as [vs1|]; [|discriminate].
  destruct (store ps (Id c) _) as [ps1|] eqn:E2; [|discriminate].
  intros Hr Hnd i o Hi. cbn [fmap list_fmap] in Hnd. apply NoDup_cons in Hnd as [Hc Hnd].
  pose proof (store_Some _ _ _ _ E2) as [_ Hid].
  destruct i as [|i]; cbn in Hi.
  - injection Hi as <-. split; [lia|].
    rewrite (simulate_cis_frame _ _ _ _ _ _ _ Hr).
    + rewrite (store_same _ _ _ _ E2). rewrite Nat.mul_0_l, Nat.add_0_r. reflexivity.
    + intros o' Ho' E. apply Hc. rewrite Z2Nat.id in E by lia. rewrite <- E.
      now apply list_elem_of_fmap_2.
  - destruct (IH _ _ _ _ _ _ Hr Hnd i o Hi) as [H0 Hv]. split; [exact H0|].
    replace (pos + S i * Z.to_nat nSimWords)%nat
      with (pos + Z.to_nat nSimWords + i * Z.to_nat nSimWords)%nat by lia.
    exact Hv.
Qed.

End Entries.

(** X16. In the vector that the simulation returns, the entry of an
    identifier that belongs to no combinational input and to no node is
    the zero that [Vec_IntStart] put there. *)
Theorem simulation_untouched_entries {F} `{FloatOps F} (f_zero : F) (pNtk : Abc_Ntk)
    (nPatterns : Z) (rand : nat -> Z) (junk : list (list Z)) (v : list F) (k : nat) :
  Sim_NtkComputeSwitching f_zero pNtk nPatterns rand junk = Some v ->
  (k < Z.to_nat (Abc_NtkObjNumMax pNtk))%nat ->
  (forall o, o ∈ vCis pNtk ++ Abc_AigDfs pNtk -> Id o <> Z.of_nat k) ->
  v !! k = Some f_zero.
Proof.
  unfold Sim_NtkComputeSwitching. cbv zeta.
  destruct (simulate_cis _ _ _ _ _ _) as [[vs ps]|] eqn:Ec; [|discriminate].
  intros Hv Hk Hne.
  rewrite (simulate_nodes_frame _ _ _ _ _ Hv)
    by (intros o Ho; apply Hne, elem_of_app; now right).
  rewrite (simulate_cis_frame _ _ _ _ _ _ _ _ Ec)
    by (intros o Ho; apply Hne, elem_of_app; now left).
  now apply lookup_replicate_2.
Qed.

Lemma simulation_untouched_entries_witness :
  [B32.zero; S754_finite false 12582912 (-25); S754_finite false 8388608 (-24);
   S754_finite false 12582912 (-25)] !! 0%nat = Some B32.zero.
Proof.
  apply (simulation_untouched_entries B32.zero Scenario.ntk 32
           (fun n => Z.of_nat n * 43690 + 21845) (replicate 4 [])).
  - vm_compute. reflexivity.
  - vm_compute. lia.
  - intros o Ho. vm_compute in Ho.
    repeat (apply elem_of_cons in Ho as [->|Ho]; [discriminate|]). inversion Ho.
Defined.

(** X17. The entry of the [i]-th combinational input is the metric of
    the [i]-th run of [nSimWords] words that the generator delivers:
    the inputs draw their words one after the other, and nothing that
    is simulated later overwrites the entry when identifiers are not
    shared. *)
Theorem simulation_ci_entry {F} `{FloatOps F} (f_zero : F) (pNtk : Abc_Ntk)
    (nPatterns : Z) (rand : nat -> Z) (junk : list (list Z)) (v : list F)
    (i : nat) (o : Abc_Obj) :
  NoDup (Id <$> vCis pNtk ++ Abc_AigDfs pNtk) ->
  Sim_NtkComputeSwitching f_zero pNtk nPatterns rand junk = Some v ->
  vCis pNtk !! i = Some o ->
  load v (Id o)
  = Some (Sim_ComputeSwitching (ci_words rand (SIM_NUM_WORDS nPatterns) i)
            (SIM_NUM_WORDS nPatterns)).
Proof.
  intros Hnd. unfold Sim_NtkComputeSwitching. cbv zeta.
  destruct (simulate_cis _ _ _ _ _ _) as [[vs ps]|] eqn:Ec; [|discriminate].
  intros Hv Hi. rewrite fmap_app in Hnd. apply NoDup_app in Hnd as (Hndc & Hdis & _).
  destruct (simulate_cis_entry _ _ _ _ _ _ _ _ Ec Hndc i o Hi) as [H0 He].
  unfold load. replace (0 <=? Id o) with true by (symmetry; now apply Z.leb_le).
  rewrite (simulate_nodes_frame _ _ _ _ _ Hv).
  - exact He.
  - intros o' Ho' E. rewrite Z2Nat.id in E by lia.
    apply (Hdis (Id o)).
    + apply list_elem_of_fmap_2. eapply list_elem_of_lookup_2, Hi.
    + rewrite <- E. now apply list_elem_of_fmap_2.
Qed.

Lemma simulation_ci_entry_witness :
  load [B32.zero; S754_finite false 12582912 (-25); S754_finite false 8388608 (-24);
        S754_finite false 12582912 (-25)] (Id (Scenario.ci 2))
  = Some (Sim_ComputeSwitching
            (ci_words (fun n => Z.of_nat n * 43690 + 21845) (SIM_NUM_WORDS 32) 1)
            (SIM_NUM_WORDS 32)).
Proof.
  apply (simulation_ci_entry B32.zero Scenario.ntk 32
           (fun n => Z.of_nat n * 43690 + 21845) (replicate 4 [])).
  - exact (valid_unique _ scenario_valid).
  - vm_compute. reflexivity.
  - reflexivity.
Defined.

(** ** Simulation words that were never written *)

Lemma agree_store written vs1 vs2 id x :
  agree written vs1 vs2 ->
  match store vs1 id x, store vs2 id x with
  | Some vs1', Some vs2' => agree (id :: written) vs1' vs2'
  | None, None => True
  | _, _ => False
  end.
Proof.
  intros [Hl Ha]. unfold store. rewrite <- Hl.
  destruct ((0 <=? id) && (id <? Z.of_nat (length vs1))) eqn:E; [|exact I].
  apply andb_prop in E as [E1 E2]. apply Z.leb_le in E1. apply Z.ltb_lt in E2.
  split; [now rewrite !length_insert|].
  intros id' Hin. unfold load. destruct (0 <=? id') eqn:E'; [|reflexivity].
  apply Z.leb_le in E'.
  destruct (Z.eq_dec id' id) as [->|Hne].
  - rewrite !list_lookup_insert_eq by lia. reflexivity.
  - rewrite !list_lookup_insert_ne by lia.
    apply elem_of_cons in Hin as [?|Hin]; [contradiction|].
    specialize (Ha id' Hin). unfold load in Ha.
    replace (0 <=? id') with true in Ha by (symmetry; now apply Z.leb_le).
    exact Ha.
Qed.

Section Junk.
Context {F : Type} `{FloatOps F}.
Variable nSimWords : Z.

Lemma simulate_cis_agree (cis : list Abc_Obj) :
  forall rand pos written (vs1 vs2 : list (list Z)) (ps : list F),
    agree written vs1 vs2 ->
    match simulate_cis cis nSimWords rand pos vs1 ps,
          simulate_cis cis nSimWords rand pos vs2 ps with
    | Some (vs1', ps1), Some (vs2', ps2) =>
        ps1 = ps2 /\ agree (rev (Id <$> cis) ++ written) vs1' vs2'
    | None, None => True
    | _, _ => False
    end.
Proof.
  induction cis as [|o cis IH]; intros rand pos written vs1 vs2 ps Ha; cbn [simulate_cis].
  - split; [reflexivity|exact Ha].
  - unfold Sim_UtilSetRandom.
    pose proof (agree_store written vs1 vs2 (Id o)
                  (map (fun k => rand (pos + k)%nat mod 4294967296)
                       (seq 0 (Z.to_nat nSimWords))) Ha) as Hs.
    destruct (store vs1 (Id o) _) as [vs1'|], (store vs2 (Id o) _) as [vs2'|];
      try contradiction; [|exact I].
    destruct (store ps (Id o) _) as [ps'|]; [|exact I].
    specialize (IH rand (pos + Z.to_nat nSimWords)%nat _ vs1' vs2' ps' Hs).
    cbn [fmap list_fmap rev]. rewrite <- app_assoc. exact IH.
Qed.

Lemma simulate_nodes_agree (vNodes : list Abc_Obj) :
  forall written (vs1 vs2 : list (list Z)) (ps : list F),
    agree written vs1 vs2 ->
    fanins_written written vNodes ->
    simulate_nodes vNodes nSimWords vs1 ps = simulate_nodes vNodes nSimWords vs2 ps.
Proof.
  induction vNodes as [|o vNodes IH]; intros written vs1 vs2 ps Ha Hw;
    cbn [simulate_nodes]; [reflexivity|].
  destruct Hw as (H0 & H1 & Hw). unfold Sim_UtilSimulateNodeOne.
  pose proof Ha as [Hl Hload].
  rewrite <- (Hload _ H0), <- (Hload _ H1).
  destruct (load vs1 (FaninId0 o)) as [p1|]; [|reflexivity].
  destruct (load vs1 (FaninId1 o)) as [p2|]; [|reflexivity].
  match goal with |- context [store vs1 (Id o) ?x] =>
    pose proof (agree_store written vs1 vs2 (Id o) x Ha) as Hs end.
  destruct (store vs1 (Id o) _) as [vs1'|], (store vs2 (Id o) _) as [vs2'|];
    try contradiction; [|reflexivity].
  destruct Hs as [Hl' Hload'].
  rewrite <- (Hload' (Id o)) by now left.
  destruct (load vs1' (Id o)) as [pSimInfo|]; [|reflexivity].
  destruct (store ps (Id o) _) as [ps'|]; [|reflexivity].
  apply (IH (Id o :: written)); [split; assumption|exact Hw].
Qed.

End Junk.

(** X18. What the simulation information holds when it is allocated
    never reaches the result: when the fanins of every node are
    combinational inputs or nodes simulated before it, two runs that
    differ only in those uninitialised words return the same. *)
Theorem simulation_ignores_junk {F} `{FloatOps F} (f_zero : F) (pNtk : Abc_Ntk)
    (nPatterns : Z) (rand : nat -> Z) (junk1 junk2 : list (list Z)) :
  fanins_written (rev (Id <$> vCis pNtk)) (Abc_AigDfs pNtk) ->
  length junk1 = length junk2 ->
  Sim_NtkComputeSwitching f_zero pNtk nPatterns rand junk1
  = Sim_NtkComputeSwitching f_zero pNtk nPatterns rand junk2.
Proof.
  intros Hw Hl. unfold Sim_NtkComputeSwitching. cbv zeta.
  assert (Ha : agree [] junk1 junk2) by (split; [exact Hl|intros id Hin; inversion Hin]).
  pose proof (simulate_cis_agree (SIM_NUM_WORDS nPatterns) (vCis pNtk) rand 0%nat [] junk1 junk2
                (replicate (Z.to_nat (Abc_NtkObjNumMax pNtk)) f_zero) Ha) as Hc.
  destruct (simulate_cis _ _ _ _ junk1 _) as [[vs1 ps1]|],
           (simulate_cis _ _ _ _ junk2 _) as [[vs2 ps2]|]; try contradiction;
    [|reflexivity].
  destruct Hc as [<- Hc]. rewrite app_nil_r in Hc.
  now apply (simulate_nodes_agree _ _ (rev (Id <$> vCis pNtk))).
Qed.

Lemma simulation_ignores_junk_witness :
  Sim_NtkComputeSwitching B32.zero Scenario.ntk 32 (fun n => Z.of_nat n)
    (replicate 4 [])
  = Sim_NtkComputeSwitching B32.zero Scenario.ntk 32 (fun n => Z.of_nat n)
      (replicate 4 [4294967295]).
Proof.
  apply (simulation_ignores_junk B32.zero Scenario.ntk 32 (fun n => Z.of_nat n)
           (replicate 4 []) (replicate 4 [4294967295])).
  - cbn. rewrite !elem_of_cons. tauto.
  - reflexivity.
Defined.

(** ** The metric at its edges *)

(** X19. The binary32 metric is [+0.0] only for a buffer that is all
    zeros or all ones: when some patterns are one and some are zero the
    result is a positive normal number, however few they are; no
    rounding takes it down to zero. *)
Theorem switching_zero_iff (pSimInfo : list Z) (nSimWords : Z) :
  1 <= nSimWords -> 32 * nSimWords <= CInt.INT_MAX ->
  let nOnes := Sim_UtilCountOnes pSimInfo nSimWords in
  (Sim_ComputeSwitching (F:=spec_float) pSimInfo nSimWords = B32.zero
   <-> nOnes = 0 \/ nOnes = 32 * nSimWords)
  /\ (0 < nOnes < 32 * nSimWords ->
      exists m e, Sim_ComputeSwitching (F:=spec_float) pSimInfo nSimWords
                  = S754_finite false m e
                  /\ 2 ^ 23 <= Zpos m < 2 ^ 24 /\ -86 <= e).
Proof.
  intros H1 H2 nOnes. destruct (mul_32_words nSimWords H1 H2) as [E HnT].
  pose proof (Sim_UtilCountOnes_range pSimInfo nSimWords ltac:(lia)) as Hk.
  fold nOnes in Hk. unfold Sim_ComputeSwitching. cbv zeta. rewrite E. fold nOnes.
  assert (Hpos : 0 < nOnes < 32 * nSimWords ->
            exists m e, switching_expr (F:=spec_float) nOnes (32 * nSimWords)
                        = S754_finite false m e
                        /\ 2 ^ 23 <= Zpos m < 2 ^ 24 /\ -86 <= e).
  { intros Hin.
    destruct (switching_near nOnes (32 * nSimWords) Hin ltac:(lia))
      as (m & e & Hx & Hm & He & _).
    exists m, e. split; [exact Hx|]. split; [exact Hm|lia]. }
  split; [|exact Hpos]. split.
  - intros Hz. destruct (Z.eq_dec nOnes 0) as [?|N0]; [now left|].
    destruct (Z.eq_dec nOnes (32 * nSimWords)) as [?|N1]; [now right|].
    destruct (Hpos ltac:(lia)) as (m & e & Hx & _). rewrite Hx in Hz. discriminate.
  - intros Hc. apply switching_zero; assumption.
Qed.

Lemma switching_zero_iff_witness :
  (Sim_ComputeSwitching (F:=spec_float) sample_buffer 2 = B32.zero
   <-> Sim_UtilCountOnes sample_buffer 2 = 0 \/ Sim_UtilCountOnes sample_buffer 2 = 32 * 2)
  /\ (0 < Sim_UtilCountOnes sample_buffer 2 < 32 * 2 ->
      exists m e, Sim_ComputeSwitching (F:=spec_float) sample_buffer 2
                  = S754_finite false m e
                  /\ 2 ^ 23 <= Zpos m < 2 ^ 24 /\ -86 <= e).
Proof.
  apply (switching_zero_iff sample_buffer 2); [lia|unfold CInt.INT_MAX; lia].
Defined.

(** X20. With no word at all the metric is not a number: [nTotal] is 0
    and line 326 divides zero by zero. With at least one word it is a
    number. *)
Theorem switching_number_iff (pSimInfo : list Z) (nSimWords : Z) :
  0 <= nSimWords -> 32 * nSimWords <= CInt.INT_MAX ->
  ((exists q, B32.to_Q (Sim_ComputeSwitching (F:=spec_float) pSimInfo nSimWords) = Some q)
   <-> 1 <= nSimWords)
  /\ (nSimWords = 0 ->
      Sim_ComputeSwitching (F:=spec_float) pSimInfo nSimWords = S754_nan).
Proof.
  intros H0 H2.
  assert (Hnan : nSimWords = 0 ->
            Sim_ComputeSwitching (F:=spec_float) pSimInfo nSimWords = S754_nan).
  { intros ->. reflexivity. }
  split; [|exact Hnan]. split.
  - intros [q Hq]. destruct (Z.eq_dec nSimWords 0) as [Ez|Nz]; [|lia].
    rewrite (Hnan Ez) in Hq. discriminate.
  - intros H1. destruct (Sim_ComputeSwitching_unit pSimInfo nSimWords H1 H2) as (q & Hq & _).
    eauto.
Qed.

Lemma switching_number_iff_witness :
  ((exists q, B32.to_Q (Sim_ComputeSwitching (F:=spec_float) sample_buffer 0) = Some q)
   <-> 1 <= 0)
  /\ (0 = 0 -> Sim_ComputeSwitching (F:=spec_float) sample_buffer 0 = S754_nan).
Proof.
  apply (switching_number_iff sample_buffer 0); [lia|unfold CInt.INT_MAX; lia].
Defined.

(** ** The nodes next to the inputs *)

Section FirstLevel.
Context {F : Type} `{FloatOps F}.
Variable nSimWords : Z.

Lemma simulate_cis_info_frame (cis : list Abc_Obj) :
  forall rand pos (vSimInfo vSimInfo' : list (list Z)) (pSwitching pSwitching' : list F),
    simulate_cis cis nSimWords rand pos vSimInfo pSwitching = Some (vSimInfo', pSwitching') ->
    forall k, (forall o, o ∈ cis -> Id o <> Z.of_nat k) -> vSimInfo' !! k = vSimInfo !! k.
Proof.
  induction cis as [|o cis IH]; intros rand pos vs vs' ps ps'; cbn [simulate_cis].
  - now intros [= <- _].
  - unfold Sim_UtilSetRandom.
    destruct (store vs (Id o) _) as [vs1|] eqn:E1; [|discriminate].
    destruct (store ps (Id o) _) as [ps1|]; [|discriminate].
    intros Hr k Hne. rewrite (IH _ _ _ _ _ _ Hr) by (intros o' Ho'; apply Hne; now right).
    eapply store_other; [exact E1|]. apply Hne. now left.
Qed.

Lemma simulate_cis_info (cis : list Abc_Obj) :
  forall rand pos (vSimInfo vSimInfo' : list (list Z)) (pSwitching pSwitching' : list F),
    simulate_cis cis nSimWords rand pos vSimInfo pSwitching = Some (vSimInfo', pSwitching') ->
    NoDup (Id <$> cis) ->
    forall i o, cis !! i = Some o ->
      0 <= Id o
      /\ vSimInfo' !! Z.to_nat (Id o)
         = Some (fst (Sim_UtilSetRandom rand (pos + i * Z.to_nat nSimWords) nSimWords)).
Proof.
  induction cis as [|c cis IH]; intros rand pos vs vs' ps ps'; cbn [simulate_cis];
    [intros _ _ i o Hi; discriminate|].
  unfold Sim_UtilSetRandom at 1.
  destruct (store vs (Id c) _) as [vs1|] eqn:E1; [|discriminate].
  destruct (store ps (Id c) _) as [ps1|]; [|discriminate].
  intros Hr Hnd i o Hi. cbn [fmap list_fmap] in Hnd. apply NoDup_cons in Hnd as [Hc Hnd].
  pose proof (store_Some _ _ _ _ E1) as [_ Hid].
  destruct i as [|i]; cbn in Hi.
  - injection Hi as <-. split; [lia|].
    rewrite (simulate_cis_info_frame _ _ _ _ _ _ _ Hr).
    + rewrite (store_same _ _ _ _ E1). rewrite Nat.mul_0_l, Nat.add_0_r. reflexivity.
    + intros o' Ho' E. apply Hc. rewrite Z2Nat.id in E by lia. rewrite <- E.
      now apply list_elem_of_fmap_2.
  - destruct (IH _ _ _ _ _ _ Hr Hnd i o Hi) as [H0 Hv]. split; [exact H0|].
    replace (pos + S i * Z.to_nat nSimWords)%nat
      with (pos + Z.to_nat nSimWords + i * Z.to_nat nSimWords)%nat by lia.
    exact Hv.
Qed.

Lemma simulate_nodes_first_level (vNodes : list Abc_Obj) :
  forall (vSimInfo : list (list Z)) (pSwitching pSwitching' : list F),
    simulate_nodes vNodes nSimWords vSimInfo pSwitching = Some pSwitching' ->
    NoDup (Id <$> vNodes) ->
    forall pNode p0 p1,
      pNode ∈ vNodes ->
      0 <= FaninId0 pNode -> 0 <= FaninId1 pNode ->
      FaninId0 pNode ∉ Id <$> vNodes -> FaninId1 pNode ∉ Id <$> vNodes ->
      vSimInfo !! Z.to_nat (FaninId0 pNode) = Some p0 ->
      vSimInfo !! Z.to_nat (FaninId1 pNode) = Some p1 ->
      0 <= Id pNode
      /\ pSwitching' !! Z.to_nat (Id pNode)
         = Some (Sim_ComputeSwitching (fanin_and pNode p0 p1) nSimWords).
Proof.
  induction vNodes as [|c vNodes IH]; intros vs ps ps'; cbn [simulate_nodes];
    [intros _ _ pNode p0 p1 Hin; inversion Hin|].
  unfold Sim_UtilSimulateNodeOne.
  destruct (load vs (FaninId0 c)) as [q0|] eqn:L0; [|discriminate].
  destruct (load vs (FaninId1 c)) as [q1|] eqn:L1; [|discriminate].
  destruct (store vs (Id c) _) as [vs1|] eqn:E1; [|discriminate].
  destruct (load vs1 (Id c)) as [pSimInfo|] eqn:L2; [|discriminate].
  destruct (store ps (Id c) _) as [ps1|] eqn:E2; [|discriminate].
  intros Hr Hnd pNode p0 p1 Hin H0 H1 Hf0 Hf1 Hp0 Hp1.
  cbn [fmap list_fmap] in Hnd, Hf0, Hf1. apply NoDup_cons in Hnd as [Hc Hnd].
  pose proof (store_Some _ _ _ _ E1) as [_ Hid].
  apply not_elem_of_cons in Hf0 as [Hf0c Hf0], Hf1 as [Hf1c Hf1].
  apply elem_of_cons in Hin as [->|Hin].
  - unfold load in L0, L1, L2.
    replace (0 <=? FaninId0 c) with true in L0 by (symmetry; now apply Z.leb_le).
    replace (0 <=? FaninId1 c) with true in L1 by (symmetry; now apply Z.leb_le).
    replace (0 <=? Id c) with true in L2 by (symmetry; apply Z.leb_le; lia).
    rewrite Hp0 in L0. rewrite Hp1 in L1. injection L0 as <-. injection L1 as <-.
    rewrite (store_same _ _ _ _ E1) in L2. injection L2 as <-.
    split; [lia|].
    rewrite (simulate_nodes_frame _ _ _ _ _ Hr).
    + exact (store_same _ _ _ _ E2).
    + intros o' Ho' E. apply Hc. rewrite Z2Nat.id in E by lia. rewrite <- E.
      now apply list_elem_of_fmap_2.
  - apply (IH _ _ _ Hr Hnd pNode p0 p1 Hin H0 H1 Hf0 Hf1).
    + rewrite (store_other _ _ _ _ _ E1); [exact Hp0|]. rewrite Z2Nat.id by lia. congruence.
    + rewrite (store_other _ _ _ _ _ E1); [exact Hp1|]. rewrite Z2Nat.id by lia. congruence.
Qed.

End FirstLevel.

(** X21. A node whose two fanins are combinational inputs gets the
    metric of the bitwise AND of the words of those inputs, each
    complemented when its edge is: with identifiers that are not shared,
    neither the simulation of another node nor a later assignment comes
    between. *)
Theorem simulation_first_level_node {F} `{FloatOps F} (f_zero : F) (pNtk : Abc_Ntk)
    (nPatterns : Z) (rand : nat -> Z) (junk : list (list Z)) (v : list F)
    (pNode c0 c1 : Abc_Obj) (i0 i1 : nat) :
  NoDup (Id <$> vCis pNtk ++ Abc_AigDfs pNtk) ->
  Sim_NtkComputeSwitching f_zero pNtk nPatterns rand junk = Some v ->
  pNode ∈ Abc_AigDfs pNtk ->
  vCis pNtk !! i0 = Some c0 -> vCis pNtk !! i1 = Some c1 ->
  FaninId0 pNode = Id c0 -> FaninId1 pNode = Id c1 ->
  let nSimWords := SIM_NUM_WORDS nPatterns in
  load v (Id pNode)
  = Some (Sim_ComputeSwitching
            (fanin_and pNode (ci_words rand nSimWords i0) (ci_words rand nSimWords i1))
            nSimWords).
Proof.
  intros Hnd Hv Hin Hi0 Hi1 Hf0 Hf1 nSimWords.
  unfold Sim_NtkComputeSwitching in Hv. cbv zeta in Hv. fold nSimWords in Hv.
  destruct (simulate_cis _ _ _ _ _ _) as [[vs ps]|] eqn:Ec; [|discriminate].
  rewrite fmap_app in Hnd. apply NoDup_app in Hnd as (Hndc & Hdis & Hndd).
  destruct (simulate_cis_info _ _ _ _ _ _ _ _ Ec Hndc i0 c0 Hi0) as [H0 Hp0].
  destruct (simulate_cis_info _ _ _ _ _ _ _ _ Ec Hndc i1 c1 Hi1) as [H1 Hp1].
  assert (Hc0 : Id c0 ∈ Id <$> vCis pNtk)
    by (apply list_elem_of_fmap_2; eapply list_elem_of_lookup_2, Hi0).
  assert (Hc1 : Id c1 ∈ Id <$> vCis pNtk)
    by (apply list_elem_of_fmap_2; eapply list_elem_of_lookup_2, Hi1).
  destruct (simulate_nodes_first_level nSimWords _ _ _ _ Hv Hndd pNode
              (ci_words rand nSimWords i0) (ci_words rand nSimWords i1) Hin)
    as [Hid He].
  - now rewrite Hf0.
  - now rewrite Hf1.
  - rewrite Hf0. intros Hx. exact (Hdis _ Hc0 Hx).
  - rewrite Hf1. intros Hx. exact (Hdis _ Hc1 Hx).
  - rewrite Hf0. exact Hp0.
  - rewrite Hf1. exact Hp1.
  - unfold load. replace (0 <=? Id pNode) with true by (symmetry; now apply Z.leb_le).
    exact He.
Qed.

Lemma simulation_first_level_node_witness :
  load [S754_zero false; S754_finite false 12582912 (-25); S754_finite false 8388608 (-24);
        S754_finite false 12582912 (-25)] (Id Scenario.and_node)
  = Some (Sim_ComputeSwitching
            (fanin_and Scenario.and_node
               (ci_words (fun n => Z.of_nat n * 43690 + 21845) (SIM_NUM_WORDS 32) 0)
               (ci_words (fun n => Z.of_nat n * 43690 + 21845) (SIM_NUM_WORDS 32) 1))
            (SIM_NUM_WORDS 32)).
Proof.
  apply (simulation_first_level_node B32.zero Scenario.ntk 32
           (fun n => Z.of_nat n * 43690 + 21845) (replicate 4 []) _
           Scenario.and_node (Scenario.ci 1) (Scenario.ci 2) 0 1).
  - exact (valid_unique _ scenario_valid).
  - vm_compute. reflexivity.
  - left.
  - reflexivity.
  - reflexivity.
  - reflexivity.
  - reflexivity.
Defined.

(** ** Files that lack a record *)

Section Incomplete.
Context {F : Type} `{FloatScan F}.
Variable mc : machine.

Lemma chunks_nonempty size (c : ascii) (s : text) : chunks size (c :: s) <> [].
Proof. unfold chunks. cbn [length chunks_fuel fgets]. now destruct (fgets_chunk _ _). Qed.

Lemma skip_header_filled (lines : list text) : forall buf,
  lines <> [] ->
  exists b rest,
    skip_header buf lines = (Some b, rest)
    /\ b ∈ lines /\ (forall l, l ∈ rest -> l ∈ lines).
Proof.
  induction lines as [|l ls IH]; intros buf Hne; [contradiction|].
  cbn [skip_header].
  assert (Hhere : exists b rest, (Some l, ls) = (Some b, rest)
                    /\ b ∈ l :: ls /\ (forall x, x ∈ rest -> x ∈ l :: ls)).
  { exists l, ls. split; [reflexivity|]. split; [apply list_elem_of_here|].
    intros x Hx. now apply list_elem_of_further. }
  destruct l as [|c r]; [exact Hhere|].
  destruct (negb (Ascii.eqb c "#") && negb (Ascii.eqb c LF)); [exact Hhere|].
  destruct ls as [|l' ls'].
  - cbn [skip_header]. exists (c :: r), []. split; [reflexivity|].
    split; [apply list_elem_of_here|]. intros x Hx. inversion Hx.
  - destruct (IH (Some (c :: r)) ltac:(discriminate)) as (b & rest & E & Hb & Hr).
    exists b, rest. split; [exact E|].
    split; [now apply list_elem_of_further|].
    intros x Hx. apply list_elem_of_further. now apply Hr.
Qed.

Lemma read_ci_steady nCis nNodes i (fr : frame F) :
  steady nCis nNodes fr ->
  match read_ci nCis i fr with
  | Next fr' => steady nCis nNodes fr'
  | Leave o _ => o = Returned None
  end.
Proof.
  intros (Hb & Hp & HC & HN). unfold read_ci, pending in *.
  destruct (buffer fr) as [b|] eqn:Eb; [|contradiction].
  apply Forall_cons in Hp as [[Hci Hnode] Hp].
  destruct (sscanf b "CI %*d: ID=%d %f") as [|[id|?] [|[?|v] [|? ?]]] eqn:Es;
    try reflexivity.
  cbn [say Ci_Switching buffer pFile Node_Switching log].
  rewrite store_in by (rewrite HC; apply (Hci id v); exact Es).
  unfold read_line. cbn [pFile buffer Ci_Switching Node_Switching log].
  destruct (pFile fr) as [|l rest] eqn:Ef.
  - destruct (i <? _); [reflexivity|].
    unfold steady, pending. cbn [buffer pFile Ci_Switching Node_Switching].
    rewrite ?Eb, ?Ef, length_insert.
    split; [discriminate|]. split; [|split; assumption].
    constructor; [split; [exact Hci|assumption]|constructor].
  - unfold steady, pending. cbn [buffer pFile Ci_Switching Node_Switching].
    rewrite length_insert. split; [discriminate|]. split; [exact Hp|split; assumption].
Qed.

Lemma read_node_steady nCis nNodes i (fr : frame F) :
  steady nCis nNodes fr ->
  match read_node nNodes i fr with
  | Next fr' => steady nCis nNodes fr'
  | Leave o _ => o = Returned None
  end.
Proof.
  intros (Hb & Hp & HC & HN). unfold read_node, pending in *.
  destruct (buffer fr) as [b|] eqn:Eb; [|contradiction].
  apply Forall_cons in Hp as [[Hci Hnode] Hp].
  destruct (sscanf b " Node %*d : ID = %d %f ") as [|[id|?] [|[?|v] [|? ?]]] eqn:Es;
    try reflexivity.
  cbn [say Ci_Switching buffer pFile Node_Switching log].
  rewrite store_in by (rewrite HN; apply (Hnode id v); exact Es).
  unfold read_line. cbn [pFile buffer Ci_Switching Node_Switching log].
  destruct (pFile fr) as [|l rest] eqn:Ef.
  - destruct (i <? _); [reflexivity|].
    unfold steady, pending. cbn [buffer pFile Ci_Switching Node_Switching].
    rewrite ?Eb, ?Ef, length_insert.
    split; [discriminate|]. split; [|split; assumption].
    constructor; [split; assumption|constructor].
  - unfold steady, pending. cbn [buffer pFile Ci_Switching Node_Switching].
    rewrite length_insert. split; [discriminate|]. split; [exact Hp|split; assumption].
Qed.

Lemma for_loop_steady (body : Z -> frame F -> flow F (frame F)) (P : frame F -> Prop) :
  (forall i fr, P fr ->
     match body i fr with Next fr' => P fr' | Leave o _ => o = Returned None end) ->
  forall n i fr, P fr ->
    match for_loop n i body fr with Next fr' => P fr' | Leave o _ => o = Returned None end.
Proof.
  intros Hbody. induction n as [|n IH]; intros i fr HP; cbn [for_loop]; [exact HP|].
  specialize (Hbody i fr HP). destruct (body i fr) as [fr1|o l]; cbn [bind]; [|exact Hbody].
  now apply IH.
Qed.

(** With a line in the buffer and every identifier in range, the loader
    runs into no undefined behaviour. *)
Lemma load_from_defined pNtk nNodes c contents l0 :
  malloc_ok mc blk_Ci_Switching = true ->
  malloc_ok mc blk_Node_Switching = true ->
  0 <= nNodes ->
  Forall (id_in nNodes) (vCis pNtk ++ Abc_AigDfs pNtk) ->
  Forall (ids_in_range (Abc_NtkCiNum pNtk) nNodes) (chunks 256 (c :: contents)) ->
  match load_from mc pNtk (Abc_AigDfs pNtk) nNodes (c :: contents) l0 with
  | Next _ => True
  | Leave o _ => o = Returned None
  end.
Proof.
  intros Hci Hnode H0 Hids Hlines. unfold load_from.
  rewrite Hci, Hnode. pose proof H0 as H0'. apply Z.leb_le in H0'. rewrite H0'.
  cbn [negb andb orb].
  destruct (skip_header_filled (chunks 256 (c :: contents)) None (chunks_nonempty _ _ _))
    as (b & rest & -> & Hb & Hrest).
  set (fr0 := Build_frame _ _ _ _ _).
  assert (Hs0 : steady (Abc_NtkCiNum pNtk) nNodes fr0).
  { subst fr0. unfold steady, pending.
    cbn [buffer pFile Ci_Switching Node_Switching]. rewrite !length_replicate.
    split; [discriminate|]. split; [|unfold Abc_NtkCiNum; split; lia].
    rewrite Forall_forall in Hlines. constructor; [now apply Hlines|].
    apply Forall_forall. intros l Hl. apply Hlines, Hrest, Hl. }
  clearbody fr0.
  pose proof (for_loop_steady _ _ (read_ci_steady (Abc_NtkCiNum pNtk) nNodes)
                (Z.to_nat (Abc_NtkCiNum pNtk)) 0 fr0 Hs0) as H1.
  destruct (for_loop _ 0 (read_ci _) fr0) as [fr1|o1 l1]; cbn [bind]; [|exact H1].
  pose proof (for_loop_steady _ _ (fun i fr => read_node_steady (Abc_NtkCiNum pNtk) nNodes i fr)
                (length (Abc_AigDfs pNtk)) 0 fr1 H1) as H2.
  destruct (for_loop _ 0 (read_node _) fr1) as [fr2|o2 l2]; cbn [bind]; [|exact H2].
  destruct (negb (malloc_ok mc blk_vSwitching)); [reflexivity|].
  destruct H2 as (_ & _ & HC & HN).
  apply Forall_app in Hids as [Hc Hd].
  destruct (assign_cis_run (vCis pNtk) 0 (Ci_Switching fr2)
              (replicate (Z.to_nat nNodes) (Some f_bits0))) as (p1 & Hrun1 & _).
  { eapply Forall_impl; [exact Hc|]. intros o Ho. unfold id_in in Ho.
    rewrite length_replicate. lia. }
  { unfold Abc_NtkCiNum in HC. lia. }
  change (Z.of_nat 0) with 0 in Hrun1. rewrite Hrun1.
  pose proof (assign_cis_next _ _ _ _ _ Hrun1) as Hlen1. rewrite length_replicate in Hlen1.
  match goal with |- context [assign_nodes ?vs ?Nd ?p ?lg] =>
    destruct (assign_nodes_run vs Nd p lg) as (p2 & l2 & Hrun2 & _) end.
  { eapply Forall_impl; [exact Hd|]. intros o Ho. unfold id_in in Ho. lia. }
  { lia. }
  rewrite Hrun2. exact I.
Qed.



(** X23. For a valid network whose identifiers are below [nNodes], with
    both arrays allocated: a file that is not empty, that lacks a record
    or has one that does not match, and in which no line gives an
    identifier outside the array it is stored in, makes the loader return
    NULL after it has freed both arrays and closed the file. *)
Theorem incomplete_file_rejected (pNtk : Abc_Ntk) (name : string)
    (contents : text) (s : sys F) :
  valid_ntk pNtk ->
  files s !! name = Some contents ->
  ~ complete_file pNtk contents ->
  contents <> [] ->
  malloc_ok mc blk_Ci_Switching = true ->
  malloc_ok mc blk_Node_Switching = true ->
  0 <= CInt.wrap (vec_address mc) ->
  Forall (id_in (CInt.wrap (vec_address mc))) (vCis pNtk ++ Abc_AigDfs pNtk) ->
  Forall (ids_in_range (Abc_NtkCiNum pNtk) (CInt.wrap (vec_address mc)))
    (chunks 256 contents) ->
  fst (Sim_NtkLoadSwitching mc pNtk (Some name) s) = Returned None
  /\ released (trace (snd (Sim_NtkLoadSwitching mc pNtk (Some name) s)))
  /\ EFclose ∈ trace (snd (Sim_NtkLoadSwitching mc pNtk (Some name) s)).
Proof.
  intros Hv Hf Hbad Hne Hci Hnode H0 Hids Hlines.
  destruct contents as [|c contents]; [contradiction|].
  rewrite (load_named mc _ _ _ _ Hf).
  pose proof (load_from_defined pNtk _ c contents [EFopen name] Hci Hnode H0 Hids Hlines)
    as Hdef.
  pose proof (load_from_resources mc pNtk (Abc_AigDfs pNtk) _ (c :: contents)
                [EFopen name] Hci Hnode H0) as Hres.
  destruct (load_from _ _ _ _ _ _) as [[p l]|o l] eqn:E; cbn [fst snd].
  { exfalso. apply Hbad. eapply load_from_complete; eauto. }
  subst o. split; [reflexivity|]. cbn [emit trace].
  destruct (load_from_leave mc _ _ _ _ _ _ E Hci Hnode H0) as [H1 H2].
  split; [split; apply elem_of_app; right; assumption|].
  apply elem_of_app; right.
  assert (Hin : EFclose ∈ resources l).
  { destruct Hres as [_ [-> | ->]]; apply elem_of_app; right;
      unfold arrays_read_failed, arrays_no_vector; rewrite !elem_of_cons; auto 10. }
  unfold resources in Hin. apply list_elem_of_In in Hin. apply List.filter_In in Hin as [Hin _].
  now apply list_elem_of_In.
Qed.

End Incomplete.


Lemma incomplete_file_rejected_witness :
  Scenario.load_with 4 (header_text Scenario.ntk ++ record_line "CI" 0 0 (lit "0.5"))
  = Returned None
  /\ released (trace (snd (Sim_NtkLoadSwitching (Scenario.machine_with 4) Scenario.ntk
        (Some "net.switch"%string)
        (Scenario.disk "net.switch"
           (header_text Scenario.ntk ++ record_line "CI" 0 0 (lit "0.5"))))))
  /\ EFclose ∈ trace (snd (Sim_NtkLoadSwitching (Scenario.machine_with 4) Scenario.ntk
        (Some "net.switch"%string)
        (Scenario.disk "net.switch"
           (header_text Scenario.ntk ++ record_line "CI" 0 0 (lit "0.5"))))).
Proof.
  eapply (incomplete_file_rejected (Scenario.machine_with 4) Scenario.ntk
            "net.switch"%string _ (Scenario.disk "net.switch" _) scenario_valid).
  - reflexivity.
  - intros [Hlen _]. vm_compute in Hlen. lia.
  - discriminate.
  - reflexivity.
  - reflexivity.
  - vm_compute. discriminate.
  - repeat constructor; unfold id_in;
      change (CInt.wrap (vec_address (Scenario.machine_with 4))) with 4; cbn; lia.
  - assert (E : chunks 256 (header_text Scenario.ntk ++ record_line "CI" 0 0 (lit "0.5"))
              = header_lines Scenario.ntk ++ [record_line "CI" 0 0 (lit "0.5")])
      by (vm_compute; reflexivity).
    rewrite E.
    repeat (apply List.Forall_cons || apply List.Forall_nil);
      (split; intros id v Hs; vm_compute in Hs; try discriminate).
    injection Hs as <- _. change (CInt.wrap (vec_address (Scenario.machine_with 4))) with 4;
      change (Abc_NtkCiNum Scenario.ntk) with 2; lia.
Defined.
